(** * dubix-stt3: the voice-activity session server

    A shallow embedding of the streaming speech-to-text server
    (the [/stream], [/transcript] and [/finalize] routes, [calcRMS] and
    [finalizeAndTranscribe]) and the properties of its session life cycle.

    Conventions of the embedding.
    - JavaScript numbers that carry audio arithmetic ([rms],
      [rmsActiveTime], [sampleRate]) are IEEE-754 binary64 values, modelled
      by Rocq's primitive floats, so that NaN and rounding behave as in the
      program.
    - [Date.now()] readings are integers (milliseconds), modelled in [Z];
      a handler run uses one reading of the clock.
    - A [Buffer] is a list of bytes.  [req.body] is the buffer that the
      [express.raw] middleware hands to the route, when it parsed the body;
      a request it left unparsed is an event of its own.
    - The file system decides which scratch files can be created; its
      verdict is part of the state ([writable]).
    - The two [Map]s are finite maps keyed by the session id.
    - What the program does to the outside (responses, console output,
      the provider request, the scratch file) is recorded as a list of
      [effect]s.

    The two WebSocket relays of the repository ([server.js] and its
    variant) are embedded after the server. *)

From Stdlib Require Import ZArith List Floats Uint63 Bool Strings.Byte.
From stdpp Require Import gmap strings list fin_maps.
Import ListNotations.

Local Open Scope Z_scope.
Set Warnings "-register-all".

(** ** Numbers *)

(** The double nearest to an integer; exact for magnitudes below 2^53,
    which covers sample values and buffer lengths. *)
Definition Z2F (z : Z) : float :=
  match z with
  | Z0 => 0%float
  | Zpos _ => PrimFloat.of_uint63 (Uint63.of_Z z)
  | Zneg _ => PrimFloat.opp (PrimFloat.of_uint63 (Uint63.of_Z (- z)))
  end.

(** The literal [0.02], as the double the parser reads it to. *)
Definition ACTIVE_RMS : float := 0x1.47ae147ae147bp-6%float.

(** The literal [2000] of the warm-up test. *)
Definition WARMUP_MS : float := 2000%float.

(** The delay of the transcript's [setTimeout]. *)
Definition TRANSCRIPT_TTL : Z := 5000.

(** ** Buffers and the Int16Array view *)

Abbreviation Buffer := (list Byte.byte).

Definition byte_val (b : Byte.byte) : Z := Z.of_N (Byte.to_N b).

(** One little-endian signed 16-bit element. *)
Definition int16 (lo hi : Byte.byte) : Z :=
  let u := byte_val lo + 256 * byte_val hi in
  if u <? 32768 then u else u - 65536.

(** [new Int16Array(buffer.buffer, buffer.byteOffset, buffer.byteLength / 2)]:
    the length argument is truncated to an integer, so a trailing odd byte
    is not part of the view. *)
Fixpoint samples (buffer : Buffer) : list Z :=
  match buffer with
  | lo :: hi :: rest => int16 lo hi :: samples rest
  | _ => []
  end.

(** The loop body of [calcRMS]: [s = samples[i] / 32768; sumSq += s * s]. *)
Definition addSq (sumSq : float) (x : Z) : float :=
  let s := (Z2F x / 32768)%float in (sumSq + s * s)%float.

Definition sumSquares (xs : list Z) : float := fold_left addSq xs 0%float.

Definition calcRMS (buffer : Buffer) : float :=
  let xs := samples buffer in
  PrimFloat.sqrt (sumSquares xs / Z2F (Z.of_nat (length xs))).

(** [rms > 0.02] *)
Definition isActive (rms : float) : bool := (ACTIVE_RMS <? rms)%float.

(** [chunk.length / (sampleRate * 2) * 1000] *)
Definition chunkMs (chunk : Buffer) (sampleRate : float) : float :=
  (Z2F (Z.of_nat (length chunk)) / (sampleRate * 2) * 1000)%float.

(** ** JavaScript values (the provider's parsed JSON, the stored transcript) *)

Inductive jsval : Type :=
| JUndefined
| JNull
| JBool (b : bool)
| JNum (x : float)
| JStr (s : string)
| JArr (items : list jsval)
| JObj (fields : list (string * jsval)).

(** ToBoolean *)
Definition truthy (v : jsval) : bool :=
  match v with
  | JUndefined | JNull => false
  | JBool b => b
  | JNum x => negb (PrimFloat.eqb x 0) && negb (PrimFloat.is_nan x)
  | JStr s => negb (String.eqb s "")
  | JArr _ | JObj _ => true
  end.

Fixpoint assoc (k : string) (fields : list (string * jsval)) : jsval :=
  match fields with
  | [] => JUndefined
  | (k', v) :: rest => if String.eqb k k' then v else assoc k rest
  end.

(** [v?.k] for one of the keys [results], [channels], [alternatives],
    [transcript]: only objects own such a property. *)
Definition prop (k : string) (v : jsval) : jsval :=
  match v with
  | JObj fields => assoc k fields
  | _ => JUndefined
  end.

(** [v?.[0]] *)
Definition first (v : jsval) : jsval :=
  match v with
  | JArr (x :: _) => x
  | JStr (String c _) => JStr (String c "")
  | JObj fields => assoc "0" fields
  | _ => JUndefined
  end.

(** [json?.results?.channels?.[0]?.alternatives?.[0]?.transcript || ''] *)
Definition transcriptOf (json : jsval) : jsval :=
  let t := prop "transcript" (first (prop "alternatives"
             (first (prop "channels" (prop "results" json))))) in
  if truthy t then t else JStr "".

(** ** Sessions *)

Record session : Type := mkSession {
  audio : list Buffer;
  lastHeard : Z;
  startedTalking : bool;
  rmsActiveTime : float;
  sampleRate : float
}.

(** The object literal of a new session. *)
Definition newSession (now : Z) (rate : float) : session :=
  {| audio := []; lastHeard := now; startedTalking := false;
     rmsActiveTime := 0%float; sampleRate := rate |}.

(** The branch on [rms > 0.02] that updates the session in place.
    [rate] is the request's sample rate, not the session's. *)
Definition ingest (now : Z) (rate : float) (chunk : Buffer) (s : session) : session :=
  if isActive (calcRMS chunk) then
    {| audio := audio s ++ [chunk];
       lastHeard := now;
       startedTalking := true;
       rmsActiveTime := (rmsActiveTime s + chunkMs chunk rate)%float;
       sampleRate := sampleRate s |}
  else if negb (startedTalking s) || (rmsActiveTime s <? WARMUP_MS)%float then
    {| audio := audio s ++ [chunk];
       lastHeard := now;
       startedTalking := startedTalking s;
       rmsActiveTime := rmsActiveTime s;
       sampleRate := sampleRate s |}
  else s.

(** The session after a silence-classified chunk was kept. *)
Definition appended (now : Z) (chunk : Buffer) (s : session) : session :=
  {| audio := audio s ++ [chunk]; lastHeard := now;
     startedTalking := startedTalking s; rmsActiveTime := rmsActiveTime s;
     sampleRate := sampleRate s |}.

(** A session's life: the chunks ingested so far, each with the clock
    reading and the sample rate of its request. *)
Definition ingestAll (chunks : list (Z * float * Buffer)) (s : session) : session :=
  fold_left (fun s c => ingest c.1.1 c.1.2 c.2 s) chunks s.

(** ** The process state *)

(** A scratch file name [audio_${id}_${Date.now()}.raw]: the id and the
    clock reading determine it. *)
Abbreviation path := (string * Z)%type.

(** What a suspended [finalizeAndTranscribe] still holds while it awaits
    the provider: its [id], [session.sampleRate], [tmpFile], and the body
    it sent. *)
Record job : Type := mkJob {
  job_id : string;
  job_rate : float;
  job_file : path;
  job_body : Buffer
}.

Record state : Type := mkState {
  sessions : gmap string session;      (* const sessions = new Map() *)
  transcripts : gmap string jsval;     (* const transcripts = new Map() *)
  timers : list (Z * string);          (* pending setTimeout deletions: due time, id *)
  inflight : list job;                 (* finalize calls awaiting the provider *)
  files : gmap path Buffer;            (* scratch files in tmpdir() *)
  writable : path -> bool              (* the names fs.writeFileSync can create *)
}.

(** The two maps are empty when the process starts.  [writable] belongs to
    the environment: the name of a scratch file embeds the caller's id, and
    an id with a path separator names a directory that does not exist. *)
Definition initial : state :=
  {| sessions := ∅; transcripts := ∅; timers := []; inflight := []; files := ∅;
     writable := fun _ => true |}.

Inductive response : Type :=
| StreamOk (rms : float)                         (* res.json({ ok: true, rms }) *)
| TranscriptBody (transcript : jsval) (ready : bool)
| NoActiveSession                                (* res.status(404) *)
| Finalizing.                                    (* res.send('Finalizing...') *)

Inductive effect : Type :=
| LogSilence (id : string)                       (* Silence detected -> finalizing *)
| LogNoAudio (id : string)                       (* No audio to process *)
| WriteFile (p : path) (data : Buffer)
| Fetch (rate : float) (body : Buffer)           (* the POST to the provider *)
| LogTranscript (id : string) (t : jsval)
| SetTranscript (id : string) (t : jsval)        (* transcripts.set(id, transcript) *)
| SetTimeout (due : Z) (id : string)
| LogError (id : string)                         (* Deepgram error *)
| Unlink (p : path)
| UnhandledRejection
| Respond (r : response).

(** ** A monad for handler code: state, effects, exceptions *)

Inductive result (A : Type) : Type :=
| Ok (a : A)
| Throw.
Arguments Ok {A} a.
Arguments Throw {A}.

Definition js (A : Type) : Type := state -> result A * state * list effect.

#[export] Instance js_ret : MRet js := fun A a st => (Ok a, st, []).

#[export] Instance js_bind : MBind js := fun A B k m st =>
  match m st with
  | (Ok a, st1, fx1) => let '(r, st2, fx2) := k a st1 in (r, st2, fx1 ++ fx2)
  | (Throw, st1, fx1) => (Throw, st1, fx1)
  end.

Definition throw {A} : js A := fun st => (Throw, st, []).

Definition emit (e : effect) : js unit := fun st => (Ok tt, st, [e]).

(** [try { m } catch { }] with the outcome handed to the continuation. *)
Definition attempt {A} (m : js A) : js (result A) :=
  fun st => let '(r, st1, fx1) := m st in (Ok r, st1, fx1).

(** A promise nobody awaits: a rejection reaches no caller. *)
Definition detach (m : js unit) : js unit :=
  r ← attempt m;
  match r with
  | Ok _ => mret tt
  | Throw => emit UnhandledRejection
  end.

Definition getState : js state := fun st => (Ok st, st, []).

Definition withSessions (m : gmap string session) (st : state) : state :=
  {| sessions := m; transcripts := transcripts st; timers := timers st;
     inflight := inflight st; files := files st;
     writable := writable st |}.

Definition withTranscripts (m : gmap string jsval) (st : state) : state :=
  {| sessions := sessions st; transcripts := m; timers := timers st;
     inflight := inflight st; files := files st;
     writable := writable st |}.

Definition withTimers (l : list (Z * string)) (st : state) : state :=
  {| sessions := sessions st; transcripts := transcripts st; timers := l;
     inflight := inflight st; files := files st;
     writable := writable st |}.

Definition withInflight (l : list job) (st : state) : state :=
  {| sessions := sessions st; transcripts := transcripts st; timers := timers st;
     inflight := l; files := files st;
     writable := writable st |}.

Definition withFiles (m : gmap path Buffer) (st : state) : state :=
  {| sessions := sessions st; transcripts := transcripts st; timers := timers st;
     inflight := inflight st; files := m;
     writable := writable st |}.

(** The environment changes what can be written. *)
Definition withWritable (w : path -> bool) (st : state) : state :=
  {| sessions := sessions st; transcripts := transcripts st; timers := timers st;
     inflight := inflight st; files := files st; writable := w |}.

Definition setSessions (m : gmap string session) : js unit :=
  fun st => (Ok tt, withSessions m st, []).

Definition setTranscripts (m : gmap string jsval) : js unit :=
  fun st => (Ok tt, withTranscripts m st, []).

Definition setTimers (l : list (Z * string)) : js unit :=
  fun st => (Ok tt, withTimers l st, []).

Definition setInflight (l : list job) : js unit :=
  fun st => (Ok tt, withInflight l st, []).

Definition setFiles (m : gmap path Buffer) : js unit :=
  fun st => (Ok tt, withFiles m st, []).

(** [fs.writeFileSync]: throws when the file cannot be created. *)
Definition writeFileSync (p : path) (data : Buffer) : js unit :=
  st ← getState;
  if writable st p
  then setFiles (<[p := data]> (files st)) ;; emit (WriteFile p data)
  else throw.

(** [fs.readFileSync]: throws when the file is missing. *)
Definition readFileSync (p : path) : js Buffer :=
  st ← getState;
  match files st !! p with
  | Some data => mret data
  | None => throw
  end.

(** [fs.unlinkSync]: throws when the file is missing. *)
Definition unlinkSync (p : path) : js unit :=
  st ← getState;
  match files st !! p with
  | Some _ => setFiles (delete p (files st)) ;; emit (Unlink p)
  | None => throw
  end.

(** ** Requests *)

(** [req.query.id || 'default']: a missing or empty parameter gives the
    default id. *)
Definition idOf (q : option string) : string :=
  match q with
  | Some s => if String.eqb s "" then "default" else s
  | None => "default"
  end.

(** The query and the body of a [POST /stream] whose body [express.raw]
    parsed.  [q_sample_rate] is [None] when the parameter is missing or
    empty, else the number [parseInt] returned (an integer-valued double,
    or NaN). *)
Record stream_query : Type := mkQuery {
  q_id : option string;
  q_sample_rate : option float;
  q_body : Buffer
}.

(** [parseInt(req.query.sample_rate || '16000', 10)] *)
Definition rateOf (q : option float) : float :=
  match q with
  | Some r => r
  | None => 16000%float
  end.

(** What the provider call comes to: [fetch] rejects, [resp.json()]
    rejects, or the body parses. *)
Inductive provider_outcome : Type :=
| FetchRejected
| JsonRejected
| Parsed (json : jsval).

Definition failed (o : provider_outcome) : bool :=
  match o with
  | Parsed _ => false
  | FetchRejected | JsonRejected => true
  end.

Inductive event : Type :=
| PostStream (q : stream_query)
| GetTranscript (q : option string)
| GetFinalize (q : option string)
| ProviderSettles (n : nat) (o : provider_outcome)    (* the n-th pending call *)
| PostStreamUnparsed (id : option string) (sample_rate : option float).
                                 (* a POST /stream whose body was left unparsed *)

(** ** The handlers *)

Section Server.

(** [parseInt(process.env.SILENCE_MS || '1200', 10)]: an integer, or
    [None] for NaN. *)
Variable SILENCE_MS : option Z.

(** [elapsed > SILENCE_MS] *)
Definition exceedsSilence (elapsed : Z) : bool :=
  match SILENCE_MS with
  | Some ms => ms <? elapsed
  | None => false
  end.

(** [session.startedTalking && now - session.lastHeard > SILENCE_MS] *)
Definition silenceDetected (now : Z) (s : session) : bool :=
  startedTalking s && exceedsSilence (now - lastHeard s).

(** What [unlinkSync] does in a state: nothing when the file is gone. *)
Definition unlinkFx (p : path) (st : state) : list effect :=
  match files st !! p with
  | Some _ => [Unlink p]
  | None => []
  end.

(** The [catch] and [finally] blocks, given how the [try] block ended. *)
Definition catchFinally (id : string) (tmpFile : path) (r : result unit) : js unit :=
  match r with
  | Ok _ => mret tt
  | Throw => emit (LogError id)
  end ;;
  attempt (unlinkSync tmpFile) ;;
  mret tt.

(** The closure a started finalize call keeps across its first [await]. *)
Definition startedJob (now : Z) (id : string) (s : session) : job :=
  {| job_id := id; job_rate := sampleRate s; job_file := (id, now);
     job_body := concat (audio s) |}.

(** [finalizeAndTranscribe] up to its first [await]. *)
Definition finalizeAndTranscribe (now : Z) (id : string) : js unit :=
  st ← getState;
  match sessions st !! id with
  | None => mret tt
  | Some session =>
      setSessions (delete id (sessions st)) ;;
      match audio session with
      | [] => emit (LogNoAudio id)
      | _ :: _ =>
          let tmpFile := (id, now) in
          writeFileSync tmpFile (concat (audio session)) ;;
          r ← attempt (fileData ← readFileSync tmpFile;
                       emit (Fetch (sampleRate session) fileData) ;;
                       mret fileData);
          match r with
          | Ok fileData =>
              st' ← getState;
              setInflight (inflight st' ++
                [ {| job_id := id; job_rate := sampleRate session;
                     job_file := tmpFile; job_body := fileData |} ])
          | Throw => catchFinally id tmpFile Throw
          end
      end
  end.

(** The two awaits: [await fetch(...)] and [await resp.json()]. *)
Definition awaitJson (o : provider_outcome) : js jsval :=
  match o with
  | Parsed json => mret json
  | FetchRejected | JsonRejected => throw
  end.

(** The rest of the [try] block, run when the provider settles. *)
Definition storeTranscript (now : Z) (id : string) (o : provider_outcome) : js unit :=
  json ← awaitJson o;
  let transcript := transcriptOf json in
  emit (LogTranscript id transcript) ;;
  st ← getState;
  setTranscripts (<[id := transcript]> (transcripts st)) ;;
  emit (SetTranscript id transcript) ;;
  st' ← getState;
  setTimers (timers st' ++ [(now + TRANSCRIPT_TTL, id)]) ;;
  emit (SetTimeout (now + TRANSCRIPT_TTL) id).

(** [finalizeAndTranscribe] from its first [await] to its end. *)
Definition finalizeResume (now : Z) (jb : job) (o : provider_outcome) : js unit :=
  r ← attempt (storeTranscript now (job_id jb) o);
  catchFinally (job_id jb) (job_file jb) r.

(** The silence test that ends the stream handler. *)
Definition checkSilence (now : Z) (id : string) (s : session) : js unit :=
  if silenceDetected now s
  then emit (LogSilence id) ;; detach (finalizeAndTranscribe now id)
  else mret tt.

(** The session as the stream handler leaves it, before the silence test
    (a session that does not exist yet is created first). *)
Definition streamSession (now : Z) (q : stream_query) (st : state) : session :=
  let rate := rateOf (q_sample_rate q) in
  ingest now rate (q_body q)
    match sessions st !! idOf (q_id q) with
    | Some s => s
    | None => newSession now rate
    end.

(** [Buffer.from(req.body)]: [req.body] is a [Buffer] when [express.raw]
    parsed the body ([Some]); what the middleware leaves otherwise is
    nothing [Buffer.from] accepts, and the call throws. *)
Definition bufferFrom (body : option Buffer) : js Buffer :=
  match body with
  | Some chunk => mret chunk
  | None => throw
  end.

(** [app.post('/stream', ...)]: the session is created before the body is
    read. *)
Definition streamHandler (now : Z) (qid : option string) (qrate : option float)
    (body : option Buffer) : js unit :=
  let id := idOf qid in
  let rate := rateOf qrate in
  st ← getState;
  match sessions st !! id with
  | Some _ => mret tt
  | None => setSessions (<[id := newSession now rate]> (sessions st))
  end ;;
  st1 ← getState;
  match sessions st1 !! id with
  | None => throw
  | Some session =>
      chunk ← bufferFrom body;
      let rms := calcRMS chunk in
      let session' := ingest now rate chunk session in
      setSessions (<[id := session']> (sessions st1)) ;;
      checkSilence now id session' ;;
      emit (Respond (StreamOk rms))
  end.

(** The handler on a request whose body was parsed. *)
Definition postStream (now : Z) (q : stream_query) : js unit :=
  streamHandler now (q_id q) (q_sample_rate q) (Some (q_body q)).

(** [app.get('/transcript', ...)] *)
Definition getTranscript (q : option string) : js unit :=
  let id := idOf q in
  st ← getState;
  match transcripts st !! id with
  | Some transcript =>
      if truthy transcript
      then emit (Respond (TranscriptBody transcript true))
      else emit (Respond (TranscriptBody (JStr "") false))
  | None => emit (Respond (TranscriptBody (JStr "") false))
  end.

(** [app.get('/finalize', ...)] *)
Definition getFinalize (now : Z) (q : option string) : js unit :=
  let id := idOf q in
  st ← getState;
  match sessions st !! id with
  | None => emit (Respond NoActiveSession)
  | Some _ =>
      detach (finalizeAndTranscribe now id) ;;
      emit (Respond Finalizing)
  end.

(** ** The event loop *)

Definition isDue (now : Z) (t : Z * string) : bool := fst t <=? now.

(** The [setTimeout] callbacks that are due run: [transcripts.delete(id)]. *)
Definition tick (now : Z) (st : state) : state :=
  withTimers (List.filter (fun t => negb (isDue now t)) (timers st))
    (withTranscripts
       (fold_left (fun m t => delete (snd t) m)
          (List.filter (isDue now) (timers st)) (transcripts st))
       st).

Definition handle (now : Z) (e : event) : js unit :=
  match e with
  | PostStream q => detach (postStream now q)
  | GetTranscript q => getTranscript q
  | GetFinalize q => getFinalize now q
  | ProviderSettles n o =>
      st ← getState;
      match inflight st !! n with
      | None => mret tt
      | Some jb =>
          setInflight (take n (inflight st) ++ drop (S n) (inflight st)) ;;
          detach (finalizeResume now jb o)
      end
  | PostStreamUnparsed id rate => detach (streamHandler now id rate None)
  end.

(** One turn of the loop at clock reading [now]: due timers, then the
    event's handler. *)
Definition step (now : Z) (e : event) (st : state) : state * list effect :=
  let '(_, st', fx) := handle now e (tick now st) in (st', fx).

Fixpoint run (evs : list (Z * event)) (st : state) : state * list effect :=
  match evs with
  | [] => (st, [])
  | (now, e) :: rest =>
      let '(st1, fx1) := step now e st in
      let '(st2, fx2) := run rest st1 in
      (st2, fx1 ++ fx2)
  end.

(** The states of the running server: events arrive, and what the file
    system accepts may change at any time. *)
Inductive reachable : state -> Prop :=
| reach_initial : reachable initial
| reach_step now e st : reachable st -> reachable (fst (step now e st))
| reach_fs w st : reachable st -> reachable (withWritable w st).

(** *** Notions used to state the properties *)

(** The configured timeout is not negative ([NaN] never fires). *)
Definition timeoutNonneg : Prop :=
  match SILENCE_MS with
  | Some ms => 0 <= ms
  | None => True
  end.

(** A sequence of stream requests, all for [id], during which the
    session's [rmsActiveTime] stays below the warm-up threshold after every
    chunk. *)
Fixpoint belowWarmup (id : string) (reqs : list (Z * stream_query)) (st : state) : Prop :=
  match reqs with
  | [] => True
  | (now, q) :: rest =>
      idOf (q_id q) = id
      /\ (rmsActiveTime (streamSession now q (tick now st)) <? WARMUP_MS)%float = true
      /\ belowWarmup id rest (step now (PostStream q) st).1
  end.

Definition streamEvents (reqs : list (Z * stream_query)) : list (Z * event) :=
  map (fun r => (r.1, PostStream r.2)) reqs.

Definition audioOf (o : option session) : list Buffer :=
  match o with
  | Some s => audio s
  | None => []
  end.

(** The [transcripts.set] calls for [id] among some effects. *)
Definition isWrite (id : string) (e : effect) : bool :=
  match e with
  | SetTranscript id' _ => String.eqb id id'
  | _ => false
  end.

Definition countWrites (id : string) (fx : list effect) : nat :=
  length (List.filter (isWrite id) fx).

(** The event stores a transcript for [id]: the provider answers a
    pending call of that id with a body. *)
Definition writesTo (id : string) (e : event) (st : state) : Prop :=
  match e with
  | ProviderSettles n (Parsed _) =>
      exists jb, inflight st !! n = Some jb /\ job_id jb = id
  | _ => False
  end.

(** No event of the sequence stores a transcript for [id]. *)
Fixpoint noWriteTo (id : string) (evs : list (Z * event)) (st : state) : Prop :=
  match evs with
  | [] => True
  | (now, e) :: rest =>
      ~ writesTo id e st /\ noWriteTo id rest (step now e st).1
  end.

End Server.

(** ** Further notions used to state properties *)

(** The bodies of the [res.json] and [res.send] calls among some effects. *)
Definition responses (fx : list effect) : list response :=
  omap (fun e => match e with Respond r => Some r | _ => None end) fx.

(** The request names session [id] in its query. *)
Definition addresses (id : string) (e : event) : bool :=
  match e with
  | PostStream q => String.eqb (idOf (q_id q)) id
  | GetFinalize q => String.eqb (idOf q) id
  | GetTranscript _ | ProviderSettles _ _ => false
  | PostStreamUnparsed q _ => String.eqb (idOf q) id
  end.

(** What the event loop sees of a promise nobody awaits, given how the
    call ended. *)
Definition rejected {A} (r : result A) : list effect :=
  match r with
  | Ok _ => []
  | Throw => [UnhandledRejection]
  end.

(** The effects of a finalize call that is started and not awaited. *)
Definition finalizeFx (now : Z) (id : string) (st : state) : list effect :=
  (finalizeAndTranscribe now id st).2 ++ rejected (finalizeAndTranscribe now id st).1.1.

(** A stored session with no chunk has not started talking. *)
Definition unfedQuiet (st : state) : Prop :=
  forall id s, sessions st !! id = Some s -> audio s = [] -> startedTalking s = false.

(** Every scratch file is the [tmpFile] of a finalize call that still
    awaits the provider. *)
Definition filesOwned (st : state) : Prop :=
  forall p, is_Some (files st !! p) -> exists jb, jb ∈ inflight st /\ job_file jb = p.

(** Every stored transcript has a pending deletion, and every pending
    deletion is due by [D]. *)
Definition deletionsPending (D : Z) (st : state) : Prop :=
  (forall id, is_Some (transcripts st !! id) -> exists d, (d, id) ∈ timers st)
  /\ (forall d id, (d, id) ∈ timers st -> d <= D).

(** ** Notions for the rounding analysis of [calcRMS]

    The primitive floats are specified by [Prim2SF] and the operations of
    [SpecFloat]; the notions below speak about that specification. *)

(** A shift record with no bit shifted out so far. *)
Definition exact_rec (mrs : shr_record) : Prop := shr_r mrs = false /\ shr_s mrs = false.


(** A zero, or a positive number that is at most the integer [B]. *)
Definition atMost (f : spec_float) (B : Z) : Prop :=
  match f with
  | S754_zero _ => True
  | S754_finite false m e => e <= 0 /\ Zpos m <= B * 2 ^ (- e)
  | _ => False
  end.

(** One when a rounding location is not exact. *)
Definition inexact (l : location) : Z :=
  match l with
  | loc_Exact => 0
  | loc_Inexact _ => 1
  end.


(** The positive integer [n], exactly. *)
Definition exactly (f : spec_float) (n : Z) : Prop :=
  match f with
  | S754_finite false m e => e <= 0 /\ Zpos m = n * 2 ^ (- e)
  | _ => False
  end.


(** One term of the sum of squares: [s * s] for [s = samples[i] / 32768]. *)
Definition square (x : Z) : float := let s := (Z2F x / 32768)%float in (s * s)%float.

(** A predicate holds on [n] consecutive integers from [x] on. *)
Fixpoint allFrom (f : Z -> bool) (n : nat) (x : Z) : bool :=
  match n with
  | O => true
  | S n' => f x && allFrom f n' (x + 1)
  end.

(** A number between [lo] and [hi] units of [2^j]: a zero when [lo] allows
    it, or positive and finite. *)
Definition within (j : Z) (f : spec_float) (lo hi : Z) : Prop :=
  match f with
  | S754_zero _ => lo <= 0
  | S754_finite false m e => e <= j /\ lo * 2 ^ (j - e) <= Zpos m <= hi * 2 ^ (j - e)
  | _ => False
  end.

(** The sum of the squares of the samples, as an integer. *)
Definition sumSq (xs : list Z) : Z := fold_right (fun x acc => x * x + acc) 0 xs.

(** [s * s] is [x * x] units of [2^-30], with no rounding. *)
Definition squareExact (x : Z) : bool :=
  match Prim2SF (square x) with
  | S754_zero _ => x =? 0
  | S754_finite false m e => (e <=? -30) && (Zpos m =? x * x * 2 ^ (-30 - e))
  | _ => false
  end.

(** [a / 32768] is [a] units of [2^-15], with no rounding. *)
Definition amplitudeExact (a : Z) : bool :=
  match Prim2SF (Z2F a / 32768) with
  | S754_finite false m e => (e <=? -15) && (Zpos m =? a * 2 ^ (-15 - e))
  | _ => false
  end.

(** * The WebSocket relays

    [server.js] and its variant forward uploaded bytes to an upstream
    WebSocket and hand the upstream's text messages to pollers.  What the
    handlers read from their environment is part of the event: the text
    [data.toString()] of a message ([None] when the call throws), the
    [readyState] of the current socket, whether [ws.send] throws.  Timer
    callbacks whose time the environment chooses are events of their own. *)

(** [ws.readyState] *)
Inductive readyState : Type := CONNECTING | OPEN | CLOSING | CLOSED.

(** [ws && ws.readyState === WebSocket.OPEN], for the socket [connectWS]
    assigned. *)
Definition isOpen (r : readyState) : bool :=
  match r with
  | OPEN => true
  | CONNECTING | CLOSING | CLOSED => false
  end.

(** [a || null] for a header or query value. *)
Definition orNull (s : option string) : option string :=
  match s with
  | Some x => if String.eqb x "" then None else Some x
  | None => None
  end.

(** [req.headers["x-client-id"] || req.query.clientId || null] *)
Definition clientIdOf (header query : option string) : option string :=
  match orNull header with
  | Some x => Some x
  | None => orNull query
  end.

(** The ['data'] handler: [chunks.push(buf); totalBytes += buf.length]. *)
Definition onData (acc : list Buffer * nat) (chunk : Buffer) : list Buffer * nat :=
  (acc.1 ++ [chunk], (acc.2 + length chunk)%nat).

(** The closure variables when ['end'] fires. *)
Definition received (chunks : list Buffer) : list Buffer * nat :=
  fold_left onData chunks ([], 0%nat).

(** [Buffer.concat(list, totalLength)]: the buffers in order, cut or
    zero-filled to [totalLength] bytes. *)
Definition bufferConcat (bufs : list Buffer) (totalLength : nat) : Buffer :=
  take totalLength (concat bufs ++ replicate (totalLength - length (concat bufs)) x00).

Inductive relay_response : Type :=
| EmptyBody                                           (* 400 Empty body *)
| Forwarded (bytes : nat) (clientId : option string)  (* 200 { ok: true, bytes, clientId } *)
| SendFailed                                          (* 500 WebSocket send failed *)
| NotConnected                                        (* 503 WebSocket not connected *)
| RequestError                                        (* 500 Request error *)
| Polled (out : list string)                          (* 200 JSON.stringify(out) *)
| HealthBody (wsConnected : bool).                    (* { ok: true, wsConnected } *)

Inductive relay_effect : Type :=
| Connect                                  (* new WebSocket(WS_TARGET_URL) *)
| ReconnectIn (ms : Z)                     (* setTimeout(connectWS, 2000) *)
| Send (body : Buffer)                     (* ws.send(body, { binary: true }, ...) *)
| LogConnecting
| LogConnected
| LogWsError
| LogReceived (txt : string)
| LogParseFailed
| LogIgnoredBinary
| LogClosed (code : Z)
| LogEmptyBody
| LogStream (bytes : nat) (clientId : option string)
| LogSendException
| LogNotConnected
| LogRequestError
| LogCleanup
| Uncaught                                 (* an exception leaves a handler *)
| Reply (r : relay_response).

Inductive relay_event : Type :=
| WsOpen
| WsMessage (data : option string) (isBinary : bool)
| WsClose (code : Z)
| WsError
| Reconnect                                (* the timer of [setTimeout(connectWS, 2000)] fires *)
| StreamEnd (header query : option string) (chunks : list Buffer)
            (ready : readyState) (sendThrows : bool)
| StreamError (chunks : list Buffer)
| Poll
| Health (ready : readyState).

(** The ['end'] handler of [POST /stream]; [guarded] says whether [ws.send]
    sits in a [try] block. *)
Definition onEnd (guarded : bool) (header query : option string) (chunks : list Buffer)
    (ready : readyState) (sendThrows : bool) : list relay_effect :=
  let clientId := clientIdOf header query in
  let '(bufs, totalBytes) := received chunks in
  let body := bufferConcat bufs totalBytes in
  if (length body =? 0)%nat then [LogEmptyBody; Reply EmptyBody]
  else
    LogStream (length body) clientId ::
    if isOpen ready then
      if sendThrows then
        if guarded then [LogSendException; Reply SendFailed] else [Uncaught]
      else [Send body; Reply (Forwarded (length body) clientId)]
    else [LogNotConnected; Reply NotConnected].

(** ** [server.js]: every response is kept until polled or cleared *)
Module Relay.

(** [let lastWsResponses = []] *)
Definition state : Type := list string.

Definition initial : state := [].

(** The [setInterval] callback. *)
Definition cleanup (lastWsResponses : state) : state * list relay_effect :=
  match lastWsResponses with
  | [] => ([], [])
  | _ :: _ => ([], [LogCleanup])
  end.

(** What happens to the process: an event of the sockets and requests, or
    a turn of the interval timer. *)
Inductive event : Type :=
| Io (e : relay_event)
| Interval.

Definition handle (e : relay_event) (lastWsResponses : state) : state * list relay_effect :=
  match e with
  | WsOpen => (lastWsResponses, [LogConnected])
  | WsError => (lastWsResponses, [LogWsError])
  | WsMessage data isBinary =>
      if isBinary then (lastWsResponses, [LogIgnoredBinary])
      else match data with
           | Some txt => (lastWsResponses ++ [txt], [LogReceived txt])
           | None => (lastWsResponses, [LogParseFailed])
           end
  | WsClose code => (lastWsResponses, [LogClosed code; ReconnectIn 2000])
  | Reconnect => (lastWsResponses, [LogConnecting; Connect])
  | StreamEnd header query chunks ready sendThrows =>
      (lastWsResponses, onEnd true header query chunks ready sendThrows)
  | StreamError _ => (lastWsResponses, [LogRequestError; Reply RequestError])
  | Poll => ([], [Reply (Polled lastWsResponses)])
  | Health ready => (lastWsResponses, [Reply (HealthBody (isOpen ready))])
  end.

Definition step (e : event) (st : state) : state * list relay_effect :=
  match e with
  | Io e => handle e st
  | Interval => cleanup st
  end.

Fixpoint run (evs : list event) (st : state) : state * list relay_effect :=
  match evs with
  | [] => (st, [])
  | e :: rest =>
      let '(st1, fx1) := step e st in
      let '(st2, fx2) := run rest st1 in
      (st2, fx1 ++ fx2)
  end.

End Relay.

(** ** The variant that keeps the latest response for one second *)
Module LatestRelay.

Record state : Type := mkState {
  lastWsResponse : option string;     (* let lastWsResponse = null *)
  clearTimer : option Z               (* the live timer of clearTimeoutHandle: its due time *)
}.

Definition initial : state := {| lastWsResponse := None; clearTimer := None |}.

(** [if (lastWsResponse)]: [null] and the empty string are falsy. *)
Definition held (st : state) : option string := orNull (lastWsResponse st).

(** The timer callback runs when the clock reaches its due time. *)
Definition tick (now : Z) (st : state) : state * list relay_effect :=
  match clearTimer st with
  | Some due =>
      if due <=? now then
        match held st with
        | Some _ => ({| lastWsResponse := None; clearTimer := None |}, [LogCleanup])
        | None => ({| lastWsResponse := lastWsResponse st; clearTimer := None |}, [])
        end
      else (st, [])
  | None => (st, [])
  end.

Definition handle (now : Z) (e : relay_event) (st : state) : state * list relay_effect :=
  match e with
  | WsOpen => (st, [LogConnected])
  | WsError => (st, [LogWsError])
  | WsMessage data isBinary =>
      if isBinary then (st, [LogIgnoredBinary])
      else match data with
           | Some txt =>
               ({| lastWsResponse := Some txt; clearTimer := Some (now + 1000) |},
                [LogReceived txt])
           | None => (st, [LogParseFailed])
           end
  | WsClose code => (st, [LogClosed code; ReconnectIn 2000])
  | Reconnect => (st, [LogConnecting; Connect])
  | StreamEnd header query chunks ready sendThrows =>
      (st, onEnd false header query chunks ready sendThrows)
  | StreamError _ => (st, [LogRequestError; Reply RequestError])
  | Poll =>
      match held st with
      | Some txt =>
          ({| lastWsResponse := None; clearTimer := clearTimer st |}, [Reply (Polled [txt])])
      | None => (st, [Reply (Polled [])])
      end
  | Health ready => (st, [Reply (HealthBody (isOpen ready))])
  end.

Definition step (now : Z) (e : relay_event) (st : state) : state * list relay_effect :=
  let '(st1, fx1) := tick now st in
  let '(st2, fx2) := handle now e st1 in
  (st2, fx1 ++ fx2).

Fixpoint run (evs : list (Z * relay_event)) (st : state) : state * list relay_effect :=
  match evs with
  | [] => (st, [])
  | (now, e) :: rest =>
      let '(st1, fx1) := step now e st in
      let '(st2, fx2) := run rest st1 in
      (st2, fx1 ++ fx2)
  end.

End LatestRelay.

(** The texts the upstream sent, in order. *)
Definition textsOf (evs : list Relay.event) : list string :=
  omap (fun e => match e with
                 | Relay.Io (WsMessage (Some txt) false) => Some txt
                 | _ => None
                 end) evs.

(** The answers among some effects, in order. *)
Definition repliesOf (fx : list relay_effect) : list relay_response :=
  omap (fun e => match e with Reply r => Some r | _ => None end) fx.

(** The texts handed to pollers, in order. *)
Definition polledOf (fx : list relay_effect) : list string :=
  concat (omap (fun e => match e with Reply (Polled out) => Some out | _ => None end) fx).

Definition isInterval (e : Relay.event) : bool :=
  match e with
  | Relay.Interval => true
  | Relay.Io _ => false
  end.

(** Neither a text from the upstream nor a poll. *)
Definition quiet (e : relay_event) : bool :=
  match e with
  | WsMessage (Some _) false | Poll => false
  | _ => true
  end.

(** The latest text, received at [T], is held and its timer is live. *)
Definition holding (T : Z) (txt : string) (st : LatestRelay.state) : Prop :=
  st = {| LatestRelay.lastWsResponse := Some txt; LatestRelay.clearTimer := Some (T + 1000) |}.

(** Nothing is held and no timer is live. *)
Definition expired (st : LatestRelay.state) : Prop :=
  LatestRelay.held st = None /\ LatestRelay.clearTimer st = None.


(** * Properties *)

Ltac js_unfold :=
  unfold mbind, mret, js_bind, js_ret, getState, setSessions, setTranscripts,
    setTimers, setInflight, setFiles, emit, throw, attempt, detach in *.

(** An effect of another shape is not among some listed effects. *)
Ltac not_among :=
  rewrite ?elem_of_app, ?elem_of_cons, ?elem_of_nil; intuition discriminate.

(** ** Closed forms of [finalizeAndTranscribe] *)

Lemma finalize_absent now id st :
  sessions st !! id = None ->
  finalizeAndTranscribe now id st = (Ok tt, st, []).
Proof.
  intros H. unfold finalizeAndTranscribe. js_unfold. simpl. rewrite H. reflexivity.
Qed.

Lemma finalize_empty now id st s :
  sessions st !! id = Some s -> audio s = [] ->
  finalizeAndTranscribe now id st
  = (Ok tt, withSessions (delete id (sessions st)) st, [LogNoAudio id]).
Proof.
  intros H E. unfold finalizeAndTranscribe. js_unfold. simpl. rewrite H. simpl.
  rewrite E. reflexivity.
Qed.

Lemma finalize_started now id st s :
  sessions st !! id = Some s -> audio s <> [] -> writable st (id, now) = true ->
  finalizeAndTranscribe now id st
  = (Ok tt,
     withInflight (inflight st ++ [startedJob now id s])
       (withFiles (<[(id, now) := concat (audio s)]> (files st))
          (withSessions (delete id (sessions st)) st)),
     [WriteFile (id, now) (concat (audio s));
      Fetch (sampleRate s) (concat (audio s))]).
Proof.
  intros H E W. unfold finalizeAndTranscribe, writeFileSync, readFileSync, startedJob.
  js_unfold. simpl. rewrite H. simpl.
  destruct (audio s) as [|c cs] eqn:Ea; [congruence|].
  simpl. rewrite W. simpl. rewrite lookup_insert_eq. reflexivity.
Qed.

(** The write is outside the [try]: when it throws, the call ends there,
    with the session already removed. *)
Lemma finalize_refused now id st s :
  sessions st !! id = Some s -> audio s <> [] -> writable st (id, now) = false ->
  finalizeAndTranscribe now id st
  = (Throw, withSessions (delete id (sessions st)) st, []).
Proof.
  intros H E W. unfold finalizeAndTranscribe, writeFileSync.
  js_unfold. simpl. rewrite H. simpl.
  destruct (audio s) as [|c cs] eqn:Ea; [congruence|].
  simpl. rewrite W. reflexivity.
Qed.

(** The four ways a call can go. *)
Lemma finalize_cases now id st :
  (sessions st !! id = None /\ finalizeAndTranscribe now id st = (Ok tt, st, []))
  \/ (exists s, sessions st !! id = Some s /\ audio s = []
        /\ finalizeAndTranscribe now id st
           = (Ok tt, withSessions (delete id (sessions st)) st, [LogNoAudio id]))
  \/ (exists s, sessions st !! id = Some s /\ audio s <> []
        /\ writable st (id, now) = true
        /\ finalizeAndTranscribe now id st
           = (Ok tt,
              withInflight (inflight st ++ [startedJob now id s])
                (withFiles (<[(id, now) := concat (audio s)]> (files st))
                   (withSessions (delete id (sessions st)) st)),
              [WriteFile (id, now) (concat (audio s));
               Fetch (sampleRate s) (concat (audio s))]))
  \/ (exists s, sessions st !! id = Some s /\ audio s <> []
        /\ writable st (id, now) = false
        /\ finalizeAndTranscribe now id st
           = (Throw, withSessions (delete id (sessions st)) st, [])).
Proof.
  destruct (sessions st !! id) as [s|] eqn:E.
  - right. destruct (list_eq_nil_dec (audio s)) as [Ea|Ea].
    + left. exists s. split; [reflexivity|]. split; [exact Ea|].
      apply (finalize_empty _ _ _ _ E Ea).
    + right. destruct (writable st (id, now)) eqn:W.
      * left. exists s. split; [reflexivity|]. split; [exact Ea|]. split; [reflexivity|].
        apply (finalize_started _ _ _ _ E Ea W).
      * right. exists s. split; [reflexivity|]. split; [exact Ea|]. split; [reflexivity|].
        apply (finalize_refused _ _ _ _ E Ea W).
  - left. split; [reflexivity|]. apply finalize_absent, E.
Qed.

Lemma detach_closed (m : js unit) st :
  detach m st = (Ok tt, (m st).1.2, (m st).2 ++ rejected (m st).1.1).
Proof.
  unfold detach. js_unfold. destruct (m st) as [[[[]|] st'] fx]; reflexivity.
Qed.

Lemma finalizeFx_absent now id st :
  sessions st !! id = None -> finalizeFx now id st = [].
Proof. intros H. unfold finalizeFx. rewrite finalize_absent by exact H. reflexivity. Qed.

Lemma finalizeFx_empty now id st s :
  sessions st !! id = Some s -> audio s = [] -> finalizeFx now id st = [LogNoAudio id].
Proof.
  intros H E. unfold finalizeFx. rewrite (finalize_empty _ _ _ _ H E). reflexivity.
Qed.

Lemma finalizeFx_started now id st s :
  sessions st !! id = Some s -> audio s <> [] -> writable st (id, now) = true ->
  finalizeFx now id st
  = [WriteFile (id, now) (concat (audio s)); Fetch (sampleRate s) (concat (audio s))].
Proof.
  intros H E W. unfold finalizeFx. rewrite (finalize_started _ _ _ _ H E W). reflexivity.
Qed.

Lemma finalizeFx_refused now id st s :
  sessions st !! id = Some s -> audio s <> [] -> writable st (id, now) = false ->
  finalizeFx now id st = [UnhandledRejection].
Proof.
  intros H E W. unfold finalizeFx. rewrite (finalize_refused _ _ _ _ H E W). reflexivity.
Qed.

(** ** Closed forms of the continuation *)

Lemma withFiles_same st : withFiles (files st) st = st.
Proof. destruct st; reflexivity. Qed.

Lemma catchFinally_ok id p st :
  catchFinally id p (Ok tt) st
  = (Ok tt, withFiles (delete p (files st)) st, unlinkFx p st).
Proof.
  unfold catchFinally, unlinkSync, unlinkFx. js_unfold. simpl.
  destruct (files st !! p) eqn:E; simpl.
  - reflexivity.
  - rewrite delete_id by exact E. rewrite withFiles_same. reflexivity.
Qed.

Lemma catchFinally_throw id p st :
  catchFinally id p Throw st
  = (Ok tt, withFiles (delete p (files st)) st, LogError id :: unlinkFx p st).
Proof.
  unfold catchFinally, unlinkSync, unlinkFx. js_unfold. simpl.
  destruct (files st !! p) eqn:E; simpl.
  - reflexivity.
  - rewrite delete_id by exact E. rewrite withFiles_same. reflexivity.
Qed.

Lemma resume_failed now jb o st :
  failed o = true ->
  finalizeResume now jb o st
  = (Ok tt, withFiles (delete (job_file jb) (files st)) st,
     LogError (job_id jb) :: unlinkFx (job_file jb) st).
Proof.
  intros F. unfold finalizeResume. unfold mbind at 1, js_bind at 1.
  assert (E : attempt (storeTranscript now (job_id jb) o) st = (Ok Throw, st, [])).
  { unfold storeTranscript, awaitJson. destruct o; try discriminate; reflexivity. }
  rewrite E. rewrite catchFinally_throw. reflexivity.
Qed.

Lemma resume_parsed now jb json st :
  finalizeResume now jb (Parsed json) st
  = (Ok tt,
     withFiles (delete (job_file jb) (files st))
       (withTimers (timers st ++ [(now + TRANSCRIPT_TTL, job_id jb)])
          (withTranscripts (<[job_id jb := transcriptOf json]> (transcripts st)) st)),
     [LogTranscript (job_id jb) (transcriptOf json);
      SetTranscript (job_id jb) (transcriptOf json);
      SetTimeout (now + TRANSCRIPT_TTL) (job_id jb)] ++ unlinkFx (job_file jb) st).
Proof.
  unfold finalizeResume. unfold mbind at 1, js_bind at 1.
  match goal with |- context [attempt ?m st] =>
    assert (E : attempt m st = (Ok (Ok tt),
       (withTimers (timers st ++ [(now + TRANSCRIPT_TTL, job_id jb)])
          (withTranscripts (<[job_id jb := transcriptOf json]> (transcripts st)) st)),
       [LogTranscript (job_id jb) (transcriptOf json);
        SetTranscript (job_id jb) (transcriptOf json);
        SetTimeout (now + TRANSCRIPT_TTL) (job_id jb)])) by reflexivity end.
  rewrite E. rewrite catchFinally_ok. reflexivity.
Qed.

Lemma resume_total now jb o st : (finalizeResume now jb o st).1.1 = Ok tt.
Proof.
  destruct o; [rewrite resume_failed by reflexivity
              |rewrite resume_failed by reflexivity
              |rewrite resume_parsed]; reflexivity.
Qed.

(** ** Closed forms of the routes *)

Lemma checkSilence_closed SILENCE_MS now id s st :
  checkSilence SILENCE_MS now id s st
  = (Ok tt,
     (if silenceDetected SILENCE_MS now s
      then (finalizeAndTranscribe now id st).1.2 else st),
     (if silenceDetected SILENCE_MS now s
      then LogSilence id :: finalizeFx now id st else [])).
Proof.
  unfold checkSilence. destruct (silenceDetected SILENCE_MS now s); [|reflexivity].
  unfold mbind, js_bind, emit. rewrite detach_closed. reflexivity.
Qed.

Lemma streamHandler_parsed SILENCE_MS now qid qrate chunk st :
  let id := idOf qid in
  let s' := ingest now (rateOf qrate) chunk
              match sessions st !! id with
              | Some s => s
              | None => newSession now (rateOf qrate)
              end in
  let st1 := withSessions (<[id := s']> (sessions st)) st in
  streamHandler SILENCE_MS now qid qrate (Some chunk) st
  = (Ok tt,
     (if silenceDetected SILENCE_MS now s'
      then (finalizeAndTranscribe now id st1).1.2 else st1),
     (if silenceDetected SILENCE_MS now s'
      then LogSilence id :: finalizeFx now id st1 else [])
     ++ [Respond (StreamOk (calcRMS chunk))]).
Proof.
  intros id s' st1. subst s' st1. unfold streamHandler, bufferFrom. fold id.
  unfold mbind, js_bind, getState, mret, js_ret, setSessions, emit, throw.
  destruct (sessions st !! id) as [s|] eqn:E.
  - rewrite E. rewrite checkSilence_closed. simpl. reflexivity.
  - cbn [sessions withSessions]. rewrite lookup_insert_eq.
    rewrite checkSilence_closed. unfold withSessions.
    cbn [sessions transcripts timers inflight files writable].
    rewrite !insert_insert_eq. simpl. reflexivity.
Qed.

(** On an unparsed body the handler creates a missing session, and then
    [Buffer.from] throws. *)
Lemma streamHandler_unparsed SILENCE_MS now qid qrate st :
  streamHandler SILENCE_MS now qid qrate None st
  = (Throw,
     match sessions st !! idOf qid with
     | Some _ => st
     | None => withSessions (<[idOf qid := newSession now (rateOf qrate)]> (sessions st)) st
     end,
     []).
Proof.
  unfold streamHandler, bufferFrom.
  unfold mbind, js_bind, getState, mret, js_ret, setSessions, emit, throw.
  destruct (sessions st !! idOf qid) as [s|] eqn:E.
  - rewrite E. reflexivity.
  - cbn [sessions withSessions]. rewrite lookup_insert_eq. reflexivity.
Qed.

Lemma postStream_closed SILENCE_MS now q st :
  let id := idOf (q_id q) in
  let s' := streamSession now q st in
  let st1 := withSessions (<[id := s']> (sessions st)) st in
  postStream SILENCE_MS now q st
  = (Ok tt,
     (if silenceDetected SILENCE_MS now s'
      then (finalizeAndTranscribe now id st1).1.2 else st1),
     (if silenceDetected SILENCE_MS now s'
      then LogSilence id :: finalizeFx now id st1 else [])
     ++ [Respond (StreamOk (calcRMS (q_body q)))]).
Proof. apply streamHandler_parsed. Qed.

Lemma getFinalize_absent now q st :
  sessions st !! idOf q = None ->
  getFinalize now q st = (Ok tt, st, [Respond NoActiveSession]).
Proof.
  intros H. unfold getFinalize. js_unfold. simpl. rewrite H. reflexivity.
Qed.

Lemma getFinalize_present now q st s :
  sessions st !! idOf q = Some s ->
  getFinalize now q st
  = (Ok tt, (finalizeAndTranscribe now (idOf q) st).1.2,
     finalizeFx now (idOf q) st ++ [Respond Finalizing]).
Proof.
  intros H. unfold getFinalize.
  unfold mbind at 1, js_bind at 1. unfold getState at 1. rewrite H.
  unfold mbind, js_bind, emit. rewrite detach_closed. reflexivity.
Qed.

Lemma getTranscript_closed q st :
  getTranscript q st
  = (Ok tt, st,
     [Respond (match transcripts st !! idOf q with
               | Some t => if truthy t then TranscriptBody t true
                           else TranscriptBody (JStr "") false
               | None => TranscriptBody (JStr "") false
               end)]).
Proof.
  unfold getTranscript. js_unfold. simpl.
  destruct (transcripts st !! idOf q) as [t|]; [destruct (truthy t)|]; reflexivity.
Qed.

Lemma postStream_total SILENCE_MS now q st : (postStream SILENCE_MS now q st).1.1 = Ok tt.
Proof. rewrite postStream_closed. reflexivity. Qed.

Lemma postStream_responds SILENCE_MS now q st :
  last (postStream SILENCE_MS now q st).2
  = Some (Respond (StreamOk (calcRMS (q_body q)))).
Proof. rewrite postStream_closed. cbn [snd]. apply last_snoc. Qed.

(** ** What [finalizeAndTranscribe] leaves alone *)

Lemma finalize_sessions now id st :
  sessions (finalizeAndTranscribe now id st).1.2 = delete id (sessions st).
Proof.
  destruct (finalize_cases now id st)
    as [[E ->]|[(s & _ & _ & ->)|[(s & _ & _ & _ & ->)|(s & _ & _ & _ & ->)]]];
    try reflexivity.
  simpl. symmetry. apply delete_id, E.
Qed.

Lemma finalize_transcripts now id st :
  transcripts (finalizeAndTranscribe now id st).1.2 = transcripts st.
Proof.
  destruct (finalize_cases now id st)
    as [[E ->]|[(s & _ & _ & ->)|[(s & _ & _ & _ & ->)|(s & _ & _ & _ & ->)]]];
    reflexivity.
Qed.

Lemma finalize_timers now id st :
  timers (finalizeAndTranscribe now id st).1.2 = timers st.
Proof.
  destruct (finalize_cases now id st)
    as [[E ->]|[(s & _ & _ & ->)|[(s & _ & _ & _ & ->)|(s & _ & _ & _ & ->)]]];
    reflexivity.
Qed.

(** ** The Int16Array view and the activity detector *)

Lemma samples_odd n : forall chunk : Buffer,
  length chunk = S (2 * n) -> samples chunk = samples (removelast chunk).
Proof.
  induction n as [|n IH]; intros chunk L.
  - destruct chunk as [|a [|b rest]]; simpl in L; try discriminate. reflexivity.
  - destruct chunk as [|a [|b rest]]; simpl in L; try discriminate.
    assert (Lr : length rest = S (2 * n)) by lia.
    destruct rest as [|c rest']; [discriminate|].
    change (samples (a :: b :: c :: rest')) with (int16 a b :: samples (c :: rest')).
    change (removelast (a :: b :: c :: rest')) with (a :: b :: removelast (c :: rest')).
    change (samples (a :: b :: removelast (c :: rest')))
      with (int16 a b :: samples (removelast (c :: rest'))).
    f_equal. apply IH. exact Lr.
Qed.

Lemma byte_val_range b : 0 <= byte_val b < 256.
Proof. destruct b; vm_compute; split; congruence. Qed.

Lemma int16_range lo hi : -32768 <= int16 lo hi <= 32767.
Proof.
  unfold int16. pose proof (byte_val_range lo). pose proof (byte_val_range hi).
  destruct (Z.ltb_spec (byte_val lo + 256 * byte_val hi) 32768); lia.
Qed.

Lemma samples_range (buffer : Buffer) :
  Forall (fun x => -32768 <= x <= 32767) (samples buffer).
Proof.
  remember (length buffer) as n eqn:Hn. revert buffer Hn.
  induction n as [n IH] using lt_wf_ind. intros buffer Hn.
  destruct buffer as [|lo [|hi rest]]; cbn [samples]; [constructor|constructor|].
  constructor; [apply int16_range|].
  apply (IH (length rest)); [subst n; cbn; lia | reflexivity].
Qed.

(** In exact arithmetic, the squares of the samples of a view sum to at
    most [32768^2] per sample: the mean square of the normalised samples
    of a non-empty view lies in [0, 1]. *)
Lemma samples_mean_square (buffer : Buffer) :
  0 <= fold_right (fun x acc => x * x + acc) 0 (samples buffer)
    <= Z.of_nat (length (samples buffer)) * (32768 * 32768).
Proof.
  induction (samples_range buffer) as [|x xs Hx _ IH]; cbn [fold_right length].
  - lia.
  - nia.
Qed.

Lemma samples_length (buffer : Buffer) :
  length (samples buffer) = Nat.div2 (length buffer).
Proof.
  remember (length buffer) as n eqn:Hn. revert buffer Hn.
  induction n as [n IH] using lt_wf_ind. intros buffer Hn.
  destruct buffer as [|lo [|hi rest]]; subst n; cbn [samples length Nat.div2]; try reflexivity.
  f_equal. apply (IH (length rest)); [cbn; lia | reflexivity].
Qed.

Lemma calcRMS_samples (b1 b2 : Buffer) :
  samples b1 = samples b2 -> calcRMS b1 = calcRMS b2.
Proof. intros E. unfold calcRMS. rewrite E. reflexivity. Qed.

Lemma step_postStream SILENCE_MS now q st :
  step SILENCE_MS now (PostStream q) st
  = ((postStream SILENCE_MS now q (tick now st)).1.2,
     (postStream SILENCE_MS now q (tick now st)).2).
Proof.
  unfold step, handle. rewrite detach_closed, postStream_total.
  cbn [rejected fst snd]. rewrite app_nil_r. reflexivity.
Qed.

Lemma step_postUnparsed SILENCE_MS now qid qrate st :
  step SILENCE_MS now (PostStreamUnparsed qid qrate) st
  = (match sessions st !! idOf qid with
     | Some _ => tick now st
     | None => withSessions (<[idOf qid := newSession now (rateOf qrate)]> (sessions st))
                 (tick now st)
     end,
     [UnhandledRejection]).
Proof.
  unfold step, handle. rewrite detach_closed, streamHandler_unparsed.
  cbn [rejected fst snd app sessions tick withTimers withTranscripts]. reflexivity.
Qed.

(** ** Rounding: the loudness lies in the unit interval *)

(** *** Digits and shifts *)
Lemma digits2_size p : digits2_pos p = Pos.size p.
Proof. induction p; cbn; congruence. Qed.

Lemma digits2_bounds p :
  2 ^ (Zpos (digits2_pos p) - 1) <= Zpos p < 2 ^ Zpos (digits2_pos p).
Proof.
  induction p as [p IH|p IH|]; cbn [digits2_pos].
  - rewrite Pos2Z.inj_succ.
    replace (Z.succ (Zpos (digits2_pos p)) - 1) with (Zpos (digits2_pos p) - 1 + 1) by lia.
    rewrite Z.pow_succ_r by lia.
    destruct (Z.eq_dec (Zpos (digits2_pos p)) 1) as [E|E].
    + rewrite E in *. cbn in IH |- *. lia.
    + rewrite Z.pow_add_r by lia. change (2 ^ 1) with 2. lia.
  - rewrite Pos2Z.inj_succ.
    replace (Z.succ (Zpos (digits2_pos p)) - 1) with (Zpos (digits2_pos p) - 1 + 1) by lia.
    rewrite Z.pow_succ_r by lia.
    destruct (Z.eq_dec (Zpos (digits2_pos p)) 1) as [E|E].
    + rewrite E in *. cbn in IH |- *. lia.
    + rewrite Z.pow_add_r by lia. change (2 ^ 1) with 2. lia.
  - cbn. lia.
Qed.

Lemma Zdigits2_nonneg m : 0 <= m -> 0 <= Zdigits2 m.
Proof. destruct m; cbn; lia. Qed.

Lemma Zdigits2_le m j : 0 <= j -> 0 <= m < 2 ^ j -> Zdigits2 m <= j.
Proof.
  intros Hj [H0 Hm]. destruct m as [|p|p]; cbn; try lia.
  pose proof (digits2_bounds p) as [Hl _].
  destruct (Z_le_gt_dec (Zpos (digits2_pos p)) j) as [|G]; [assumption|exfalso].
  assert (2 ^ j <= 2 ^ (Zpos (digits2_pos p) - 1)) by (apply Z.pow_le_mono_r; lia).
  lia.
Qed.

Lemma pow2_xO p : 2 ^ Zpos p~0 = 2 ^ Zpos p * 2 ^ Zpos p.
Proof.
  change (Zpos p~0) with (2 * Zpos p).
  replace (2 * Zpos p) with (Zpos p + Zpos p) by lia.
  apply Z.pow_add_r; lia.
Qed.

Lemma pow2_xI p : 2 ^ Zpos p~1 = 2 * (2 ^ Zpos p * 2 ^ Zpos p).
Proof.
  change (Zpos p~1) with (2 * Zpos p + 1).
  replace (2 * Zpos p + 1) with (Z.succ (Zpos p + Zpos p)) by lia.
  rewrite Z.pow_succ_r by lia. rewrite Z.pow_add_r by lia. reflexivity.
Qed.

Lemma shr_1_m mrs : 0 <= shr_m mrs -> shr_m (shr_1 mrs) = shr_m mrs / 2.
Proof.
  destruct mrs as [m r s]. cbn [shr_m]. intros H.
  destruct m as [|[p|p|]|p]; cbn [shr_1 shr_m]; try lia.
  - reflexivity.
  - apply Z.div_unique with 1; lia.
  - apply Z.div_unique with 0; lia.
  - reflexivity.
Qed.

Lemma iter_shr_m p : forall mrs,
  0 <= shr_m mrs -> shr_m (SpecFloat.iter_pos shr_1 p mrs) = shr_m mrs / 2 ^ Zpos p.
Proof.
  induction p as [p IH|p IH|]; intros mrs H; cbn [SpecFloat.iter_pos].
  - assert (P : 0 < 2 ^ Zpos p) by (apply Z.pow_pos_nonneg; lia).
    assert (H1 : 0 <= shr_m (shr_1 mrs)).
    { rewrite shr_1_m by exact H. apply Z.div_pos; lia. }
    assert (H2 : 0 <= shr_m (SpecFloat.iter_pos shr_1 p (shr_1 mrs))).
    { rewrite IH by exact H1. apply Z.div_pos; lia. }
    rewrite IH by exact H2. rewrite IH by exact H1. rewrite shr_1_m by exact H.
    rewrite !Z.div_div by lia. rewrite pow2_xI. reflexivity.
  - assert (P : 0 < 2 ^ Zpos p) by (apply Z.pow_pos_nonneg; lia).
    assert (H2 : 0 <= shr_m (SpecFloat.iter_pos shr_1 p mrs)).
    { rewrite IH by exact H. apply Z.div_pos; lia. }
    rewrite IH by exact H2. rewrite IH by exact H.
    rewrite !Z.div_div by lia. rewrite pow2_xO. reflexivity.
  - rewrite shr_1_m by exact H. reflexivity.
Qed.

Lemma shr_1_exact mrs :
  0 <= shr_m mrs -> exact_rec mrs -> (2 | shr_m mrs) -> exact_rec (shr_1 mrs).
Proof.
  destruct mrs as [m r s]. unfold exact_rec. cbn [shr_m shr_r shr_s].
  intros H [-> ->] [c Hc].
  destruct m as [|[p|p|]|p]; cbn; try lia; auto.
Qed.

Lemma iter_shr_exact p : forall mrs,
  0 <= shr_m mrs -> exact_rec mrs -> (2 ^ Zpos p | shr_m mrs) ->
  exact_rec (SpecFloat.iter_pos shr_1 p mrs).
Proof.
  induction p as [p IH|p IH|]; intros mrs H E D; cbn [SpecFloat.iter_pos].
  - rewrite pow2_xI in D. destruct D as [c Hc].
    assert (P : 0 < 2 ^ Zpos p) by (apply Z.pow_pos_nonneg; lia).
    assert (H1 : 0 <= shr_m (shr_1 mrs)).
    { rewrite shr_1_m by exact H. apply Z.div_pos; lia. }
    assert (E1 : exact_rec (shr_1 mrs)).
    { apply shr_1_exact; auto. exists (c * (2 ^ Zpos p * 2 ^ Zpos p)). lia. }
    assert (M1 : shr_m (shr_1 mrs) = c * 2 ^ Zpos p * 2 ^ Zpos p).
    { rewrite shr_1_m by exact H. rewrite Hc.
      replace (c * (2 * (2 ^ Zpos p * 2 ^ Zpos p)))
        with (c * 2 ^ Zpos p * 2 ^ Zpos p * 2) by lia.
      apply Z.div_mul. lia. }
    assert (H2 : 0 <= shr_m (SpecFloat.iter_pos shr_1 p (shr_1 mrs))).
    { rewrite iter_shr_m by exact H1. apply Z.div_pos; lia. }
    apply IH; [exact H2| |].
    + apply IH; [exact H1|exact E1|]. rewrite M1. exists (c * 2 ^ Zpos p). lia.
    + rewrite iter_shr_m by exact H1. rewrite M1, Z.div_mul by lia. exists c. lia.
  - rewrite pow2_xO in D. destruct D as [c Hc].
    assert (P : 0 < 2 ^ Zpos p) by (apply Z.pow_pos_nonneg; lia).
    assert (H2 : 0 <= shr_m (SpecFloat.iter_pos shr_1 p mrs)).
    { rewrite iter_shr_m by exact H. apply Z.div_pos; lia. }
    apply IH; [exact H2| |].
    + apply IH; [exact H|exact E|]. rewrite Hc. exists (c * 2 ^ Zpos p). lia.
    + rewrite iter_shr_m by exact H. rewrite Hc.
      replace (c * (2 ^ Zpos p * 2 ^ Zpos p)) with (c * 2 ^ Zpos p * 2 ^ Zpos p) by lia.
      rewrite Z.div_mul by lia. exists c. lia.
  - apply shr_1_exact; auto.
Qed.

Lemma loc_of_exact mrs : exact_rec mrs -> loc_of_shr_record mrs = loc_Exact.
Proof. destruct mrs as [m r s]. intros [E1 E2]. cbn in *. subst. reflexivity. Qed.

Lemma loc_of_record_of m l : loc_of_shr_record (shr_record_of_loc m l) = l.
Proof. destruct l as [|[]]; reflexivity. Qed.

Lemma shr_m_record_of m l : shr_m (shr_record_of_loc m l) = m.
Proof. destruct l as [|[]]; reflexivity. Qed.

Lemma round_ne_bounds m l :
  m <= round_nearest_even m l <= m + 1.
Proof.
  destruct l as [|[]]; cbn; try lia. destruct (Z.even m); lia.
Qed.

Lemma round_ne_exact m : round_nearest_even m loc_Exact = m.
Proof. reflexivity. Qed.

(** *** One normalising shift, and rounding *)

(** One normalising shift. *)
Lemma shr_fexp_spec m e l :
  0 <= m ->
  exists k,
    0 <= k
    /\ snd (shr_fexp prec emax m e l) = e + k
    /\ e + k = Z.max e (fexp prec emax (Zdigits2 m + e))
    /\ shr_m (fst (shr_fexp prec emax m e l)) = m / 2 ^ k
    /\ (k = 0 -> loc_of_shr_record (fst (shr_fexp prec emax m e l)) = l)
    /\ (l = loc_Exact -> (2 ^ k | m) ->
        loc_of_shr_record (fst (shr_fexp prec emax m e l)) = loc_Exact).
Proof.
  intros Hm. unfold shr_fexp, shr.
  destruct (fexp prec emax (Zdigits2 m + e) - e) as [|p|p] eqn:En.
  - exists 0. cbn [fst snd]. rewrite shr_m_record_of, loc_of_record_of, Z.div_1_r.
    repeat split; try lia. intros ->. reflexivity.
  - exists (Zpos p). cbn [fst snd].
    assert (H0 : 0 <= shr_m (shr_record_of_loc m l)) by (rewrite shr_m_record_of; exact Hm).
    rewrite iter_shr_m by exact H0. rewrite shr_m_record_of.
    repeat split; try lia.
    intros -> D. apply loc_of_exact, iter_shr_exact; [exact H0| split; reflexivity |].
    exact D.
  - exists 0. cbn [fst snd]. rewrite shr_m_record_of, loc_of_record_of, Z.div_1_r.
    repeat split; try lia. intros ->. reflexivity.
Qed.

Lemma fexp_small m e B :
  0 <= m -> e <= 0 -> B < 2 ^ 53 -> m <= B * 2 ^ (- e) ->
  fexp prec emax (Zdigits2 m + e) <= 0.
Proof.
  intros Hm He HB Hle. unfold fexp, SpecFloat.emin, prec, emax.
  assert (P : 0 < 2 ^ (- e)) by (apply Z.pow_pos_nonneg; lia).
  assert (Hd : Zdigits2 m <= 53 - e).
  { apply Zdigits2_le; [lia|]. split; [exact Hm|].
    replace (53 - e) with (53 + - e) by lia. rewrite Z.pow_add_r by lia. nia. }
  lia.
Qed.

Lemma div_pow_le m N k :
  0 <= k -> 0 <= m -> m < N * 2 ^ k -> m / 2 ^ k + 1 <= N.
Proof.
  intros Hk Hm H. assert (P : 0 < 2 ^ k) by (apply Z.pow_pos_nonneg; lia).
  assert (m / 2 ^ k < N); [|lia].
  apply Z.div_lt_upper_bound; lia.
Qed.

Lemma round_aux_atMost mx ex lx B :
  0 <= mx -> ex <= 0 -> 0 < B < 2 ^ 53 ->
  mx + inexact lx <= B * 2 ^ (- ex) ->
  atMost (binary_round_aux prec emax false mx ex lx) B.
Proof.
  intros Hm He HB Hle. unfold binary_round_aux.
  destruct (shr_fexp_spec mx ex lx Hm) as (k & Hk & E1 & E1' & M1 & L1 & X1).
  destruct (shr_fexp prec emax mx ex lx) as [mrs' e'] eqn:S1. cbn [fst snd] in *.
  subst e'.
  assert (Il : 0 <= inexact lx) by (destruct lx; cbn; lia).
  assert (P0 : 0 < 2 ^ (- ex)) by (apply Z.pow_pos_nonneg; lia).
  assert (F1 : fexp prec emax (Zdigits2 mx + ex) <= 0).
  { apply (fexp_small mx ex B); try lia. }
  assert (He1 : ex + k <= 0) by lia.
  set (e1 := ex + k) in *.
  set (N := B * 2 ^ (- e1)).
  assert (Pk : 0 < 2 ^ k) by (apply Z.pow_pos_nonneg; lia).
  assert (P1 : 0 < 2 ^ (- e1)) by (apply Z.pow_pos_nonneg; lia).
  assert (EN : B * 2 ^ (- ex) = N * 2 ^ k).
  { unfold N. replace (- ex) with (- e1 + k) by (unfold e1; lia).
    rewrite Z.pow_add_r by lia. lia. }
  set (m2 := round_nearest_even (shr_m mrs') (loc_of_shr_record mrs')).
  assert (Hm1 : 0 <= shr_m mrs') by (rewrite M1; apply Z.div_pos; lia).
  assert (Hm2 : 0 <= m2 <= N).
  { pose proof (round_ne_bounds (shr_m mrs') (loc_of_shr_record mrs')) as R. fold m2 in R.
    split; [lia|].
    destruct (Z_lt_le_dec mx (N * 2 ^ k)) as [Hlt|Hge].
    - pose proof (div_pow_le mx N k Hk Hm Hlt). lia.
    - assert (Emx : mx = N * 2 ^ k) by lia.
      assert (Elx : lx = loc_Exact).
      { destruct lx; [reflexivity|]. cbn in Hle. lia. }
      assert (EL : loc_of_shr_record mrs' = loc_Exact).
      { apply X1; [exact Elx|]. exists N. exact Emx. }
      unfold m2. rewrite EL, round_ne_exact, M1, Emx, Z.div_mul by lia. lia. }
  destruct Hm2 as [Hm2 Hm2'].
  destruct (shr_fexp_spec m2 e1 loc_Exact Hm2) as (k' & Hk' & E2 & E2' & M2 & _ & _).
  destruct (shr_fexp prec emax m2 e1 loc_Exact) as [mrs'' e''] eqn:S2.
  cbn [fst snd] in *. subst e''.
  assert (F2 : fexp prec emax (Zdigits2 m2 + e1) <= 0).
  { apply (fexp_small m2 e1 B); try lia. }
  assert (He2 : e1 + k' <= 0) by lia.
  assert (Pk' : 0 < 2 ^ k') by (apply Z.pow_pos_nonneg; lia).
  assert (P2 : 0 < 2 ^ (- (e1 + k'))) by (apply Z.pow_pos_nonneg; lia).
  assert (EN' : N = B * 2 ^ (- (e1 + k')) * 2 ^ k').
  { unfold N. replace (- e1) with (- (e1 + k') + k') by lia.
    rewrite Z.pow_add_r by lia. lia. }
  assert (Hm3 : 0 <= shr_m mrs'' <= B * 2 ^ (- (e1 + k'))).
  { rewrite M2. split; [apply Z.div_pos; lia|].
    apply Z.div_le_upper_bound; lia. }
  destruct (shr_m mrs'') as [|m3|m3] eqn:E3; cbn [atMost]; [exact I| |lia].
  replace (e1 + k' <=? emax - prec) with true
    by (symmetry; apply Z.leb_le; unfold emax, prec; lia).
  cbn [atMost]. split; [exact He2|lia].
Qed.

Lemma atMost_mono f B B' : B <= B' -> atMost f B -> atMost f B'.
Proof.
  intros H. destruct f as [s|[]| |[] m e]; cbn; auto.
  intros [He Hm]. split; [exact He|].
  assert (0 < 2 ^ (- e)) by (apply Z.pow_pos_nonneg; lia). nia.
Qed.

Lemma iter_xO m d : Zpos (Pos.iter xO m d) = Zpos m * 2 ^ Zpos d.
Proof.
  induction d as [|d IH] using Pos.peano_ind.
  - cbn. lia.
  - rewrite Pos.iter_succ, Pos2Z.inj_succ, Z.pow_succ_r by lia.
    rewrite Pos2Z.inj_xO, IH. lia.
Qed.

Lemma shl_align_spec m e e2 :
  snd (shl_align m e e2) = Z.min e e2
  /\ Zpos (fst (shl_align m e e2)) = Zpos m * 2 ^ (e - Z.min e e2).
Proof.
  unfold shl_align. destruct (e2 - e) as [|d|d] eqn:E; cbn [fst snd].
  - replace (Z.min e e2) with e by lia. rewrite Z.sub_diag. cbn. lia.
  - replace (Z.min e e2) with e by lia. rewrite Z.sub_diag. cbn. lia.
  - replace (Z.min e e2) with e2 by lia. split; [reflexivity|].
    rewrite iter_xO. f_equal. f_equal. lia.
Qed.

Lemma round_atMost B (M : positive) ez :
  ez <= 0 -> 0 < B < 2 ^ 53 -> Zpos M <= B * 2 ^ (- ez) ->
  atMost (binary_round prec emax false M ez) B.
Proof.
  intros He HB HM. unfold binary_round.
  destruct (shl_align_spec M ez (fexp prec emax (Zpos (digits2_pos M) + ez))) as [E1 E2].
  destruct (shl_align M ez _) as [mz ez'] eqn:S. cbn [fst snd] in *.
  apply round_aux_atMost; try lia. cbn [inexact].
  rewrite Z.add_0_r, E2, E1.
  set (e' := Z.min ez _).
  assert (e' <= ez) by (unfold e'; lia).
  assert (0 < 2 ^ (ez - e')) by (apply Z.pow_pos_nonneg; lia).
  replace (- e') with (- ez + (ez - e')) by lia.
  rewrite Z.pow_add_r by lia. nia.
Qed.

Lemma add_atMost x y Bx By :
  0 <= Bx -> 0 <= By -> 0 < Bx + By < 2 ^ 53 ->
  atMost x Bx -> atMost y By -> atMost (SF64add x y) (Bx + By).
Proof.
  intros HBx HBy HB Hx Hy.
  destruct x as [sx|[]| |[] mx ex]; cbn in Hx; try contradiction;
  destruct y as [sy|[]| |[] my ey]; cbn in Hy; try contradiction.
  - destruct sx, sy; exact I.
  - cbn. destruct Hy as [He Hm]. split; [exact He|].
    assert (0 < 2 ^ (- ey)) by (apply Z.pow_pos_nonneg; lia). nia.
  - cbn. destruct Hx as [He Hm]. split; [exact He|].
    assert (0 < 2 ^ (- ex)) by (apply Z.pow_pos_nonneg; lia). nia.
  - destruct Hx as [Hex Hmx]. destruct Hy as [Hey Hmy].
    unfold SF64add, SFadd. cbn [cond_Zopp].
    set (ez := Z.min ex ey).
    destruct (shl_align_spec mx ex ez) as [_ X]. destruct (shl_align_spec my ey ez) as [_ Y].
    replace (Z.min ex ez) with ez in X by (unfold ez; lia).
    replace (Z.min ey ez) with ez in Y by (unfold ez; lia).
    set (a := fst (shl_align mx ex ez)) in *. set (b := fst (shl_align my ey ez)) in *.
    change (Zpos a + Zpos b) with (Zpos (a + b)). cbn [binary_normalize].
    apply round_atMost; [unfold ez; lia | exact HB |].
    rewrite Pos2Z.inj_add, X, Y.
    assert (0 < 2 ^ (ex - ez)) by (apply Z.pow_pos_nonneg; unfold ez; lia).
    assert (0 < 2 ^ (ey - ez)) by (apply Z.pow_pos_nonneg; unfold ez; lia).
    assert (E1 : 2 ^ (- ez) = 2 ^ (- ex) * 2 ^ (ex - ez)).
    { rewrite <- Z.pow_add_r by (unfold ez; lia). f_equal. lia. }
    assert (E2 : 2 ^ (- ez) = 2 ^ (- ey) * 2 ^ (ey - ez)).
    { rewrite <- Z.pow_add_r by (unfold ez; lia). f_equal. lia. }
    assert (Zpos mx * 2 ^ (ex - ez) <= Bx * 2 ^ (- ez)) by (rewrite E1; nia).
    assert (Zpos my * 2 ^ (ey - ez) <= By * 2 ^ (- ez)) by (rewrite E2; nia).
    lia.
Qed.

Lemma Zdigits2_eq m j : 0 < j -> 2 ^ (j - 1) <= m < 2 ^ j -> Zdigits2 m = j.
Proof.
  intros Hj [Hl Hu].
  assert (0 < 2 ^ (j - 1)) by (apply Z.pow_pos_nonneg; lia).
  destruct m as [|p|p]; try lia. cbn [Zdigits2].
  pose proof (digits2_bounds p) as [Dl Du].
  destruct (Z.lt_trichotomy (Zpos (digits2_pos p)) j) as [L|[E|G]]; [exfalso| exact E |exfalso].
  - assert (2 ^ Zpos (digits2_pos p) <= 2 ^ (j - 1)) by (apply Z.pow_le_mono_r; lia). lia.
  - assert (2 ^ j <= 2 ^ (Zpos (digits2_pos p) - 1)) by (apply Z.pow_le_mono_r; lia). lia.
Qed.

Lemma round_aux_canonical (m : positive) e :
  fexp prec emax (Zdigits2 (Zpos m) + e) = e -> e <= emax - prec ->
  binary_round_aux prec emax false (Zpos m) e loc_Exact = S754_finite false m e.
Proof.
  intros C Hb. unfold binary_round_aux, shr_fexp. rewrite C, Z.sub_diag.
  cbn [shr shr_record_of_loc shr_m loc_of_shr_record round_nearest_even].
  rewrite C, Z.sub_diag. cbn [shr shr_record_of_loc shr_m].
  apply Z.leb_le in Hb. rewrite Hb. reflexivity.
Qed.

Lemma normalize_exactly (p : positive) :
  Zpos p < 2 ^ 53 ->
  exactly (binary_normalize prec emax (Zpos p) 0 false) (Zpos p).
Proof.
  intros Hp. cbn [binary_normalize]. unfold binary_round.
  pose proof (digits2_bounds p) as [Dl Du].
  set (d := Zpos (digits2_pos p)) in *.
  assert (Hd : 1 <= d <= 53).
  { split; [unfold d; lia|].
    destruct (Z_le_gt_dec d 53) as [|G]; [assumption|exfalso].
    assert (2 ^ 53 <= 2 ^ (d - 1)) by (apply Z.pow_le_mono_r; lia). lia. }
  assert (F : fexp prec emax (d + 0) = d - 53).
  { unfold fexp, SpecFloat.emin, prec, emax. lia. }
  destruct (shl_align_spec p 0 (fexp prec emax (d + 0))) as [E1 E2].
  destruct (shl_align p 0 _) as [mz ez] eqn:S. cbn [fst snd] in *.
  rewrite F in E1, E2. replace (Z.min 0 (d - 53)) with (d - 53) in * by lia.
  subst ez.
  assert (Pd : 0 < 2 ^ (53 - d)) by (apply Z.pow_pos_nonneg; lia).
  replace (0 - (d - 53)) with (53 - d) in E2 by lia.
  assert (Dz : Zdigits2 (Zpos mz) = 53).
  { apply Zdigits2_eq; [lia|]. rewrite E2. split.
    - replace (53 - 1) with (d - 1 + (53 - d)) by lia. rewrite Z.pow_add_r by lia. nia.
    - replace 53 with (d + (53 - d)) at 2 by lia. rewrite Z.pow_add_r by lia. nia. }
  rewrite round_aux_canonical.
  - cbn [exactly]. split; [lia|]. rewrite E2. f_equal. f_equal. lia.
  - rewrite Dz. unfold fexp, SpecFloat.emin, prec, emax. lia.
  - unfold emax, prec. lia.
Qed.

Lemma new_location_zero nb : new_location nb 0 = loc_Exact.
Proof.
  unfold new_location, new_location_even, new_location_odd.
  destruct (Z.even nb); reflexivity.
Qed.

Lemma div_atMost x y Bx n :
  0 <= Bx <= n -> atMost x Bx -> exactly y n -> atMost (SF64div x y) 1.
Proof.
  intros HB Hx Hy.
  destruct y as [| | |[] my ey]; cbn in Hy; try contradiction.
  destruct Hy as [Hey Hmy].
  destruct x as [sx|[]| |[] mx ex]; cbn in Hx; try contradiction; [exact I|].
  destruct Hx as [Hex Hmx].
  unfold SF64div, SFdiv, SFdiv_core_binary. cbn [xorb].
  pose proof (digits2_bounds mx) as [D1l D1u].
  pose proof (digits2_bounds my) as [D2l D2u].
  cbn [Zdigits2].
  set (d1 := Zpos (digits2_pos mx)) in *. set (d2 := Zpos (digits2_pos my)) in *.
  assert (Hd1 : 1 <= d1) by (unfold d1; lia).
  assert (Hd2 : 1 <= d2) by (unfold d2; lia).
  assert (Pex : 0 < 2 ^ (- ex)) by (apply Z.pow_pos_nonneg; lia).
  assert (Pey : 0 < 2 ^ (- ey)) by (apply Z.pow_pos_nonneg; lia).
  assert (Hn : 1 <= n) by nia.
  (* the dividend is not above the divisor: the digit counts say so *)
  assert (Hdig : d1 + ex - (d2 + ey) <= 0).
  { destruct (Z_le_gt_dec (d1 + ex - (d2 + ey)) 0) as [|G]; [assumption|exfalso].
    assert (X : Zpos mx * 2 ^ (- ey) <= Zpos my * 2 ^ (- ex)) by (rewrite Hmy; nia).
    assert (Y : 2 ^ (d1 - 1) * 2 ^ (- ey) <= Zpos mx * 2 ^ (- ey)) by nia.
    assert (Z0 : Zpos my * 2 ^ (- ex) < 2 ^ d2 * 2 ^ (- ex)) by nia.
    rewrite <- !Z.pow_add_r in * by lia.
    assert (2 ^ (d2 + - ex) <= 2 ^ (d1 - 1 + - ey)) by (apply Z.pow_le_mono_r; lia).
    lia. }
  set (e' := Z.min (fexp prec emax (d1 + ex - (d2 + ey))) (ex - ey)).
  assert (He' : e' <= -53).
  { unfold e', fexp, SpecFloat.emin, prec, emax. lia. }
  assert (He'' : e' <= ex - ey) by (unfold e'; lia).
  set (s := ex - ey - e').
  assert (Hs : 0 <= s) by (unfold s; lia).
  set (m' := match s with Zpos _ => Z.shiftl (Zpos mx) s | Z0 => Zpos mx | Zneg _ => 0 end).
  assert (Em' : m' = Zpos mx * 2 ^ s).
  { unfold m'. destruct s as [|p|p] eqn:Es; [cbn; lia| |lia].
    apply Z.shiftl_mul_pow2. lia. }
  assert (Ps : 0 < 2 ^ s) by (apply Z.pow_pos_nonneg; lia).
  assert (Pe' : 0 < 2 ^ (- e')) by (apply Z.pow_pos_nonneg; lia).
  assert (Hm' : m' <= Zpos my * 2 ^ (- e')).
  { rewrite Em', Hmy.
    assert (E : 2 ^ (- ex) * 2 ^ s = 2 ^ (- ey) * 2 ^ (- e')).
    { rewrite <- !Z.pow_add_r by lia. f_equal. unfold s. lia. }
    nia. }
  pose proof (Z_div_mod m' (Zpos my) ltac:(lia)) as DM.
  destruct (Z.div_eucl m' (Zpos my)) as [q r]. destruct DM as [DM1 DM2].
  assert (Hq : 0 <= q) by nia.
  apply round_aux_atMost; [exact Hq| lia | lia |].
  rewrite Z.mul_1_l.
  destruct (Z.eq_dec r 0) as [->|Hr].
  - rewrite new_location_zero. cbn [inexact]. nia.
  - assert (inexact (new_location (Zpos my) r) <= 1)
      by (destruct (new_location _ _); cbn; lia).
    assert (q < 2 ^ (- e')) by nia. lia.
Qed.

Lemma sqrt_atMost x : atMost x 1 -> atMost (SF64sqrt x) 1.
Proof.
  intros Hx.
  destruct x as [sx|[]| |[] mx ex]; cbn in Hx; try contradiction; [exact I|].
  destruct Hx as [Hex Hmx]. rewrite Z.mul_1_l in Hmx.
  unfold SF64sqrt, SFsqrt, SFsqrt_core_binary. cbn [Zdigits2].
  set (d := Zpos (digits2_pos mx)).
  set (e' := Z.min (fexp prec emax (Z.div2 (d + ex + 1))) (Z.div2 ex)).
  assert (Hdiv : 2 * Z.div2 ex <= ex).
  { rewrite Z.div2_div. pose proof (Z.mul_div_le ex 2 ltac:(lia)). lia. }
  assert (He' : e' <= 0).
  { unfold e'. assert (Z.div2 ex <= 0); [|lia]. rewrite Z.div2_div.
    apply Z.div_le_upper_bound; lia. }
  assert (He2 : 2 * e' <= ex) by (unfold e'; lia).
  set (s := ex - 2 * e').
  assert (Hs : 0 <= s) by (unfold s; lia).
  set (m' := match s with Zpos _ => Z.shiftl (Zpos mx) s | Z0 => Zpos mx | Zneg _ => 0 end).
  assert (Em' : m' = Zpos mx * 2 ^ s).
  { unfold m'. destruct s as [|p|p] eqn:Es; [cbn; lia| |lia].
    apply Z.shiftl_mul_pow2. lia. }
  assert (Ps : 0 < 2 ^ s) by (apply Z.pow_pos_nonneg; lia).
  assert (Pe' : 0 < 2 ^ (- e')) by (apply Z.pow_pos_nonneg; lia).
  assert (Pex : 0 < 2 ^ (- ex)) by (apply Z.pow_pos_nonneg; lia).
  assert (Hm' : m' <= 2 ^ (- e') * 2 ^ (- e')).
  { rewrite Em'.
    assert (E : 2 ^ (- ex) * 2 ^ s = 2 ^ (- e') * 2 ^ (- e')).
    { rewrite <- !Z.pow_add_r by lia. f_equal. unfold s. lia. }
    nia. }
  assert (H0 : 0 <= m') by (rewrite Em'; nia).
  pose proof (Z.sqrtrem_spec m' H0) as SR.
  destruct (Z.sqrtrem m') as [q r]. destruct SR as [SR1 SR2].
  assert (Hq : 0 <= q) by lia.
  apply round_aux_atMost; [exact Hq| lia | lia |].
  rewrite Z.mul_1_l.
  destruct (Z.eqb_spec r 0) as [->|Hr].
  - cbn [inexact]. nia.
  - cbn [inexact]. assert (q < 2 ^ (- e')) by nia. lia.
Qed.

(** Comparisons with 0 and 1 of a valid number that is [atMost 1]. *)
Lemma atMost_leb_one f :
  valid_binary f = true -> atMost f 1 ->
  SFleb f (S754_finite false 4503599627370496 (-52)) = true
  /\ SFleb (S754_zero false) f = true.
Proof.
  intros V H.
  destruct f as [s|[]| |[] m e]; cbn in H; try contradiction; [split; reflexivity|].
  destruct H as [He Hm]. rewrite Z.mul_1_l in Hm. split; [|reflexivity].
  unfold SFleb, SFcompare.
  cbn in V. apply andb_true_iff in V. destruct V as [C _].
  unfold canonical_mantissa in C. apply Z.eqb_eq in C.
  pose proof (digits2_bounds m) as [Dl Du].
  destruct (Z.compare_spec e (-52)) as [E|L|G].
  - subst e. change (2 ^ (- -52)) with 4503599627370496 in Hm.
    rewrite Pos.compare_cont_spec. cbn [Pos.switch_Eq].
    destruct (Pos.compare_spec m 4503599627370496) as [E|L|G]; try reflexivity. lia.
  - reflexivity.
  - exfalso. unfold fexp, SpecFloat.emin, prec, emax in C.
    assert (D : Zpos (digits2_pos m) = 53) by lia. rewrite D in Dl.
    change (2 ^ (53 - 1)) with 4503599627370496 in Dl.
    assert (2 ^ (- e) <= 2 ^ 51) by (apply Z.pow_le_mono_r; lia).
    change (2 ^ 51) with 2251799813685248 in *. lia.
Qed.

(** Conversely, a valid number between 0 and 1 is [atMost 1]. *)
Lemma leb_one_atMost f :
  valid_binary f = true ->
  SFleb (S754_zero false) f = true ->
  SFleb f (S754_finite false 4503599627370496 (-52)) = true ->
  atMost f 1.
Proof.
  intros V H0 H1.
  destruct f as [s|[]| |[] m e];
    try (unfold SFleb, SFcompare in H0; discriminate H0);
    try (unfold SFleb, SFcompare in H1; discriminate H1); [exact I|].
  cbn [atMost]. rewrite Z.mul_1_l.
  cbn in V. apply andb_true_iff in V. destruct V as [C _].
  unfold canonical_mantissa in C. apply Z.eqb_eq in C.
  unfold fexp, SpecFloat.emin, prec, emax in C.
  pose proof (digits2_bounds m) as [Dl Du].
  unfold SFleb, SFcompare in H1.
  destruct (Z.compare_spec e (-52)) as [E|L|G]; [| |discriminate].
  - subst e. split; [lia|]. change (2 ^ (- -52)) with 4503599627370496.
    rewrite Pos.compare_cont_spec in H1. cbn [Pos.switch_Eq] in H1.
    assert (Hle : (m <= 4503599627370496)%positive).
    { unfold Pos.le. intros G. rewrite G in H1. discriminate H1. }
    exact Hle.
  - split; [lia|].
    assert (Zpos (digits2_pos m) <= 53) by lia.
    assert (2 ^ Zpos (digits2_pos m) <= 2 ^ 53) by (apply Z.pow_le_mono_r; lia).
    assert (2 ^ 53 <= 2 ^ (- e)) by (apply Z.pow_le_mono_r; lia).
    lia.
Qed.

Lemma allFrom_spec f n : forall x y,
  allFrom f n x = true -> x <= y < x + Z.of_nat n -> f y = true.
Proof.
  induction n as [|n IH]; intros x y H Hy; [lia|].
  cbn [allFrom] in H. apply andb_true_iff in H. destruct H as [H1 H2].
  destruct (Z.eq_dec x y) as [->|Hne]; [exact H1|].
  apply (IH (x + 1)); [exact H2|lia].
Qed.

(** *** The loudness *)

Lemma square_table :
  allFrom (fun x => (0 <=? square x)%float && (square x <=? 1)%float)
    (Z.to_nat 65536) (-32768) = true.
Proof. vm_compute. reflexivity. Qed.

Lemma square_atMost x : -32768 <= x <= 32767 -> atMost (Prim2SF (square x)) 1.
Proof.
  intros Hx.
  assert (T : (0 <=? square x)%float && (square x <=? 1)%float = true).
  { apply (allFrom_spec _ _ _ x square_table). lia. }
  apply andb_true_iff in T. destruct T as [T0 T1].
  rewrite FloatAxioms.leb_spec in T0, T1.
  apply leb_one_atMost; [apply Prim2SF_valid | exact T0 | exact T1].
Qed.

Lemma sumSquares_atMost xs : forall acc B,
  Forall (fun x => -32768 <= x <= 32767) xs ->
  0 <= B -> B + Z.of_nat (length xs) < 2 ^ 53 ->
  atMost (Prim2SF acc) B ->
  atMost (Prim2SF (fold_left addSq xs acc)) (B + Z.of_nat (length xs)).
Proof.
  induction xs as [|x xs IH]; intros acc B Hr HB Hlen Hacc.
  - cbn. rewrite Z.add_0_r. exact Hacc.
  - apply Forall_cons in Hr. destruct Hr as [Hx Hr].
    cbn [fold_left length] in *. rewrite Nat2Z.inj_succ in *.
    replace (B + Z.succ (Z.of_nat (length xs))) with (B + 1 + Z.of_nat (length xs)) by lia.
    apply IH; [exact Hr | lia | lia |].
    change (addSq acc x) with (acc + square x)%float.
    rewrite FloatAxioms.add_spec. apply add_atMost; try lia; [exact Hacc|].
    apply square_atMost, Hx.
Qed.

Lemma Z2F_exactly n : 0 < n < 2 ^ 53 -> exactly (Prim2SF (Z2F n)) n.
Proof.
  intros Hn. destruct n as [|p|p]; try lia. cbn [Z2F].
  rewrite FloatAxioms.of_uint63_spec, Uint63.of_Z_spec, Z.mod_small.
  - apply normalize_exactly. lia.
  - split; [lia|]. change wB with (2 ^ 63).
    assert (2 ^ 53 < 2 ^ 63) by (apply Z.pow_lt_mono_r; lia). lia.
Qed.

Theorem calcRMS_unit_interval (buffer : Buffer) :
  samples buffer <> [] ->
  Z.of_nat (length (samples buffer)) < 2 ^ 53 ->
  (0 <=? calcRMS buffer)%float = true /\ (calcRMS buffer <=? 1)%float = true.
Proof.
  intros Hne Hlen. unfold calcRMS.
  set (xs := samples buffer) in *.
  set (n := Z.of_nat (length xs)) in *.
  assert (Hn : 0 < n) by (unfold n; destruct xs; [congruence|cbn; lia]).
  assert (S : atMost (Prim2SF (sumSquares xs)) n).
  { unfold sumSquares. replace n with (0 + Z.of_nat (length xs)) by (unfold n; lia).
    apply sumSquares_atMost; [apply samples_range | lia | fold n; lia | exact I]. }
  assert (D : atMost (Prim2SF (sumSquares xs / Z2F n)) 1).
  { rewrite FloatAxioms.div_spec. apply (div_atMost _ _ n n); [lia | exact S |].
    apply Z2F_exactly. lia. }
  assert (R : atMost (Prim2SF (PrimFloat.sqrt (sumSquares xs / Z2F n))) 1).
  { rewrite FloatAxioms.sqrt_spec. apply sqrt_atMost, D. }
  destruct (atMost_leb_one _ (Prim2SF_valid _) R) as [L1 L0].
  rewrite !FloatAxioms.leb_spec. split; [exact L0 | exact L1].
Qed.

Lemma sumSquares_zero xs : Forall (eq 0) xs -> sumSquares xs = 0%float.
Proof.
  unfold sumSquares. induction 1 as [|x xs <- _ IH]; [reflexivity|].
  cbn [fold_left]. change (addSq 0 0) with 0%float. exact IH.
Qed.

Lemma zero_div n : 0 < n < 2 ^ 53 -> (0 / Z2F n)%float = 0%float.
Proof.
  intros Hn. apply Prim2SF_inj. rewrite FloatAxioms.div_spec.
  pose proof (Z2F_exactly n Hn) as E.
  destruct (Prim2SF (Z2F n)) as [| | |[] m e]; cbn in E; try contradiction.
  reflexivity.
Qed.

(** C9, as the code has it.  For every buffer with at least one complete
    sample (and fewer than 2^53 of them), the loudness that [calcRMS]
    computes in double precision lies in [0, 1], and it is exactly 0 when
    all samples are zero. *)
Theorem calcRMS_in_unit_interval (buffer : Buffer) :
  samples buffer <> [] ->
  Z.of_nat (length (samples buffer)) < 2 ^ 53 ->
  (0 <=? calcRMS buffer)%float = true
  /\ (calcRMS buffer <=? 1)%float = true
  /\ (Forall (eq 0) (samples buffer) -> calcRMS buffer = 0%float).
Proof.
  intros Hne Hlen.
  destruct (calcRMS_unit_interval buffer Hne Hlen) as [H0 H1].
  split; [exact H0|]. split; [exact H1|].
  intros Hz. unfold calcRMS. rewrite (sumSquares_zero _ Hz), zero_div; [reflexivity|].
  split; [|exact Hlen]. destruct (samples buffer); [congruence|cbn; lia].
Qed.

Lemma calcRMS_in_unit_interval_witness :
  samples [x00; x80; xff; x7f] <> []
  /\ Z.of_nat (length (samples [x00; x80; xff; x7f])) < 2 ^ 53
  /\ (calcRMS [x00; x80; xff; x7f] <=? 1)%float = true.
Proof.
  assert (N : samples [x00; x80; xff; x7f] <> []) by discriminate.
  assert (L : Z.of_nat (length (samples [x00; x80; xff; x7f])) < 2 ^ 53) by reflexivity.
  split; [exact N|]. split; [exact L|].
  exact (proj1 (proj2 (calcRMS_in_unit_interval _ N L))).
Defined.

(** C9 as stated fails.  The loudness of the empty buffer is NaN: [samples.length] is 0,
    so [sumSq / samples.length] is [0 / 0].  NaN is neither in [0, 1] nor
    equal to 0, although the empty buffer holds only complete samples, all
    of them zero; the route answers with this NaN as [rms]. *)
Theorem calcRMS_empty_nan :
  samples [] = []
  /\ sumSquares (samples []) = 0%float
  /\ PrimFloat.is_nan (calcRMS []) = true
  /\ (0 <=? calcRMS [])%float = false
  /\ (calcRMS [] <=? 1)%float = false
  /\ (calcRMS [] =? 0)%float = false
  /\ (step (Some 1200) 0
        (PostStream {| q_id := None; q_sample_rate := None; q_body := [] |})
        initial).2 = [Respond (StreamOk PrimFloat.nan)].
Proof. repeat split; vm_compute; reflexivity. Qed.

(** For comparison: buffers of zero samples that are not empty, and a
    buffer that alternates between the extreme sample values. *)
Example calcRMS_zero_samples :
  calcRMS [x00; x00] = 0%float
  /\ calcRMS [x00; x00; x00; x00; x00; x00] = 0%float
  /\ (0x1.fffp-1 <? calcRMS [x00; x80; xff; x7f])%float = true
  /\ (calcRMS [x00; x80; xff; x7f] <=? 1)%float = true.
Proof. repeat split; vm_compute; reflexivity. Qed.

(** ** One chunk on one session *)

Lemma ingest_active now rate chunk s :
  isActive (calcRMS chunk) = true ->
  ingest now rate chunk s
  = {| audio := audio s ++ [chunk]; lastHeard := now; startedTalking := true;
       rmsActiveTime := (rmsActiveTime s + chunkMs chunk rate)%float;
       sampleRate := sampleRate s |}.
Proof. intros H. unfold ingest. rewrite H. reflexivity. Qed.

Lemma ingest_silent now rate chunk s :
  isActive (calcRMS chunk) = false ->
  ingest now rate chunk s
  = if negb (startedTalking s) || (rmsActiveTime s <? WARMUP_MS)%float
    then appended now chunk s else s.
Proof. intros H. unfold ingest. rewrite H. reflexivity. Qed.

Lemma ingest_started now rate chunk s :
  startedTalking (ingest now rate chunk s)
  = startedTalking s || isActive (calcRMS chunk).
Proof.
  unfold ingest. destruct (isActive (calcRMS chunk)); simpl.
  - rewrite orb_true_r. reflexivity.
  - rewrite orb_false_r.
    destruct (negb (startedTalking s) || (rmsActiveTime s <? WARMUP_MS)%float);
      reflexivity.
Qed.

Lemma ingest_unspoken now rate chunk s :
  (startedTalking s = false -> rmsActiveTime s = 0%float) ->
  startedTalking (ingest now rate chunk s) = false ->
  rmsActiveTime (ingest now rate chunk s) = 0%float.
Proof.
  intros P. unfold ingest.
  destruct (isActive (calcRMS chunk)); simpl; [discriminate|].
  destruct (negb (startedTalking s) || (rmsActiveTime s <? WARMUP_MS)%float);
    simpl; exact P.
Qed.

Lemma ingestAll_started chunks : forall s,
  startedTalking (ingestAll chunks s)
  = startedTalking s || existsb (fun c => isActive (calcRMS c.2)) chunks.
Proof.
  induction chunks as [|c cs IH]; intros s; simpl.
  - rewrite orb_false_r. reflexivity.
  - unfold ingestAll in *. simpl. rewrite IH, ingest_started, orb_assoc.
    reflexivity.
Qed.

Lemma ingestAll_unspoken chunks : forall s,
  (startedTalking s = false -> rmsActiveTime s = 0%float) ->
  startedTalking (ingestAll chunks s) = false ->
  rmsActiveTime (ingestAll chunks s) = 0%float.
Proof.
  induction chunks as [|c cs IH]; intros s P; simpl; [exact P|].
  unfold ingestAll in *. simpl. apply IH. apply ingest_unspoken. exact P.
Qed.

(** C3, as the code has it.  After any chunks of a session's life,
    [startedTalking] is true exactly when one of these chunks was
    classified active ([rms > 0.02]); a session whose [rmsActiveTime] is no
    longer below 2000 has [startedTalking] set, but not the other way
    round. *)
Theorem startedTalking_means_heard now0 rate0 (chunks : list (Z * float * Buffer)) :
  let s := ingestAll chunks (newSession now0 rate0) in
  startedTalking s = existsb (fun c => isActive (calcRMS c.2)) chunks
  /\ ((rmsActiveTime s <? WARMUP_MS)%float = false -> startedTalking s = true).
Proof.
  intros s. subst s. split.
  - rewrite ingestAll_started. reflexivity.
  - intros H.
    destruct (startedTalking (ingestAll chunks (newSession now0 rate0))) eqn:E;
      [reflexivity|].
    rewrite ingestAll_unspoken in H; [discriminate H| reflexivity | exact E].
Qed.

(** C3 as stated fails: one active chunk of one sample (0.0625 ms at
    16 kHz) sets [startedTalking] while [rmsActiveTime] is far below the
    2000 ms threshold. *)
Lemma startedTalking_before_warmup :
  isActive (calcRMS [xff; x7f]) = true
  /\ startedTalking (ingestAll [(0, 16000%float, [xff; x7f])] (newSession 0 16000)) = true
  /\ rmsActiveTime (ingestAll [(0, 16000%float, [xff; x7f])] (newSession 0 16000))
     = 0.0625%float
  /\ (rmsActiveTime (ingestAll [(0%Z, 16000, [xff; x7f])] (newSession 0%Z 16000))
      <? WARMUP_MS)%float = true.
Proof. repeat split; vm_compute; reflexivity. Qed.

(** C5.  A silence-classified chunk on an existing session: while the
    session has not started talking, or its [rmsActiveTime] is below 2000,
    the chunk is appended and [lastHeard] becomes [now]; otherwise the
    session is left exactly as it was.  The session in the store after the
    request is this session, unless the silence test that follows drained
    it. *)
Theorem silent_chunk_kept_or_discarded SILENCE_MS now q st s :
  sessions st !! idOf (q_id q) = Some s ->
  isActive (calcRMS (q_body q)) = false ->
  let s' := if negb (startedTalking s) || (rmsActiveTime s <? WARMUP_MS)%float
            then {| audio := audio s ++ [q_body q]; lastHeard := now;
                    startedTalking := startedTalking s;
                    rmsActiveTime := rmsActiveTime s;
                    sampleRate := sampleRate s |}
            else s in
  streamSession now q st = s'
  /\ sessions (postStream SILENCE_MS now q st).1.2 !! idOf (q_id q)
     = (if silenceDetected SILENCE_MS now s' then None else Some s').
Proof.
  intros Hs Hq s'.
  assert (E : streamSession now q st = s').
  { unfold streamSession. rewrite Hs.
    rewrite ingest_silent by exact Hq. reflexivity. }
  split; [exact E|].
  rewrite postStream_closed. cbn [fst snd]. rewrite E.
  destruct (silenceDetected SILENCE_MS now s').
  - rewrite finalize_sessions. apply lookup_delete_eq.
  - cbn. apply lookup_insert_eq.
Qed.

Lemma silent_chunk_kept_or_discarded_witness :
  sessions (withSessions {["a" := newSession 0 16000]} initial) !! "a"
  = Some (newSession 0 16000)
  /\ isActive (calcRMS [x00; x00]) = false
  /\ streamSession 7 {| q_id := Some "a"; q_sample_rate := None; q_body := [x00; x00] |}
       (withSessions {["a" := newSession 0 16000]} initial)
     = appended 7 [x00; x00] (newSession 0 16000).
Proof.
  split; [reflexivity|]. split; [reflexivity|].
  exact (proj1 (silent_chunk_kept_or_discarded (Some 1200) 7
    {| q_id := Some "a"; q_sample_rate := None; q_body := [x00; x00] |}
    (withSessions {["a" := newSession 0 16000]} initial)
    (newSession 0 16000) eq_refl eq_refl)).
Defined.

(** ** Runs of the event loop *)

Lemma run_cons SILENCE_MS now e rest st :
  run SILENCE_MS ((now, e) :: rest) st
  = ((run SILENCE_MS rest (step SILENCE_MS now e st).1).1,
     (step SILENCE_MS now e st).2 ++ (run SILENCE_MS rest (step SILENCE_MS now e st).1).2).
Proof.
  cbn [run]. destruct (step SILENCE_MS now e st) as [st1 fx1]. cbn [fst snd].
  destruct (run SILENCE_MS rest st1) as [st2 fx2]. reflexivity.
Qed.

Lemma step_getFinalize SILENCE_MS now q st :
  step SILENCE_MS now (GetFinalize q) st
  = ((getFinalize now q (tick now st)).1.2, (getFinalize now q (tick now st)).2).
Proof.
  unfold step, handle.
  destruct (getFinalize now q (tick now st)) as [[r st'] fx]. reflexivity.
Qed.

Lemma exceedsSilence_zero SILENCE_MS :
  timeoutNonneg SILENCE_MS -> exceedsSilence SILENCE_MS 0 = false.
Proof.
  unfold timeoutNonneg, exceedsSilence. destruct SILENCE_MS as [ms|]; [|reflexivity].
  intros H. apply Z.ltb_ge. exact H.
Qed.

Lemma silence_just_heard SILENCE_MS now s :
  timeoutNonneg SILENCE_MS -> lastHeard s = now -> silenceDetected SILENCE_MS now s = false.
Proof.
  intros H E. unfold silenceDetected. rewrite E, Z.sub_diag, exceedsSilence_zero by exact H.
  apply andb_false_r.
Qed.

Lemma ingest_below_warmup now rate chunk s :
  (rmsActiveTime (ingest now rate chunk s) <? WARMUP_MS)%float = true ->
  lastHeard (ingest now rate chunk s) = now
  /\ audio (ingest now rate chunk s) = audio s ++ [chunk].
Proof.
  unfold ingest. destruct (isActive (calcRMS chunk)); cbn; [auto|].
  destruct (negb (startedTalking s)); cbn; [auto|].
  destruct (rmsActiveTime s <? WARMUP_MS)%float eqn:E; cbn; [auto|].
  rewrite E. discriminate.
Qed.

Lemma audio_default now rate (o : option session) :
  audio match o with Some s => s | None => newSession now rate end = audioOf o.
Proof. destruct o; reflexivity. Qed.

Lemma stream_below_warmup SILENCE_MS now q st :
  timeoutNonneg SILENCE_MS ->
  (rmsActiveTime (streamSession now q st) <? WARMUP_MS)%float = true ->
  postStream SILENCE_MS now q st
  = (Ok tt,
     withSessions (<[idOf (q_id q) := streamSession now q st]> (sessions st)) st,
     [Respond (StreamOk (calcRMS (q_body q)))])
  /\ audio (streamSession now q st)
     = audioOf (sessions st !! idOf (q_id q)) ++ [q_body q].
Proof.
  intros Ht Hw. unfold streamSession in Hw.
  destruct (ingest_below_warmup _ _ _ _ Hw) as [Hl Ha].
  split.
  - rewrite postStream_closed. cbn zeta.
    fold (streamSession now q st) in Hl.
    rewrite (silence_just_heard SILENCE_MS now _ Ht Hl). reflexivity.
  - unfold streamSession. rewrite Ha, audio_default. reflexivity.
Qed.

Lemma tick_sessions now st : sessions (tick now st) = sessions st.
Proof. reflexivity. Qed.
Lemma tick_inflight now st : inflight (tick now st) = inflight st.
Proof. reflexivity. Qed.
Lemma tick_files now st : files (tick now st) = files st.
Proof. reflexivity. Qed.

Lemma warmup_run SILENCE_MS id : forall reqs st,
  timeoutNonneg SILENCE_MS ->
  belowWarmup SILENCE_MS id reqs st ->
  Forall (fun e => exists rms, e = Respond (StreamOk rms))
    (run SILENCE_MS (streamEvents reqs) st).2
  /\ inflight (run SILENCE_MS (streamEvents reqs) st).1 = inflight st
  /\ audioOf (sessions (run SILENCE_MS (streamEvents reqs) st).1 !! id)
     = audioOf (sessions st !! id) ++ map (fun r => q_body r.2) reqs
  /\ (reqs <> [] -> is_Some (sessions (run SILENCE_MS (streamEvents reqs) st).1 !! id)).
Proof.
  induction reqs as [|[now q] rest IH]; intros st Ht Hb.
  - cbn. rewrite app_nil_r. repeat split; [constructor | congruence].
  - cbn [belowWarmup] in Hb. destruct Hb as (Hid & Hw & Hrest).
    destruct (stream_below_warmup SILENCE_MS now q (tick now st) Ht Hw) as [Hp Ha].
    assert (Hstep : step SILENCE_MS now (PostStream q) st
      = (withSessions (<[id := streamSession now q (tick now st)]> (sessions st)) (tick now st),
         [Respond (StreamOk (calcRMS (q_body q)))])).
    { rewrite step_postStream, Hp, Hid. reflexivity. }
    rewrite Hstep in Hrest. cbn [fst] in Hrest.
    destruct (IH _ Ht Hrest) as (I1 & I2 & I3 & I4).
    cbn [streamEvents map fst snd]. fold (streamEvents rest).
    rewrite run_cons, Hstep. cbn [fst snd].
    split; [|split; [|split]].
    + constructor; [eexists; reflexivity | exact I1].
    + rewrite I2. reflexivity.
    + rewrite I3. cbn [sessions withSessions]. rewrite lookup_insert_eq. cbn [audioOf].
      rewrite Ha, Hid, tick_sessions, <- app_assoc. reflexivity.
    + intros _. destruct rest as [|r rest'].
      * cbn. rewrite lookup_insert_eq. eauto.
      * apply I4. discriminate.
Qed.

(** C1, as the code has it.  Take stream requests for one session id
    during which the session's [rmsActiveTime] is below 2000 after every
    chunk (the comparison [rmsActiveTime < 2000] holds), with a silence
    timeout that is not negative.  Whatever the clock readings, every
    request only answers [ok]: the silence test never fires, no provider
    call is started, every chunk is kept in the session, and the session
    stays in the store.  A manual finalize then removes it, and sends the
    whole retained audio to the provider when the scratch file can be
    written; when it cannot, the call is rejected and nothing is sent. *)
Theorem warmup_blocks_autofinalize SILENCE_MS id (reqs : list (Z * stream_query)) st :
  timeoutNonneg SILENCE_MS ->
  belowWarmup SILENCE_MS id reqs st ->
  let r := run SILENCE_MS (streamEvents reqs) st in
  Forall (fun e => exists rms, e = Respond (StreamOk rms)) r.2
  /\ inflight r.1 = inflight st
  /\ audioOf (sessions r.1 !! id)
     = audioOf (sessions st !! id) ++ map (fun x => q_body x.2) reqs
  /\ (reqs <> [] ->
      exists s, sessions r.1 !! id = Some s
        /\ forall now qf, idOf qf = id ->
             (step SILENCE_MS now (GetFinalize qf) r.1).2
             = (if writable r.1 (id, now)
                then [WriteFile (id, now) (concat (audio s));
                      Fetch (sampleRate s) (concat (audio s))]
                else [UnhandledRejection])
               ++ [Respond Finalizing]
             /\ sessions (step SILENCE_MS now (GetFinalize qf) r.1).1 !! id = None).
Proof.
  intros Ht Hb r. subst r.
  destruct (warmup_run SILENCE_MS id reqs st Ht Hb) as (H1 & H2 & H3 & H4).
  split; [exact H1|]. split; [exact H2|]. split; [exact H3|].
  intros Hne. destruct (H4 Hne) as [s Hs]. exists s. split; [exact Hs|].
  intros now qf Hq.
  assert (Ha : audio s <> []).
  { rewrite Hs in H3. cbn [audioOf] in H3. rewrite H3.
    destruct reqs as [|x xs]; [congruence|]. cbn [map].
    intros E. apply app_eq_nil in E. destruct E as [_ E]. discriminate E. }
  rewrite step_getFinalize.
  set (st' := tick now (run SILENCE_MS (streamEvents reqs) st).1).
  assert (Hs' : sessions st' !! idOf qf = Some s) by (rewrite Hq; exact Hs).
  rewrite (getFinalize_present now qf st' s Hs'). cbn [fst snd].
  rewrite finalize_sessions. split; [|rewrite Hq; apply lookup_delete_eq].
  change (writable (run SILENCE_MS (streamEvents reqs) st).1 (id, now))
    with (writable st' (id, now)).
  rewrite <- Hq.
  destruct (writable st' (idOf qf, now)) eqn:W.
  - rewrite (finalizeFx_started now (idOf qf) st' s Hs' Ha W). reflexivity.
  - rewrite (finalizeFx_refused now (idOf qf) st' s Hs' Ha W). reflexivity.
Qed.

Lemma warmup_blocks_autofinalize_witness :
  timeoutNonneg (Some 1200)
  /\ belowWarmup (Some 1200) "s1"
       [(0, {| q_id := Some "s1"; q_sample_rate := None; q_body := [xff; x7f] |});
        (60000, {| q_id := Some "s1"; q_sample_rate := None; q_body := [x00; x00] |})]
       initial
  /\ inflight (run (Some 1200) (streamEvents
       [(0, {| q_id := Some "s1"; q_sample_rate := None; q_body := [xff; x7f] |});
        (60000, {| q_id := Some "s1"; q_sample_rate := None; q_body := [x00; x00] |})])
       initial).1 = [].
Proof.
  assert (Ht : timeoutNonneg (Some 1200)) by (cbn; lia).
  assert (Hb : belowWarmup (Some 1200) "s1"
       [(0, {| q_id := Some "s1"; q_sample_rate := None; q_body := [xff; x7f] |});
        (60000, {| q_id := Some "s1"; q_sample_rate := None; q_body := [x00; x00] |})]
       initial).
  { cbn [belowWarmup]. repeat split; vm_compute; reflexivity. }
  split; [exact Ht|]. split; [exact Hb|].
  exact (proj1 (proj2 (warmup_blocks_autofinalize (Some 1200) "s1" _ initial Ht Hb))).
Defined.

(** C1 as stated fails.  With [SILENCE_MS = -1] the silence test holds
    for the first active chunk, 0.0625 ms into the warm-up, and the session
    is finalized at once.  With the default timeout and a [sample_rate] that
    does not parse, [rmsActiveTime] is NaN and never reaches 2000, yet a
    silent chunk 5000 ms after the active one finalizes the session. *)
Lemma warmup_session_autofinalized :
  (rmsActiveTime (streamSession 0
      {| q_id := Some "s1"; q_sample_rate := None; q_body := [xff; x7f] |}
      (tick 0 initial)) <? WARMUP_MS)%float = true
  /\ (step (Some (-1)) 0
        (PostStream {| q_id := Some "s1"; q_sample_rate := None; q_body := [xff; x7f] |})
        initial).2
     = [LogSilence "s1"; WriteFile ("s1", 0) [xff; x7f]; Fetch 16000 [xff; x7f];
        Respond (StreamOk (calcRMS [xff; x7f]))]
  /\ sessions (step (Some (-1)) 0
        (PostStream {| q_id := Some "s1"; q_sample_rate := None; q_body := [xff; x7f] |})
        initial).1 !! "s1" = None
  /\ PrimFloat.leb WARMUP_MS (rmsActiveTime (streamSession 0
        {| q_id := Some "s2"; q_sample_rate := Some PrimFloat.nan; q_body := [xff; x7f] |}
        (tick 0 initial))) = false
  /\ PrimFloat.leb WARMUP_MS (rmsActiveTime (streamSession 5000
        {| q_id := Some "s2"; q_sample_rate := None; q_body := [x00; x00] |}
        (tick 5000 (step (Some 1200) 0
          (PostStream {| q_id := Some "s2"; q_sample_rate := Some PrimFloat.nan;
                         q_body := [xff; x7f] |})
          initial).1))) = false
  /\ (step (Some 1200) 5000
        (PostStream {| q_id := Some "s2"; q_sample_rate := None; q_body := [x00; x00] |})
        (step (Some 1200) 0
          (PostStream {| q_id := Some "s2"; q_sample_rate := Some PrimFloat.nan;
                         q_body := [xff; x7f] |})
          initial).1).2
     = [LogSilence "s2"; WriteFile ("s2", 5000) [xff; x7f]; Fetch PrimFloat.nan [xff; x7f];
        Respond (StreamOk (calcRMS [x00; x00]))].
Proof. repeat split; vm_compute; reflexivity. Qed.

(** ** One turn of the loop, by event *)

Lemma step_getTranscript SILENCE_MS now q st :
  step SILENCE_MS now (GetTranscript q) st
  = (tick now st,
     [Respond (match transcripts (tick now st) !! idOf q with
               | Some t => if truthy t then TranscriptBody t true
                           else TranscriptBody (JStr "") false
               | None => TranscriptBody (JStr "") false
               end)]).
Proof. unfold step, handle. rewrite getTranscript_closed. reflexivity. Qed.

Lemma step_provider_none SILENCE_MS now n o st :
  inflight st !! n = None ->
  step SILENCE_MS now (ProviderSettles n o) st = (tick now st, []).
Proof.
  intros H. unfold step, handle. js_unfold. cbn. rewrite H. reflexivity.
Qed.

Lemma step_provider_some SILENCE_MS now n o st jb :
  inflight st !! n = Some jb ->
  let st1 := withInflight (take n (inflight st) ++ drop (S n) (inflight st)) (tick now st) in
  step SILENCE_MS now (ProviderSettles n o) st
  = ((finalizeResume now jb o st1).1.2, (finalizeResume now jb o st1).2).
Proof.
  intros H st1. unfold step, handle.
  unfold mbind at 1, js_bind at 1. unfold getState at 1.
  rewrite tick_inflight, H.
  unfold mbind, js_bind, setInflight. rewrite detach_closed.
  fold st1. rewrite (resume_total now jb o st1).
  cbn [rejected fst snd app]. rewrite app_nil_r. reflexivity.
Qed.

Lemma finalizeFx_cases now id st :
  (sessions st !! id = None /\ finalizeFx now id st = [])
  \/ (exists s, sessions st !! id = Some s /\ audio s = []
        /\ finalizeFx now id st = [LogNoAudio id])
  \/ (exists s, sessions st !! id = Some s /\ audio s <> []
        /\ writable st (id, now) = true
        /\ finalizeFx now id st
           = [WriteFile (id, now) (concat (audio s));
              Fetch (sampleRate s) (concat (audio s))])
  \/ (exists s, sessions st !! id = Some s /\ audio s <> []
        /\ writable st (id, now) = false
        /\ finalizeFx now id st = [UnhandledRejection]).
Proof.
  unfold finalizeFx.
  destruct (finalize_cases now id st)
    as [[E ->]|[(s & E & Ea & ->)|[(s & E & Ea & W & ->)|(s & E & Ea & W & ->)]]].
  - left. auto.
  - right. left. exists s. auto.
  - right. right. left. exists s. auto.
  - right. right. right. exists s. auto.
Qed.

Lemma ingest_audio now rate chunk s :
  audio (ingest now rate chunk s) = audio s ++ [chunk]
  \/ (audio (ingest now rate chunk s) = audio s /\ startedTalking s = true).
Proof.
  unfold ingest. destruct (isActive (calcRMS chunk)); cbn; [auto|].
  destruct (startedTalking s); cbn; [|auto].
  destruct (rmsActiveTime s <? WARMUP_MS)%float; cbn; auto.
Qed.

Lemma ingest_audio_prefix now rate chunk s :
  audio s `prefix_of` audio (ingest now rate chunk s).
Proof.
  destruct (ingest_audio now rate chunk s) as [E|[E _]]; rewrite E.
  - apply prefix_app_r. reflexivity.
  - reflexivity.
Qed.

Lemma ingest_nonempty now rate chunk s :
  (audio s = [] -> startedTalking s = false) ->
  audio (ingest now rate chunk s) <> [].
Proof.
  intros H. destruct (ingest_audio now rate chunk s) as [Ea|[Ea Es]]; rewrite Ea.
  - intros E. apply app_eq_nil in E. destruct E as [_ E]. discriminate.
  - intros E. rewrite (H E) in Es. discriminate.
Qed.

Lemma streamSession_audio now q st :
  unfedQuiet st -> audio (streamSession now q st) <> [].
Proof.
  intros H. unfold streamSession. apply ingest_nonempty.
  destruct (sessions st !! idOf (q_id q)) as [s|] eqn:E; [|reflexivity].
  apply (H _ _ E).
Qed.

Lemma tick_unfedQuiet now st : unfedQuiet st -> unfedQuiet (tick now st).
Proof. intros H id s. apply H. Qed.

Lemma step_sessions_lookup SILENCE_MS now e st id s' :
  sessions (step SILENCE_MS now e st).1 !! id = Some s' ->
  sessions st !! id = Some s'
  \/ (exists q, e = PostStream q /\ idOf (q_id q) = id
                /\ s' = streamSession now q (tick now st))
  \/ (exists qid qrate, e = PostStreamUnparsed qid qrate /\ idOf qid = id
                /\ sessions st !! id = None /\ s' = newSession now (rateOf qrate)).
Proof.
  destruct e as [q|q|q|n o|qid qrate].
  - rewrite step_postStream, postStream_closed. cbn [fst snd].
    destruct (silenceDetected _ _ _).
    + rewrite finalize_sessions. cbn [sessions withSessions].
      destruct (decide (idOf (q_id q) = id)) as [->|Hne].
      * rewrite lookup_delete_eq. discriminate.
      * rewrite lookup_delete_ne, lookup_insert_ne by exact Hne. auto.
    + cbn [sessions withSessions].
      destruct (decide (idOf (q_id q) = id)) as [<-|Hne].
      * rewrite lookup_insert_eq. intros [= <-]. right. left. eauto.
      * rewrite lookup_insert_ne by exact Hne. auto.
  - rewrite step_getTranscript. auto.
  - rewrite step_getFinalize.
    destruct (sessions (tick now st) !! idOf q) as [s|] eqn:E.
    + rewrite (getFinalize_present _ _ _ _ E). cbn [fst snd].
      rewrite finalize_sessions. rewrite tick_sessions.
      intros H. apply lookup_delete_Some in H. tauto.
    + rewrite (getFinalize_absent _ _ _ E). auto.
  - destruct (inflight st !! n) as [jb|] eqn:E.
    + rewrite (step_provider_some _ _ _ _ _ _ E).
      destruct o; [rewrite resume_failed by reflexivity
                  |rewrite resume_failed by reflexivity
                  |rewrite resume_parsed]; cbn; auto.
    + rewrite (step_provider_none _ _ _ _ _ E). auto.
  - rewrite step_postUnparsed. cbn [fst].
    destruct (sessions st !! idOf qid) as [s|] eqn:E; [auto|].
    cbn [sessions withSessions].
    destruct (decide (idOf qid = id)) as [<-|Hne].
    + rewrite lookup_insert_eq. intros [= <-]. right. right. eauto 6.
    + rewrite lookup_insert_ne by exact Hne. auto.
Qed.

(** A stored session without audio is a session as it was created. *)
Lemma reachable_unfed SILENCE_MS st :
  reachable SILENCE_MS st ->
  forall id s, sessions st !! id = Some s -> audio s = [] ->
    exists now0 rate0, s = newSession now0 rate0.
Proof.
  induction 1 as [|now e st R IH|w st R IH]; intros id s Hs Ha.
  - cbn in Hs. rewrite lookup_empty in Hs. discriminate.
  - apply step_sessions_lookup in Hs.
    destruct Hs as [Hs|[(q & -> & Hid & ->)|(qid & qrate & -> & Hid & _ & ->)]].
    + eapply IH; eauto.
    + exfalso. revert Ha. apply streamSession_audio.
      intros i s0 H0 E0. rewrite tick_sessions in H0.
      destruct (IH _ _ H0 E0) as (n0 & r0 & ->). reflexivity.
    + eauto.
  - eapply IH; eauto.
Qed.

Lemma reachable_unfedQuiet SILENCE_MS st : reachable SILENCE_MS st -> unfedQuiet st.
Proof.
  intros R id s Hs Ha. destruct (reachable_unfed _ _ R _ _ Hs Ha) as (n0 & r0 & ->).
  reflexivity.
Qed.

Lemma unlinkFx_cases p st : unlinkFx p st = [Unlink p] \/ unlinkFx p st = [].
Proof. unfold unlinkFx. destruct (files st !! p); auto. Qed.

Lemma resume_effects now jb o st e :
  e ∈ (finalizeResume now jb o st).2 ->
  e = LogError (job_id jb) \/ e = Unlink (job_file jb)
  \/ (exists json, o = Parsed json
        /\ (e = LogTranscript (job_id jb) (transcriptOf json)
            \/ e = SetTranscript (job_id jb) (transcriptOf json)
            \/ e = SetTimeout (now + TRANSCRIPT_TTL) (job_id jb))).
Proof.
  destruct (unlinkFx_cases (job_file jb) st) as [U|U];
  destruct o as [| |json]; [rewrite resume_failed by reflexivity
              |rewrite resume_failed by reflexivity
              |rewrite resume_parsed
              |rewrite resume_failed by reflexivity
              |rewrite resume_failed by reflexivity
              |rewrite resume_parsed]; cbn [fst snd]; rewrite U;
    rewrite ?elem_of_app, ?elem_of_cons, ?elem_of_nil; intros H;
    repeat (destruct H as [H|H]); subst; eauto 10; try contradiction.
Qed.

(** The [No audio to process] return is taken exactly by a manual finalize
    of a stored session that holds no chunk. *)
Lemma step_logs_no_audio SILENCE_MS now e st id :
  unfedQuiet st ->
  LogNoAudio id ∈ (step SILENCE_MS now e st).2
  <-> exists q s, e = GetFinalize q /\ idOf q = id
        /\ sessions st !! id = Some s /\ audio s = [].
Proof.
  intros Inv. destruct e as [q|q|q|n o|qid qrate].
  - split; [|intros (q' & s & H & _); discriminate].
    rewrite step_postStream, postStream_closed. cbn [fst snd].
    destruct (silenceDetected _ _ _); [|not_among].
    set (s' := streamSession now q (tick now st)).
    assert (Ha : audio s' <> []) by apply streamSession_audio, tick_unfedQuiet, Inv.
    set (st1 := withSessions _ _).
    assert (Hs1 : sessions st1 !! idOf (q_id q) = Some s') by apply lookup_insert_eq.
    destruct (finalizeFx_cases now (idOf (q_id q)) st1)
      as [[E _]|[(s & E & Ea & _)|[(s & _ & _ & _ & ->)|(s & _ & _ & _ & ->)]]].
    + rewrite Hs1 in E. discriminate.
    + rewrite Hs1 in E. injection E as <-. contradiction.
    + not_among.
    + not_among.
  - split; [|intros (q' & s & H & _); discriminate].
    rewrite step_getTranscript. cbn. not_among.
  - rewrite step_getFinalize.
    destruct (sessions (tick now st) !! idOf q) as [s|] eqn:E.
    + rewrite (getFinalize_present _ _ _ _ E). cbn [fst snd].
      destruct (finalizeFx_cases now (idOf q) (tick now st))
        as [[E' _]|[(s0 & E' & Ea & ->)|[(s0 & E' & Ea & _ & ->)|(s0 & E' & Ea & _ & ->)]]].
      * rewrite E in E'. discriminate.
      * split.
        -- rewrite elem_of_app, !elem_of_cons, !elem_of_nil.
           intros [[[= ->]|[]]|[H|[]]]; [|discriminate]. exists q, s0.
           rewrite tick_sessions in E'. auto.
        -- intros (q' & s1 & [= <-] & <- & _). apply elem_of_app. left.
           apply elem_of_cons. auto.
      * split; [not_among|].
        intros (q' & s1 & [= <-] & <- & Hs1 & Ha1).
        rewrite tick_sessions in E'. rewrite Hs1 in E'. injection E' as <-. contradiction.
      * split; [not_among|].
        intros (q' & s1 & [= <-] & <- & Hs1 & Ha1).
        rewrite tick_sessions in E'. rewrite Hs1 in E'. injection E' as <-. contradiction.
    + rewrite (getFinalize_absent _ _ _ E). cbn [snd]. split; [not_among|].
      intros (q' & s1 & [= <-] & <- & Hs1 & _).
      rewrite tick_sessions in E. rewrite Hs1 in E. discriminate.
  - split; [|intros (q' & s & H & _); discriminate].
    destruct (inflight st !! n) as [jb|] eqn:E.
    + rewrite (step_provider_some _ _ _ _ _ _ E). cbn zeta. cbn [snd].
      intros H. apply resume_effects in H.
      destruct H as [H|[H|(json & _ & [H|[H|H]])]]; discriminate.
    + rewrite (step_provider_none _ _ _ _ _ E). cbn. not_among.
  - split; [|intros (q' & s & H & _); discriminate].
    rewrite step_postUnparsed. cbn. not_among.
Qed.

(** C10, as the code has it.  In every state the server can reach, a
    stored session without a chunk is a session exactly as it was created,
    and such a session enters the store only through a stream request whose
    body could not be read.  A stream request whose body was read leaves in
    the store, under its id, a session that holds audio (the chunk alone,
    when the request created the session), unless the silence test
    finalized it at once, which a timeout that is not negative excludes for
    a new session.  A turn of the loop that keeps a session only extends its
    chunk list.  The [No audio to process] return of
    [finalizeAndTranscribe] is taken exactly by a manual finalize of a
    stored session without a chunk. *)
Theorem sessions_have_audio_once_fed SILENCE_MS st :
  reachable SILENCE_MS st ->
  (forall id s, sessions st !! id = Some s -> audio s = [] ->
     exists now0 rate0, s = newSession now0 rate0)
  /\ (forall now e id s',
        sessions (step SILENCE_MS now e st).1 !! id = Some s' -> audio s' = [] ->
        sessions st !! id = Some s'
        \/ exists qid qrate, e = PostStreamUnparsed qid qrate /\ idOf qid = id
                             /\ sessions st !! id = None)
  /\ (forall now q,
        let id := idOf (q_id q) in
        let s' := streamSession now q (tick now st) in
        audio s' <> []
        /\ sessions (step SILENCE_MS now (PostStream q) st).1 !! id
           = (if silenceDetected SILENCE_MS now s' then None else Some s')
        /\ (sessions st !! id = None -> audio s' = [q_body q])
        /\ (sessions st !! id = None -> timeoutNonneg SILENCE_MS ->
            sessions (step SILENCE_MS now (PostStream q) st).1 !! id = Some s'))
  /\ (forall now e id s s',
        sessions st !! id = Some s ->
        sessions (step SILENCE_MS now e st).1 !! id = Some s' ->
        audio s `prefix_of` audio s')
  /\ (forall now e id,
        LogNoAudio id ∈ (step SILENCE_MS now e st).2
        <-> exists q s, e = GetFinalize q /\ idOf q = id
              /\ sessions st !! id = Some s /\ audio s = []).
Proof.
  intros R. pose proof (reachable_unfedQuiet SILENCE_MS st R) as Inv.
  split; [exact (reachable_unfed SILENCE_MS st R)|]. split; [|split; [|split]].
  - intros now e id s' Hs' Ha.
    apply step_sessions_lookup in Hs'.
    destruct Hs' as [Hs'|[(q & -> & Hid & ->)|(qid & qrate & -> & Hid & Hn & ->)]].
    + auto.
    + exfalso. revert Ha. apply streamSession_audio, tick_unfedQuiet, Inv.
    + right. eauto.
  - intros now q id s'.
    assert (Hst : sessions (step SILENCE_MS now (PostStream q) st).1 !! id
                  = (if silenceDetected SILENCE_MS now s' then None else Some s')).
    { rewrite step_postStream, postStream_closed. cbn [fst snd]. fold id s'.
      destruct (silenceDetected SILENCE_MS now s').
      - rewrite finalize_sessions. apply lookup_delete_eq.
      - cbn. apply lookup_insert_eq. }
    assert (Hnew : sessions st !! id = None ->
              audio s' = [q_body q] /\ lastHeard s' = now).
    { intros Hn. subst s'. unfold streamSession. rewrite tick_sessions. fold id. rewrite Hn.
      unfold ingest. destruct (isActive _); cbn; auto. }
    split; [apply streamSession_audio, tick_unfedQuiet, Inv|].
    split; [exact Hst|]. split; [intros Hn; apply (Hnew Hn)|].
    intros Hn Ht. rewrite Hst.
    rewrite (silence_just_heard SILENCE_MS now s' Ht); [reflexivity|apply (Hnew Hn)].
  - intros now e id s s' Hs Hs'.
    apply step_sessions_lookup in Hs'.
    destruct Hs' as [Hs'|[(q & -> & Hid & ->)|(qid & qrate & -> & Hid & Hn & ->)]].
    + rewrite Hs in Hs'. injection Hs' as ->. reflexivity.
    + unfold streamSession. rewrite tick_sessions, Hid, Hs. apply ingest_audio_prefix.
    + rewrite Hs in Hn. discriminate.
  - intros now e id. apply step_logs_no_audio, Inv.
Qed.

Lemma sessions_have_audio_once_fed_witness :
  reachable (Some 1200)
    (step (Some 1200) 0 (PostStreamUnparsed (Some "s1") None) initial).1
  /\ LogNoAudio "s1" ∈ (step (Some 1200) 10 (GetFinalize (Some "s1"))
        (step (Some 1200) 0 (PostStreamUnparsed (Some "s1") None) initial).1).2.
Proof.
  assert (R : reachable (Some 1200)
    (step (Some 1200) 0 (PostStreamUnparsed (Some "s1") None) initial).1)
    by (apply reach_step, reach_initial).
  split; [exact R|].
  apply (proj2 (proj2 (proj2 (proj2 (sessions_have_audio_once_fed (Some 1200) _ R))))
           10 (GetFinalize (Some "s1")) "s1").
  exists (Some "s1"), (newSession 0 16000).
  repeat split; vm_compute; reflexivity.
Defined.

(** C10 as stated fails: a stream request whose body was left unparsed
    creates the session and throws before it appends anything; the store
    then holds a session with an empty chunk list, and a manual finalize
    of it takes the [No audio to process] return. *)
Lemma unparsed_body_leaves_empty_session :
  sessions (step (Some 1200) 0 (PostStreamUnparsed (Some "s1") None) initial).1 !! "s1"
  = Some {| audio := []; lastHeard := 0; startedTalking := false;
            rmsActiveTime := 0; sampleRate := 16000 |}
  /\ (step (Some 1200) 0 (PostStreamUnparsed (Some "s1") None) initial).2
     = [UnhandledRejection]
  /\ (step (Some 1200) 10 (GetFinalize (Some "s1"))
        (step (Some 1200) 0 (PostStreamUnparsed (Some "s1") None) initial).1).2
     = [LogNoAudio "s1"; Respond Finalizing].
Proof. repeat split; vm_compute; reflexivity. Qed.

(** ** The history of a stored session *)

Lemma ingestAll_snoc chunks c s :
  ingestAll (chunks ++ [c]) s = ingest c.1.1 c.1.2 c.2 (ingestAll chunks s).
Proof. unfold ingestAll. rewrite fold_left_app. reflexivity. Qed.

(** Every stored session of a reachable state is a new session that
    ingested the chunks of the requests whose body was read. *)
Lemma reachable_history SILENCE_MS st :
  reachable SILENCE_MS st ->
  forall id s, sessions st !! id = Some s ->
    exists now0 rate0 cs, s = ingestAll cs (newSession now0 rate0).
Proof.
  induction 1 as [|now e st R IH|w st R IH]; intros id s Hs.
  - cbn in Hs. rewrite lookup_empty in Hs. discriminate.
  - apply step_sessions_lookup in Hs.
    destruct Hs as [Hs|[(q & -> & Hid & ->)|(qid & qrate & -> & Hid & _ & ->)]].
    + eapply IH, Hs.
    + unfold streamSession. rewrite tick_sessions.
      destruct (sessions st !! idOf (q_id q)) as [s0|] eqn:E.
      * destruct (IH _ _ E) as (now0 & rate0 & cs & ->).
        exists now0, rate0, (cs ++ [(now, rateOf (q_sample_rate q), q_body q)]).
        rewrite ingestAll_snoc. reflexivity.
      * exists now, (rateOf (q_sample_rate q)),
          [(now, rateOf (q_sample_rate q), q_body q)]. reflexivity.
    + exists now, (rateOf qrate), []. reflexivity.
  - eapply IH, Hs.
Qed.

(** [rmsActiveTime] is the running floating-point sum of the durations of
    exactly the chunks classified active. *)
Lemma ingestAll_rmsActiveTime chunks : forall s,
  rmsActiveTime (ingestAll chunks s)
  = fold_left (fun acc c => if isActive (calcRMS c.2)
                            then (acc + chunkMs c.2 c.1.2)%float else acc)
      chunks (rmsActiveTime s).
Proof.
  induction chunks as [|c cs IH]; intros s; [reflexivity|].
  unfold ingestAll in *. cbn [fold_left]. rewrite IH. f_equal.
  unfold ingest. destruct (isActive (calcRMS c.2)); [reflexivity|].
  destruct (negb (startedTalking s) || (rmsActiveTime s <? WARMUP_MS)%float); reflexivity.
Qed.

(** ** Finalize: at most once, and failures *)

Lemma countWrites_app id fx1 fx2 :
  countWrites id (fx1 ++ fx2) = (countWrites id fx1 + countWrites id fx2)%nat.
Proof. unfold countWrites. rewrite List.filter_app, length_app. reflexivity. Qed.

Lemma countWrites_unlinkFx id p st : countWrites id (unlinkFx p st) = 0%nat.
Proof. destruct (unlinkFx_cases p st) as [E|E]; rewrite E; reflexivity. Qed.

Lemma step_getFinalize_present SILENCE_MS now q st s :
  sessions st !! idOf q = Some s ->
  step SILENCE_MS now (GetFinalize q) st
  = ((finalizeAndTranscribe now (idOf q) (tick now st)).1.2,
     finalizeFx now (idOf q) (tick now st) ++ [Respond Finalizing]).
Proof.
  intros H. rewrite step_getFinalize.
  rewrite (getFinalize_present now q (tick now st) s H). reflexivity.
Qed.

Lemma countWrites_resume id now jb o st :
  countWrites id (finalizeResume now jb o st).2
  = (if negb (failed o) && String.eqb id (job_id jb) then 1 else 0)%nat.
Proof.
  destruct o as [| |json]; [rewrite resume_failed by reflexivity
                           |rewrite resume_failed by reflexivity
                           |rewrite resume_parsed]; cbn [fst snd failed negb andb].
  - change (LogError (job_id jb) :: unlinkFx (job_file jb) st)
      with ([LogError (job_id jb)] ++ unlinkFx (job_file jb) st).
    rewrite countWrites_app, countWrites_unlinkFx. reflexivity.
  - change (LogError (job_id jb) :: unlinkFx (job_file jb) st)
      with ([LogError (job_id jb)] ++ unlinkFx (job_file jb) st).
    rewrite countWrites_app, countWrites_unlinkFx. reflexivity.
  - rewrite countWrites_app, countWrites_unlinkFx. unfold countWrites. cbn.
    destruct (String.eqb id (job_id jb)); reflexivity.
Qed.

(** C6, as the code has it.  Two manual finalize calls in a row for the
    id of a stored session.  The first removes the session, whatever
    follows: a session without audio is only logged, a session with audio
    is written to its scratch file and sent to the provider, and when the
    file cannot be written the call is rejected with nothing sent.  The
    second call finds no session, answers 404 and leaves the state as the
    due timers left it.  Neither call writes a transcript.  When the
    provider call of the first finalize settles, there is exactly one
    [transcripts.set] for the id if the call was started and the provider
    answered with a body, and none otherwise. *)
Theorem finalize_twice_at_most_one_write SILENCE_MS st q s now1 now2 now3 o :
  sessions st !! idOf q = Some s ->
  let id := idOf q in
  let started := match audio s with
                 | [] => false
                 | _ :: _ => writable st (id, now1)
                 end in
  let r1 := step SILENCE_MS now1 (GetFinalize q) st in
  let r2 := step SILENCE_MS now2 (GetFinalize q) r1.1 in
  let r3 := step SILENCE_MS now3 (ProviderSettles (length (inflight st)) o) r2.1 in
  sessions r1.1 !! id = None
  /\ transcripts r1.1 = transcripts (tick now1 st)
  /\ r1.2 = match audio s with
            | [] => [LogNoAudio id]
            | _ :: _ =>
                if writable st (id, now1)
                then [WriteFile (id, now1) (concat (audio s));
                      Fetch (sampleRate s) (concat (audio s))]
                else [UnhandledRejection]
            end ++ [Respond Finalizing]
  /\ inflight r1.1 = inflight st ++ (if started then [startedJob now1 id s] else [])
  /\ getFinalize now2 q r1.1 = (Ok tt, r1.1, [Respond NoActiveSession])
  /\ r2 = (tick now2 r1.1, [Respond NoActiveSession])
  /\ sessions r2.1 = sessions r1.1
  /\ countWrites id (r1.2 ++ r2.2) = 0%nat
  /\ countWrites id (r1.2 ++ r2.2 ++ r3.2)
     = (if started && negb (failed o) then 1 else 0)%nat
  /\ (forall json, started = true -> o = Parsed json ->
        transcripts r3.1 !! id = Some (transcriptOf json)).
Proof.
  intros Hs id started r1 r2 r3. subst id.
  set (id := idOf q) in *.
  assert (Hs1 : sessions (tick now1 st) !! id = Some s) by exact Hs.
  assert (E1 : r1 = ((finalizeAndTranscribe now1 id (tick now1 st)).1.2,
                     finalizeFx now1 id (tick now1 st) ++ [Respond Finalizing]))
    by apply (step_getFinalize_present _ _ _ _ _ Hs).
  assert (S1 : sessions r1.1 !! id = None).
  { rewrite E1. cbn [fst]. rewrite finalize_sessions. apply lookup_delete_eq. }
  assert (G2 : getFinalize now2 q r1.1 = (Ok tt, r1.1, [Respond NoActiveSession]))
    by (apply getFinalize_absent; exact S1).
  assert (E2 : r2 = (tick now2 r1.1, [Respond NoActiveSession])).
  { subst r2. rewrite step_getFinalize. rewrite getFinalize_absent; [reflexivity|].
    rewrite tick_sessions. exact S1. }
  assert (I2 : inflight r2.1 = inflight r1.1) by (rewrite E2; reflexivity).
  assert (Cases :
    (started = false /\ inflight r1.1 = inflight st
     /\ (r1.2 = [LogNoAudio id; Respond Finalizing] /\ audio s = []
         \/ r1.2 = [UnhandledRejection; Respond Finalizing] /\ audio s <> []
            /\ writable st (id, now1) = false))
    \/ (started = true /\ audio s <> [] /\ writable st (id, now1) = true
        /\ r1 = (withInflight (inflight st ++ [startedJob now1 id s])
                   (withFiles (<[(id, now1) := concat (audio s)]> (files st))
                      (withSessions (delete id (sessions st)) (tick now1 st))),
                 [WriteFile (id, now1) (concat (audio s));
                  Fetch (sampleRate s) (concat (audio s)); Respond Finalizing]))).
  { rewrite E1. cbn [fst snd]. subst started.
    destruct (list_eq_nil_dec (audio s)) as [Ea|Ea].
    - left. rewrite (finalize_empty _ _ _ _ Hs1 Ea), (finalizeFx_empty _ _ _ _ Hs1 Ea).
      rewrite Ea. auto.
    - destruct (writable st (id, now1)) eqn:W.
      + right. rewrite (finalize_started _ _ _ _ Hs1 Ea W), (finalizeFx_started _ _ _ _ Hs1 Ea W).
        destruct (audio s); [contradiction|]. auto.
      + left. rewrite (finalize_refused _ _ _ _ Hs1 Ea W), (finalizeFx_refused _ _ _ _ Hs1 Ea W).
        destruct (audio s); [contradiction|]. auto 6. }
  split; [exact S1|]. split; [rewrite E1; apply finalize_transcripts|].
  destruct Cases as [(St & I1 & Fx)|(St & Ea & W & R1)].
  - (* no provider call was started *)
    assert (E3 : r3 = (tick now3 r2.1, [])).
    { subst r3. apply step_provider_none. rewrite I2, I1.
      apply lookup_ge_None_2. lia. }
    rewrite St, I1, E3, E2, app_nil_r. cbn [fst snd andb].
    assert (Fx' : r1.2 = match audio s with
                         | [] => [LogNoAudio id]
                         | _ :: _ => if writable st (id, now1)
                             then [WriteFile (id, now1) (concat (audio s));
                                   Fetch (sampleRate s) (concat (audio s))]
                             else [UnhandledRejection]
                         end ++ [Respond Finalizing]).
    { destruct Fx as [[F Ea]|(F & Ea & W)]; rewrite F.
      - rewrite Ea. reflexivity.
      - rewrite W. destruct (audio s); [contradiction|reflexivity]. }
    split; [exact Fx'|]. split; [reflexivity|]. split; [exact G2|].
    split; [reflexivity|]. split; [reflexivity|].
    assert (C : countWrites id (r1.2 ++ [Respond NoActiveSession]) = 0%nat).
    { destruct Fx as [[F _]|(F & _)]; rewrite F; reflexivity. }
    split; [exact C|]. split; [rewrite app_nil_r; exact C|].
    intros json H. discriminate H.
  - (* the provider call was started *)
    assert (I1 : inflight r1.1 = inflight st ++ [startedJob now1 id s])
      by (rewrite R1; reflexivity).
    assert (Hl : inflight r2.1 !! length (inflight st) = Some (startedJob now1 id s)).
    { rewrite I2, I1. apply list_lookup_middle. reflexivity. }
    assert (E3 : r3 = ((finalizeResume now3 (startedJob now1 id s) o
                          (withInflight (inflight st) (tick now3 r2.1))).1.2,
                       (finalizeResume now3 (startedJob now1 id s) o
                          (withInflight (inflight st) (tick now3 r2.1))).2)).
    { subst r3. rewrite (step_provider_some _ _ _ _ _ _ Hl). cbn zeta. rewrite I2, I1.
      rewrite take_app_length, drop_ge by (rewrite length_app; cbn; lia).
      rewrite app_nil_r. reflexivity. }
    rewrite St, I1. cbn [andb].
    assert (Fx1 : r1.2 = [WriteFile (id, now1) (concat (audio s));
                          Fetch (sampleRate s) (concat (audio s)); Respond Finalizing])
      by (rewrite R1; reflexivity).
    split.
    { rewrite Fx1, W. destruct (audio s); [contradiction|reflexivity]. }
    split; [reflexivity|]. split; [exact G2|]. split; [exact E2|].
    split; [rewrite E2; reflexivity|].
    assert (C : countWrites id (r1.2 ++ r2.2) = 0%nat) by (rewrite Fx1, E2; reflexivity).
    split; [exact C|]. split.
    + rewrite app_assoc, countWrites_app, C, E3. cbn [snd].
      rewrite countWrites_resume. cbn [job_id startedJob].
      rewrite String.eqb_refl, andb_true_r. reflexivity.
    + intros json _ ->. rewrite E3, resume_parsed. cbn. apply lookup_insert_eq.
Qed.

Lemma finalize_twice_at_most_one_write_witness :
  sessions (step (Some 1200) 0
       (PostStream {| q_id := Some "s1"; q_sample_rate := None; q_body := [xff; x7f] |})
       initial).1 !! idOf (Some "s1")
     = Some {| audio := [[xff; x7f]]; lastHeard := 0; startedTalking := true;
               rmsActiveTime := 0.0625; sampleRate := 16000 |}
  /\ sessions (step (Some 1200) 10 (GetFinalize (Some "s1"))
        (step (Some 1200) 0
          (PostStream {| q_id := Some "s1"; q_sample_rate := None; q_body := [xff; x7f] |})
          initial).1).1 !! idOf (Some "s1") = None.
Proof.
  assert (S : sessions (step (Some 1200) 0
       (PostStream {| q_id := Some "s1"; q_sample_rate := None; q_body := [xff; x7f] |})
       initial).1 !! idOf (Some "s1")
     = Some {| audio := [[xff; x7f]]; lastHeard := 0; startedTalking := true;
               rmsActiveTime := 0.0625; sampleRate := 16000 |})
    by (vm_compute; reflexivity).
  split; [exact S|].
  exact (proj1 (finalize_twice_at_most_one_write (Some 1200) _ (Some "s1") _ 10 20 30
           (Parsed JNull) S)).
Defined.

(** C6 as stated fails: two manual finalize calls in a row need not
    produce a transcript write.  A session created by a request whose body
    was left unparsed holds no audio: the first call logs and returns, and
    no provider call is pending.  A session whose id makes the scratch file
    name invalid is removed by the first call, which is then rejected when
    it writes the file: nothing is sent.  And when the provider call
    fails, nothing is written either. *)
Lemma finalize_twice_no_write :
  run (Some 1200)
    [(0, PostStreamUnparsed (Some "s1") None);
     (10, GetFinalize (Some "s1"));
     (20, GetFinalize (Some "s1"))] initial
  = (withSessions ∅ initial,
     [UnhandledRejection; LogNoAudio "s1"; Respond Finalizing; Respond NoActiveSession])
  /\ (run (Some 1200)
       [(0, PostStream {| q_id := Some "a/b"; q_sample_rate := None; q_body := [xff; x7f] |});
        (10, GetFinalize (Some "a/b"));
        (20, GetFinalize (Some "a/b"))]
       (withWritable (fun p => negb (String.eqb p.1 "a/b")) initial)).2
     = [Respond (StreamOk (calcRMS [xff; x7f])); UnhandledRejection; Respond Finalizing;
        Respond NoActiveSession]
  /\ inflight (run (Some 1200)
       [(0, PostStream {| q_id := Some "a/b"; q_sample_rate := None; q_body := [xff; x7f] |});
        (10, GetFinalize (Some "a/b"));
        (20, GetFinalize (Some "a/b"))]
       (withWritable (fun p => negb (String.eqb p.1 "a/b")) initial)).1 = []
  /\ (run (Some 1200)
       [(0, PostStream {| q_id := Some "s1"; q_sample_rate := None; q_body := [xff; x7f] |});
        (10, GetFinalize (Some "s1"));
        (20, GetFinalize (Some "s1"));
        (30, ProviderSettles 0 FetchRejected)] initial).2
     = [Respond (StreamOk (calcRMS [xff; x7f]));
        WriteFile ("s1", 10) [xff; x7f]; Fetch 16000 [xff; x7f]; Respond Finalizing;
        Respond NoActiveSession;
        LogError "s1"; Unlink ("s1", 10)].
Proof. repeat split; vm_compute; reflexivity. Qed.

(** C7.  When the provider call of a pending finalize fails ([fetch]
    rejects, or the response body does not parse), the continuation ends
    normally: the error is logged, no transcript is stored and no deletion
    is scheduled, the session store is untouched (the session is not put
    back), nothing is thrown to the event loop, and the scratch file is
    gone. *)
Theorem provider_failure_swallowed SILENCE_MS now n o st jb :
  inflight st !! n = Some jb ->
  failed o = true ->
  let r := step SILENCE_MS now (ProviderSettles n o) st in
  (forall st', (finalizeResume now jb o st').1.1 = Ok tt)
  /\ transcripts r.1 = transcripts (tick now st)
  /\ timers r.1 = timers (tick now st)
  /\ sessions r.1 = sessions st
  /\ files r.1 = delete (job_file jb) (files st)
  /\ files r.1 !! job_file jb = None
  /\ r.2 = LogError (job_id jb) :: unlinkFx (job_file jb) st
  /\ (is_Some (files st !! job_file jb) -> (Unlink (job_file jb) ∈ r.2))
  /\ (UnhandledRejection ∉ r.2)
  /\ countWrites (job_id jb) r.2 = 0%nat.
Proof.
  intros Hj Hf r. subst r.
  rewrite (step_provider_some _ _ _ _ _ _ Hj). cbn zeta.
  rewrite resume_failed by exact Hf. cbn [fst snd].
  split; [intros st'; apply resume_total|].
  assert (U : unlinkFx (job_file jb)
          (withInflight (take n (inflight st) ++ drop (S n) (inflight st)) (tick now st))
          = unlinkFx (job_file jb) st) by reflexivity.
  rewrite U. repeat split.
  - cbn. apply lookup_delete_eq.
  - intros [data Hd]. unfold unlinkFx. rewrite Hd. not_among.
  - destruct (unlinkFx_cases (job_file jb) st) as [E|E]; rewrite E; not_among.
  - change (LogError (job_id jb) :: unlinkFx (job_file jb) st)
      with ([LogError (job_id jb)] ++ unlinkFx (job_file jb) st).
    rewrite countWrites_app, countWrites_unlinkFx. reflexivity.
Qed.

Lemma provider_failure_swallowed_witness :
  inflight (run (Some 1200)
      [(0, PostStream {| q_id := Some "s1"; q_sample_rate := None; q_body := [xff; x7f] |});
       (10, GetFinalize (Some "s1"))] initial).1 !! 0%nat
  = Some {| job_id := "s1"; job_rate := 16000; job_file := ("s1", 10);
            job_body := [xff; x7f] |}
  /\ failed FetchRejected = true
  /\ transcripts (step (Some 1200) 250 (ProviderSettles 0 FetchRejected)
        (run (Some 1200)
          [(0, PostStream {| q_id := Some "s1"; q_sample_rate := None; q_body := [xff; x7f] |});
           (10, GetFinalize (Some "s1"))] initial).1).1
      = transcripts (tick 250 (run (Some 1200)
          [(0, PostStream {| q_id := Some "s1"; q_sample_rate := None; q_body := [xff; x7f] |});
           (10, GetFinalize (Some "s1"))] initial).1).
Proof.
  assert (J : inflight (run (Some 1200)
      [(0, PostStream {| q_id := Some "s1"; q_sample_rate := None; q_body := [xff; x7f] |});
       (10, GetFinalize (Some "s1"))] initial).1 !! 0%nat
    = Some {| job_id := "s1"; job_rate := 16000; job_file := ("s1", 10);
              job_body := [xff; x7f] |}) by (vm_compute; reflexivity).
  split; [exact J|]. split; [reflexivity|].
  exact (proj1 (proj2 (provider_failure_swallowed (Some 1200) 250 0 FetchRejected _ _
                         J eq_refl))).
Defined.

(** ** Timers *)

Lemma fold_delete_lookup (l : list (Z * string)) : forall (m : gmap string jsval) i,
  fold_left (fun m t => delete t.2 m) l m !! i
  = if decide (i ∈ map snd l) then None else m !! i.
Proof.
  induction l as [|[d j] l IH]; intros m i; cbn [fold_left map snd].
  - rewrite decide_False by apply not_elem_of_nil. reflexivity.
  - rewrite IH. destruct (decide (i ∈ map snd l)) as [Hi|Hi].
    + rewrite decide_True by (apply elem_of_cons; auto). reflexivity.
    + destruct (decide (i = j)) as [->|Hne].
      * rewrite decide_True by (apply elem_of_cons; auto). apply lookup_delete_eq.
      * rewrite decide_False by (rewrite elem_of_cons; tauto).
        apply lookup_delete_ne. congruence.
Qed.

Lemma tick_timers now st d i :
  (d, i) ∈ timers (tick now st) <-> (d, i) ∈ timers st /\ now < d.
Proof.
  cbn [tick timers withTimers]. rewrite list_elem_of_In, List.filter_In, <- list_elem_of_In.
  unfold isDue. cbn [fst]. rewrite negb_true_iff, Z.leb_gt. reflexivity.
Qed.

Lemma tick_lookup now st i :
  transcripts (tick now st) !! i
  = if decide (i ∈ map snd (List.filter (isDue now) (timers st)))
    then None else transcripts st !! i.
Proof. cbn [tick transcripts withTimers withTranscripts]. apply fold_delete_lookup. Qed.

Lemma due_elem now st i :
  i ∈ map snd (List.filter (isDue now) (timers st))
  <-> exists d, (d, i) ∈ timers st /\ d <= now.
Proof.
  rewrite list_elem_of_In, in_map_iff. split.
  - intros [[d j] [E H]]. cbn in E. subst j. apply List.filter_In in H.
    destruct H as [H1 H2]. unfold isDue in H2. cbn in H2. apply Z.leb_le in H2.
    exists d. rewrite list_elem_of_In. auto.
  - intros [d [H1 H2]]. exists (d, i). split; [reflexivity|].
    apply List.filter_In. rewrite <- list_elem_of_In. split; [exact H1|].
    unfold isDue. cbn. apply Z.leb_le. exact H2.
Qed.

Lemma tick_lookup_keep now st i :
  (forall d, (d, i) ∈ timers st -> now < d) ->
  transcripts (tick now st) !! i = transcripts st !! i.
Proof.
  intros H. rewrite tick_lookup. apply decide_False.
  rewrite due_elem. intros [d [H1 H2]]. specialize (H d H1). lia.
Qed.

Lemma tick_lookup_fired now st i d :
  (d, i) ∈ timers st -> d <= now -> transcripts (tick now st) !! i = None.
Proof.
  intros H1 H2. rewrite tick_lookup. apply decide_True. rewrite due_elem. eauto.
Qed.

Lemma tick_lookup_Some now st i t :
  transcripts (tick now st) !! i = Some t -> transcripts st !! i = Some t.
Proof. rewrite tick_lookup. destruct (decide _); [discriminate|auto]. Qed.

Lemma tick_lookup_None now st i :
  transcripts st !! i = None -> transcripts (tick now st) !! i = None.
Proof. rewrite tick_lookup. destruct (decide _); auto. Qed.

(** ** What a turn does to one id's transcript and timers *)

Lemma step_frame SILENCE_MS now e st id :
  ~ writesTo id e st ->
  transcripts (step SILENCE_MS now e st).1 !! id = transcripts (tick now st) !! id
  /\ forall d, (d, id) ∈ timers (step SILENCE_MS now e st).1 <-> (d, id) ∈ timers (tick now st).
Proof.
  intros NW. destruct e as [q|q|q|n o|qid qrate].
  - rewrite step_postStream, postStream_closed. cbn [fst snd].
    destruct (silenceDetected _ _ _).
    + rewrite finalize_transcripts, finalize_timers. cbn. tauto.
    + cbn. tauto.
  - rewrite step_getTranscript. cbn [fst]. tauto.
  - rewrite step_getFinalize.
    destruct (sessions (tick now st) !! idOf q) as [s|] eqn:E.
    + rewrite (getFinalize_present _ _ _ _ E). cbn [fst snd].
      rewrite finalize_transcripts, finalize_timers. tauto.
    + rewrite (getFinalize_absent _ _ _ E). cbn [fst snd]. tauto.
  - destruct (inflight st !! n) as [jb|] eqn:E.
    + rewrite (step_provider_some _ _ _ _ _ _ E). cbn zeta.
      destruct o as [| |json].
      * rewrite resume_failed by reflexivity. cbn. tauto.
      * rewrite resume_failed by reflexivity. cbn. tauto.
      * assert (Hne : job_id jb <> id).
        { intros Hid. apply NW. cbn. eauto. }
        rewrite resume_parsed. cbn [fst snd]. cbn [transcripts timers withFiles withTimers withTranscripts withInflight].
        rewrite lookup_insert_ne by exact Hne. split; [reflexivity|].
        intros d. rewrite elem_of_app, elem_of_cons, elem_of_nil.
        split; [|tauto]. intros [H|[H|[]]]; [exact H|]. congruence.
    + rewrite (step_provider_none _ _ _ _ _ E). tauto.
  - rewrite step_postUnparsed. cbn [fst].
    destruct (sessions st !! idOf qid); cbn; tauto.
Qed.

Lemma transcriptOf_cases json :
  transcriptOf json = JStr "" \/ truthy (transcriptOf json) = true.
Proof.
  unfold transcriptOf.
  destruct (truthy (prop "transcript" _)) eqn:E; [right; exact E | left; reflexivity].
Qed.

Section Lifetime.
Variable SILENCE_MS : option Z.
Variables (id : string) (v : jsval) (D : Z).

Lemma run_keeps : forall evs st,
  transcripts st !! id = Some v ->
  (forall d, (d, id) ∈ timers st -> d = D) ->
  noWriteTo SILENCE_MS id evs st ->
  Forall (fun e => e.1 < D) evs ->
  transcripts (run SILENCE_MS evs st).1 !! id = Some v
  /\ (forall d, (d, id) ∈ timers (run SILENCE_MS evs st).1 -> d = D).
Proof.
  induction evs as [|[now e] rest IH]; intros st Hv Ht Hn Hb; [cbn; auto|].
  cbn [noWriteTo] in Hn. destruct Hn as [Hw Hn].
  apply Forall_cons in Hb. destruct Hb as [Hnow Hb]. cbn [fst] in Hnow.
  rewrite run_cons. cbn [fst].
  destruct (step_frame SILENCE_MS now e st id Hw) as [F1 F2].
  apply IH; [| |exact Hn|exact Hb].
  - rewrite F1, tick_lookup_keep; [exact Hv|].
    intros d Hd. rewrite (Ht d Hd). exact Hnow.
  - intros d Hd. apply F2, tick_timers in Hd. apply Ht, Hd.
Qed.

Lemma run_expires : forall evs st,
  (forall d, (d, id) ∈ timers st -> d = D) ->
  transcripts st !! id = None \/ (D, id) ∈ timers st ->
  noWriteTo SILENCE_MS id evs st ->
  (forall d, (d, id) ∈ timers (run SILENCE_MS evs st).1 -> d = D)
  /\ (transcripts (run SILENCE_MS evs st).1 !! id = None
      \/ (D, id) ∈ timers (run SILENCE_MS evs st).1).
Proof.
  induction evs as [|[now e] rest IH]; intros st Ht Hc Hn; [cbn; auto|].
  cbn [noWriteTo] in Hn. destruct Hn as [Hw Hn].
  rewrite run_cons. cbn [fst].
  destruct (step_frame SILENCE_MS now e st id Hw) as [F1 F2].
  apply IH; [| |exact Hn].
  - intros d Hd. apply F2, tick_timers in Hd. apply Ht, Hd.
  - rewrite F1. destruct Hc as [Hc|Hc].
    + left. apply tick_lookup_None, Hc.
    + destruct (Z_lt_le_dec now D) as [Hlt|Hle].
      * right. apply F2, tick_timers. auto.
      * left. eapply tick_lookup_fired; eauto.
Qed.
End Lifetime.

(** C4, as the code has it.  Let the provider's answer at time [T] store
    a non-empty transcript for an id that has no deletion pending from an
    earlier write, and let no later event store a transcript for that id.
    Then a read of the id at a time [t < T + 5000] that follows the
    intervening events returns the stored text with [ready = true], and a
    read at any time [t >= T + 5000] finds the entry removed and returns
    [ready = false]. *)
Theorem transcript_lifetime SILENCE_MS st n jb json T (evs : list (Z * event)) t q :
  inflight st !! n = Some jb ->
  idOf q = job_id jb ->
  transcriptOf json <> JStr "" ->
  (forall d, (d, job_id jb) ∉ timers (tick T st)) ->
  let st1 := (step SILENCE_MS T (ProviderSettles n (Parsed json)) st).1 in
  noWriteTo SILENCE_MS (job_id jb) evs st1 ->
  let st2 := (run SILENCE_MS evs st1).1 in
  transcripts st1 !! job_id jb = Some (transcriptOf json)
  /\ (Forall (fun e => e.1 <= t) evs -> t < T + TRANSCRIPT_TTL ->
      (step SILENCE_MS t (GetTranscript q) st2).2
      = [Respond (TranscriptBody (transcriptOf json) true)])
  /\ (T + TRANSCRIPT_TTL <= t ->
      (step SILENCE_MS t (GetTranscript q) st2).2
      = [Respond (TranscriptBody (JStr "") false)]
      /\ transcripts (step SILENCE_MS t (GetTranscript q) st2).1 !! job_id jb = None).
Proof.
  intros Hj Hq Hv Hfree st1 Hn st2.
  set (id := job_id jb) in *. set (v := transcriptOf json) in *.
  set (D := T + TRANSCRIPT_TTL).
  assert (E1 : transcripts st1 !! id = Some v
               /\ (forall d, (d, id) ∈ timers st1 <-> d = D)).
  { subst st1. rewrite (step_provider_some _ _ _ _ _ _ Hj). cbn zeta.
    rewrite resume_parsed. cbn [fst snd].
    cbn [transcripts timers withFiles withTimers withTranscripts withInflight].
    fold id v D. split; [apply lookup_insert_eq|].
    intros d. rewrite elem_of_app, elem_of_cons, elem_of_nil. split.
    - intros [H|[H|[]]]; [exfalso; eapply Hfree, H | congruence].
    - intros ->. auto. }
  destruct E1 as [Hs1 Ht1].
  assert (Htruthy : truthy v = true).
  { destruct (transcriptOf_cases json) as [E|E]; [contradiction|exact E]. }
  split; [exact Hs1|]. split.
  - intros Hb Hlt. rewrite step_getTranscript. cbn [snd]. rewrite Hq. fold id.
    destruct (run_keeps SILENCE_MS id v D evs st1 Hs1) as [K1 K2]; [intros d; apply Ht1|exact Hn| |].
    { eapply Forall_impl; [exact Hb|]. intros e He. cbn in He. lia. }
    fold st2 in K1, K2. rewrite tick_lookup_keep.
    + rewrite K1, Htruthy. reflexivity.
    + intros d Hd. rewrite (K2 d Hd). exact Hlt.
  - intros Hge. rewrite step_getTranscript. cbn [fst snd]. rewrite Hq. fold id.
    destruct (run_expires SILENCE_MS id D evs st1) as [X1 X2];
      [intros d; apply Ht1 | right; apply Ht1; reflexivity | exact Hn |].
    fold st2 in X1, X2.
    assert (Hnone : transcripts (tick t st2) !! id = None).
    { destruct X2 as [X2|X2]; [apply tick_lookup_None, X2|].
      eapply tick_lookup_fired; eauto. }
    rewrite Hnone. auto.
Qed.

Lemma transcript_lifetime_witness :
  inflight (run (Some 1200)
      [(0, PostStream {| q_id := Some "s1"; q_sample_rate := None; q_body := [xff; x7f] |});
       (10, GetFinalize (Some "s1"))] initial).1 !! 0%nat
  = Some {| job_id := "s1"; job_rate := 16000; job_file := ("s1", 10);
            job_body := [xff; x7f] |}
  /\ transcripts (step (Some 1200) 20 (ProviderSettles 0 (Parsed (JObj [("results",
              JObj [("channels", JArr [JObj [("alternatives",
                JArr [JObj [("transcript", JStr "hello")]])]])])])))
        (run (Some 1200)
          [(0, PostStream {| q_id := Some "s1"; q_sample_rate := None; q_body := [xff; x7f] |});
           (10, GetFinalize (Some "s1"))] initial).1).1 !! "s1"
     = Some (transcriptOf (JObj [("results",
              JObj [("channels", JArr [JObj [("alternatives",
                JArr [JObj [("transcript", JStr "hello")]])]])])])).
Proof.
  assert (J : inflight (run (Some 1200)
      [(0, PostStream {| q_id := Some "s1"; q_sample_rate := None; q_body := [xff; x7f] |});
       (10, GetFinalize (Some "s1"))] initial).1 !! 0%nat
    = Some {| job_id := "s1"; job_rate := 16000; job_file := ("s1", 10);
              job_body := [xff; x7f] |}) by (vm_compute; reflexivity).
  split; [exact J|].
  refine (proj1 (transcript_lifetime (Some 1200) _ 0 _
     (JObj [("results", JObj [("channels", JArr [JObj [("alternatives",
                JArr [JObj [("transcript", JStr "hello")]])]])])])
     20 [] 4000 (Some "s1") J eq_refl _ _ I)).
  - vm_compute. discriminate.
  - intros d. vm_compute. apply not_elem_of_nil.
Defined.

Lemma reachable_run SILENCE_MS : forall evs st,
  reachable SILENCE_MS st -> reachable SILENCE_MS (run SILENCE_MS evs st).1.
Proof.
  induction evs as [|[now e] rest IH]; intros st R; [exact R|].
  rewrite run_cons. cbn [fst]. apply IH, reach_step, R.
Qed.

Lemma step_transcripts_lookup SILENCE_MS now e st i t :
  transcripts (step SILENCE_MS now e st).1 !! i = Some t ->
  transcripts st !! i = Some t \/ exists json, t = transcriptOf json.
Proof.
  destruct e as [q|q|q|n o|qid qrate].
  - rewrite step_postStream, postStream_closed. cbn [fst snd].
    destruct (silenceDetected _ _ _).
    + rewrite finalize_transcripts. cbn. intros H. left. eapply tick_lookup_Some, H.
    + cbn. intros H. left. eapply tick_lookup_Some, H.
  - rewrite step_getTranscript. cbn [fst]. intros H. left. eapply tick_lookup_Some, H.
  - rewrite step_getFinalize.
    destruct (sessions (tick now st) !! idOf q) as [s|] eqn:E.
    + rewrite (getFinalize_present _ _ _ _ E). cbn [fst snd].
      rewrite finalize_transcripts. intros H. left. eapply tick_lookup_Some, H.
    + rewrite (getFinalize_absent _ _ _ E). cbn [fst snd].
      intros H. left. eapply tick_lookup_Some, H.
  - destruct (inflight st !! n) as [jb|] eqn:E.
    + rewrite (step_provider_some _ _ _ _ _ _ E). cbn zeta.
      destruct o as [| |json].
      * rewrite resume_failed by reflexivity. cbn. intros H. left. eapply tick_lookup_Some, H.
      * rewrite resume_failed by reflexivity. cbn. intros H. left. eapply tick_lookup_Some, H.
      * rewrite resume_parsed. cbn [fst snd].
        cbn [transcripts timers withFiles withTimers withTranscripts withInflight].
        destruct (decide (job_id jb = i)) as [->|Hne].
        -- rewrite lookup_insert_eq. intros [= <-]. right. eauto.
        -- rewrite lookup_insert_ne by exact Hne. intros H. left. eapply tick_lookup_Some, H.
    + rewrite (step_provider_none _ _ _ _ _ E). cbn [fst].
      intros H. left. eapply tick_lookup_Some, H.
  - rewrite step_postUnparsed. cbn [fst].
    destruct (sessions st !! idOf qid); cbn; intros H; left; eapply tick_lookup_Some, H.
Qed.

Lemma reachable_transcripts SILENCE_MS st :
  reachable SILENCE_MS st ->
  forall i t, transcripts st !! i = Some t -> t = JStr "" \/ truthy t = true.
Proof.
  induction 1 as [|now e st R IH|w st R IH]; intros i t Ht.
  - cbn in Ht. rewrite lookup_empty in Ht. discriminate.
  - apply step_transcripts_lookup in Ht. destruct Ht as [Ht|[json ->]].
    + eapply IH, Ht.
    + apply transcriptOf_cases.
  - eapply IH, Ht.
Qed.

(** C2, as the code has it.  In every reachable state, a read of an id
    at time [now] leaves the state as the due timers left it, and answers
    [ready = true] with the stored text when an entry exists whose text is
    not the empty string; it answers [ready = false] with empty text when
    no entry exists, and also when the stored text is the empty string. *)
Theorem transcript_ready_iff_nonempty SILENCE_MS st now q :
  reachable SILENCE_MS st ->
  let seen := tick now st in
  let r := step SILENCE_MS now (GetTranscript q) st in
  r.1 = seen
  /\ (forall t, transcripts seen !! idOf q = Some t -> t <> JStr "" ->
        r.2 = [Respond (TranscriptBody t true)])
  /\ (transcripts seen !! idOf q = Some (JStr "") ->
        r.2 = [Respond (TranscriptBody (JStr "") false)])
  /\ (transcripts seen !! idOf q = None ->
        r.2 = [Respond (TranscriptBody (JStr "") false)]).
Proof.
  intros R seen r. subst r. rewrite step_getTranscript. cbn [fst snd]. fold seen.
  split; [reflexivity|]. split; [|split].
  - intros t Ht Hne. rewrite Ht.
    destruct (reachable_transcripts SILENCE_MS st R (idOf q) t) as [E|E].
    + eapply tick_lookup_Some, Ht.
    + contradiction.
    + rewrite E. reflexivity.
  - intros Ht. rewrite Ht. reflexivity.
  - intros Ht. rewrite Ht. reflexivity.
Qed.

Lemma transcript_ready_iff_nonempty_witness :
  reachable (Some 1200) (run (Some 1200)
      [(0, PostStream {| q_id := Some "s1"; q_sample_rate := None; q_body := [xff; x7f] |});
       (10, GetFinalize (Some "s1"));
       (20, ProviderSettles 0 (Parsed (JObj [("results",
              JObj [("channels", JArr [JObj [("alternatives",
                JArr [JObj [("transcript", JStr "hello")]])]])])])))]
      initial).1
  /\ (step (Some 1200) 30 (GetTranscript (Some "s1")) (run (Some 1200)
      [(0, PostStream {| q_id := Some "s1"; q_sample_rate := None; q_body := [xff; x7f] |});
       (10, GetFinalize (Some "s1"));
       (20, ProviderSettles 0 (Parsed (JObj [("results",
              JObj [("channels", JArr [JObj [("alternatives",
                JArr [JObj [("transcript", JStr "hello")]])]])])])))]
      initial).1).2 = [Respond (TranscriptBody (JStr "hello") true)].
Proof.
  assert (R : reachable (Some 1200) (run (Some 1200)
      [(0, PostStream {| q_id := Some "s1"; q_sample_rate := None; q_body := [xff; x7f] |});
       (10, GetFinalize (Some "s1"));
       (20, ProviderSettles 0 (Parsed (JObj [("results",
              JObj [("channels", JArr [JObj [("alternatives",
                JArr [JObj [("transcript", JStr "hello")]])]])])])))]
      initial).1) by (apply reachable_run, reach_initial).
  split; [exact R|].
  refine (proj1 (proj2 (transcript_ready_iff_nonempty (Some 1200) _ 30 (Some "s1") R))
            (JStr "hello") _ _).
  - vm_compute. reflexivity.
  - discriminate.
Defined.

(** C2 as stated fails: the provider answers with no alternatives, the
    stored text is the empty string, and a read while the entry exists
    returns [ready = false]. *)
Lemma empty_transcript_not_ready :
  transcripts (tick 30 (run (Some 1200)
      [(0, PostStream {| q_id := Some "s1"; q_sample_rate := None; q_body := [xff; x7f] |});
       (10, GetFinalize (Some "s1"));
       (20, ProviderSettles 0 (Parsed (JObj [("results",
              JObj [("channels", JArr [JObj [("alternatives", JArr [])]])])])))]
      initial).1) !! idOf (Some "s1") = Some (JStr "")
  /\ (step (Some 1200) 30 (GetTranscript (Some "s1")) (run (Some 1200)
      [(0, PostStream {| q_id := Some "s1"; q_sample_rate := None; q_body := [xff; x7f] |});
       (10, GetFinalize (Some "s1"));
       (20, ProviderSettles 0 (Parsed (JObj [("results",
              JObj [("channels", JArr [JObj [("alternatives", JArr [])]])])])))]
      initial).1).2 = [Respond (TranscriptBody (JStr "") false)].
Proof. split; vm_compute; reflexivity. Qed.

(** C4 as stated fails: a transcript is written at 1000 and overwritten
    at 4000; the deletion scheduled by the first write runs at 6000, so a
    read at 6500, inside [4000, 9000), returns [ready = false]. *)
Lemma stale_timer_deletes_fresh_transcript :
  (step (Some 1200) 4000 (ProviderSettles 0 (Parsed (JObj [("results",
       JObj [("channels", JArr [JObj [("alternatives",
         JArr [JObj [("transcript", JStr "second")]])]])])])))
     (run (Some 1200)
      [(0, PostStream {| q_id := Some "s1"; q_sample_rate := None; q_body := [xff; x7f] |});
       (10, GetFinalize (Some "s1"));
       (20, PostStream {| q_id := Some "s1"; q_sample_rate := None; q_body := [xff; x7f] |});
       (30, GetFinalize (Some "s1"));
       (1000, ProviderSettles 0 (Parsed (JObj [("results",
              JObj [("channels", JArr [JObj [("alternatives",
                JArr [JObj [("transcript", JStr "first")]])]])])])))]
      initial).1).2
  = [LogTranscript "s1" (JStr "second"); SetTranscript "s1" (JStr "second");
     SetTimeout 9000 "s1"; Unlink ("s1", 30)]
  /\ (4000 <= 6500 /\ 6500 < 4000 + TRANSCRIPT_TTL)
  /\ (step (Some 1200) 6500 (GetTranscript (Some "s1"))
       (run (Some 1200)
      [(0, PostStream {| q_id := Some "s1"; q_sample_rate := None; q_body := [xff; x7f] |});
       (10, GetFinalize (Some "s1"));
       (20, PostStream {| q_id := Some "s1"; q_sample_rate := None; q_body := [xff; x7f] |});
       (30, GetFinalize (Some "s1"));
       (1000, ProviderSettles 0 (Parsed (JObj [("results",
              JObj [("channels", JArr [JObj [("alternatives",
                JArr [JObj [("transcript", JStr "first")]])]])])])));
       (4000, ProviderSettles 0 (Parsed (JObj [("results",
              JObj [("channels", JArr [JObj [("alternatives",
                JArr [JObj [("transcript", JStr "second")]])]])])])))]
      initial).1).2
     = [Respond (TranscriptBody (JStr "") false)].
Proof. repeat split; vm_compute; try reflexivity; discriminate. Qed.

(** * Further properties of the server *)

(** ** Responses *)

Lemma responses_app fx1 fx2 : responses (fx1 ++ fx2) = responses fx1 ++ responses fx2.
Proof. unfold responses. apply omap_app. Qed.

Lemma finalizeFx_no_response now id st : responses (finalizeFx now id st) = [].
Proof.
  destruct (finalizeFx_cases now id st)
    as [[_ ->]|[(s & _ & _ & ->)|[(s & _ & _ & _ & ->)|(s & _ & _ & _ & ->)]]];
    reflexivity.
Qed.




(** ** Sessions do not interfere *)

Lemma eqb_false_ne (a b : string) : String.eqb a b = false -> a <> b.
Proof. intros H ->. rewrite String.eqb_refl in H. discriminate. Qed.

Lemma step_sessions_other SILENCE_MS now e st id :
  addresses id e = false ->
  sessions (step SILENCE_MS now e st).1 !! id = sessions st !! id.
Proof.
  intros Ha. destruct e as [q|q|q|n o|qid qrate].
  - apply eqb_false_ne in Ha.
    rewrite step_postStream, postStream_closed. cbn [fst snd].
    destruct (silenceDetected _ _ _).
    + rewrite finalize_sessions. cbn [sessions withSessions].
      rewrite lookup_delete_ne, lookup_insert_ne by exact Ha. apply (f_equal (.!! id)), tick_sessions.
    + cbn [sessions withSessions]. rewrite lookup_insert_ne by exact Ha. reflexivity.
  - rewrite step_getTranscript. reflexivity.
  - apply eqb_false_ne in Ha. rewrite step_getFinalize.
    destruct (sessions (tick now st) !! idOf q) as [s|] eqn:E.
    + rewrite (getFinalize_present _ _ _ _ E). cbn [fst snd].
      rewrite finalize_sessions, tick_sessions. apply lookup_delete_ne, Ha.
    + rewrite (getFinalize_absent _ _ _ E). reflexivity.
  - destruct (inflight st !! n) as [jb|] eqn:E.
    + rewrite (step_provider_some _ _ _ _ _ _ E).
      destruct o; [rewrite resume_failed by reflexivity
                  |rewrite resume_failed by reflexivity
                  |rewrite resume_parsed]; reflexivity.
    + rewrite (step_provider_none _ _ _ _ _ E). reflexivity.
  - apply eqb_false_ne in Ha. rewrite step_postUnparsed. cbn [fst].
    destruct (sessions st !! idOf qid); [reflexivity|].
    cbn [sessions withSessions]. rewrite lookup_insert_ne by exact Ha. reflexivity.
Qed.

(** X2.  Requests and provider answers for other ids leave a session id
    alone: its session is unchanged, and its transcript and pending
    deletions are as the due timers left them. *)
Theorem other_ids_untouched SILENCE_MS now e st id :
  addresses id e = false ->
  (forall n o jb, e = ProviderSettles n o -> inflight st !! n = Some jb -> job_id jb <> id) ->
  sessions (step SILENCE_MS now e st).1 !! id = sessions st !! id
  /\ transcripts (step SILENCE_MS now e st).1 !! id = transcripts (tick now st) !! id
  /\ (forall d, (d, id) ∈ timers (step SILENCE_MS now e st).1 <-> (d, id) ∈ timers (tick now st)).
Proof.
  intros Ha Hp. split; [apply step_sessions_other, Ha|].
  apply step_frame. destruct e as [q|q|q|n [| |json]|qid qrate]; cbn; try tauto.
  intros (jb & Hn & Hid). exact (Hp n _ jb eq_refl Hn Hid).
Qed.

Lemma other_ids_untouched_witness :
  addresses "a"
    (PostStream {| q_id := Some "b"; q_sample_rate := None; q_body := [x00; x00] |}) = false
  /\ sessions (step (Some 1200) 7
        (PostStream {| q_id := Some "b"; q_sample_rate := None; q_body := [x00; x00] |})
        (step (Some 1200) 0
          (PostStream {| q_id := Some "a"; q_sample_rate := None; q_body := [xff; x7f] |})
          initial).1).1 !! "a"
     = sessions (step (Some 1200) 0
          (PostStream {| q_id := Some "a"; q_sample_rate := None; q_body := [xff; x7f] |})
          initial).1 !! "a".
Proof.
  split; [reflexivity|].
  refine (proj1 (other_ids_untouched (Some 1200) 7
    (PostStream {| q_id := Some "b"; q_sample_rate := None; q_body := [x00; x00] |})
    _ "a" eq_refl _)).
  intros n o jb H. discriminate H.
Defined.

Lemma ingest_sampleRate now rate chunk s : sampleRate (ingest now rate chunk s) = sampleRate s.
Proof.
  unfold ingest. destruct (isActive _); [reflexivity|].
  destruct (_ || _); reflexivity.
Qed.

(** X3.  The sample rate of a session is the one of the request that
    created it: a turn of the loop that keeps a session keeps its
    [sampleRate], whatever [sample_rate] a later request carries, and a
    session that appears was created by a stream request for its id, with
    that request's rate (the request's body was read, or it was left
    unparsed). *)
Theorem sampleRate_fixed_at_creation SILENCE_MS now e st id s' :
  sessions (step SILENCE_MS now e st).1 !! id = Some s' ->
  match sessions st !! id with
  | Some s => sampleRate s' = sampleRate s
  | None => (exists q, e = PostStream q /\ idOf (q_id q) = id
                       /\ sampleRate s' = rateOf (q_sample_rate q))
            \/ (exists qid qrate, e = PostStreamUnparsed qid qrate /\ idOf qid = id
                       /\ sampleRate s' = rateOf qrate)
  end.
Proof.
  intros H. apply step_sessions_lookup in H.
  destruct H as [H|[(q & -> & Hid & ->)|(qid & qrate & -> & Hid & Hn & ->)]].
  - rewrite H. reflexivity.
  - unfold streamSession. rewrite ingest_sampleRate, tick_sessions, Hid.
    destruct (sessions st !! id); [reflexivity|].
    left. exists q. auto.
  - rewrite Hn. right. exists qid, qrate. auto.
Qed.

Lemma sampleRate_fixed_at_creation_witness :
  sessions (step (Some 1200) 5
      (PostStream {| q_id := Some "s1"; q_sample_rate := Some 8000%float; q_body := [xff; x7f] |})
      (step (Some 1200) 0
        (PostStream {| q_id := Some "s1"; q_sample_rate := None; q_body := [xff; x7f] |})
        initial).1).1 !! "s1"
  = Some {| audio := [[xff; x7f]; [xff; x7f]]; lastHeard := 5; startedTalking := true;
            rmsActiveTime := 0.1875; sampleRate := 16000 |}
  /\ match sessions (step (Some 1200) 0
        (PostStream {| q_id := Some "s1"; q_sample_rate := None; q_body := [xff; x7f] |})
        initial).1 !! "s1" with
     | Some s => 16000%float = sampleRate s
     | None => False
     end.
Proof.
  assert (H : sessions (step (Some 1200) 5
      (PostStream {| q_id := Some "s1"; q_sample_rate := Some 8000%float; q_body := [xff; x7f] |})
      (step (Some 1200) 0
        (PostStream {| q_id := Some "s1"; q_sample_rate := None; q_body := [xff; x7f] |})
        initial).1).1 !! "s1"
    = Some {| audio := [[xff; x7f]; [xff; x7f]]; lastHeard := 5; startedTalking := true;
              rmsActiveTime := 0.1875; sampleRate := 16000 |}) by (vm_compute; reflexivity).
  split; [exact H|].
  generalize (sampleRate_fixed_at_creation _ _ _ _ _ _ H).
  destruct (sessions _ !! "s1") as [s|] eqn:E.
  - intros Hs. exact Hs.
  - vm_compute in E. discriminate E.
Defined.

(** ** Scratch files *)

Lemma finalize_files now id st :
  (files (finalizeAndTranscribe now id st).1.2 = files st
   /\ inflight (finalizeAndTranscribe now id st).1.2 = inflight st)
  \/ exists s,
       files (finalizeAndTranscribe now id st).1.2 = <[(id, now) := concat (audio s)]> (files st)
       /\ inflight (finalizeAndTranscribe now id st).1.2 = inflight st ++ [startedJob now id s].
Proof.
  destruct (finalize_cases now id st)
    as [[E ->]|[(s & E & Ea & ->)|[(s & E & Ea & W & ->)|(s & E & Ea & W & ->)]]];
    [auto|auto| |auto].
  right. exists s. auto.
Qed.

Lemma finalize_owned now id st :
  filesOwned st -> filesOwned (finalizeAndTranscribe now id st).1.2.
Proof.
  intros Inv p Hp.
  destruct (finalize_files now id st) as [[Ef Ei]|(s & Ef & Ei)]; rewrite Ei; rewrite Ef in Hp.
  - apply Inv, Hp.
  - destruct (decide ((id, now) = p)) as [<-|Hne].
    + exists (startedJob now id s). split; [|reflexivity].
      apply elem_of_app. right. apply elem_of_cons. left. reflexivity.
    + rewrite lookup_insert_ne in Hp by exact Hne.
      destruct (Inv p Hp) as (jb & Hin & Hf). exists jb. split; [|exact Hf].
      apply elem_of_app. auto.
Qed.

Lemma resume_files now jb o st :
  files (finalizeResume now jb o st).1.2 = delete (job_file jb) (files st)
  /\ inflight (finalizeResume now jb o st).1.2 = inflight st.
Proof.
  destruct o; [rewrite resume_failed by reflexivity
              |rewrite resume_failed by reflexivity
              |rewrite resume_parsed]; split; reflexivity.
Qed.

Lemma step_owned SILENCE_MS now e st : filesOwned st -> filesOwned (step SILENCE_MS now e st).1.
Proof.
  intros Inv. destruct e as [q|q|q|n o|qid qrate].
  - rewrite step_postStream, postStream_closed. cbn [fst snd].
    destruct (silenceDetected _ _ _).
    + apply finalize_owned. exact Inv.
    + exact Inv.
  - rewrite step_getTranscript. exact Inv.
  - rewrite step_getFinalize.
    destruct (sessions (tick now st) !! idOf q) as [s|] eqn:E.
    + rewrite (getFinalize_present _ _ _ _ E). cbn [fst snd].
      apply finalize_owned. exact Inv.
    + rewrite (getFinalize_absent _ _ _ E). exact Inv.
  - destruct (inflight st !! n) as [jb|] eqn:E.
    + rewrite (step_provider_some _ _ _ _ _ _ E). cbn zeta. cbn [fst snd].
      set (st1 := withInflight _ _).
      destruct (resume_files now jb o st1) as [Ef Ei].
      intros p Hp. rewrite Ei. rewrite Ef in Hp.
      apply lookup_delete_is_Some in Hp. destruct Hp as [Hne Hp].
      destruct (Inv p Hp) as (jb' & Hin & Hf).
      exists jb'. split; [|exact Hf]. subst st1. cbn [inflight withInflight].
      rewrite <- (take_drop_middle _ _ _ E) in Hin.
      rewrite elem_of_app, elem_of_cons in Hin. rewrite elem_of_app.
      destruct Hin as [Hin|[->|Hin]]; [auto|congruence|auto].
    + rewrite (step_provider_none _ _ _ _ _ E). exact Inv.
  - rewrite step_postUnparsed. cbn [fst].
    destruct (sessions st !! idOf qid); exact Inv.
Qed.

(** X4.  Scratch files do not leak: in every state the server can reach,
    each scratch file is the [tmpFile] of a finalize call that still awaits
    the provider, so that no scratch file is left once every call has
    settled.  (Scratch files are told apart by the id and the clock reading
    in their names.) *)
Theorem scratch_files_belong_to_pending_calls SILENCE_MS st :
  reachable SILENCE_MS st ->
  (forall p, is_Some (files st !! p) -> exists jb, jb ∈ inflight st /\ job_file jb = p)
  /\ (inflight st = [] -> files st = ∅).
Proof.
  intros R.
  assert (Inv : filesOwned st).
  { induction R as [|now e st R IH|w st R IH].
    - intros p [x Hp]. cbn in Hp. rewrite lookup_empty in Hp. discriminate.
    - apply step_owned, IH.
    - exact IH. }
  split; [exact Inv|].
  intros Hi. apply map_empty. intros p.
  destruct (files st !! p) eqn:E; [|reflexivity].
  destruct (Inv p) as (jb & Hin & _); [rewrite E; eauto|].
  rewrite Hi in Hin. apply elem_of_nil in Hin. contradiction.
Qed.

Lemma scratch_files_belong_to_pending_calls_witness :
  reachable (Some 1200) (run (Some 1200)
      [(0, PostStream {| q_id := Some "s1"; q_sample_rate := None; q_body := [xff; x7f] |});
       (10, GetFinalize (Some "s1"));
       (20, ProviderSettles 0 FetchRejected)] initial).1
  /\ files (run (Some 1200)
      [(0, PostStream {| q_id := Some "s1"; q_sample_rate := None; q_body := [xff; x7f] |});
       (10, GetFinalize (Some "s1"));
       (20, ProviderSettles 0 FetchRejected)] initial).1 = ∅.
Proof.
  assert (R : reachable (Some 1200) (run (Some 1200)
      [(0, PostStream {| q_id := Some "s1"; q_sample_rate := None; q_body := [xff; x7f] |});
       (10, GetFinalize (Some "s1"));
       (20, ProviderSettles 0 FetchRejected)] initial).1)
    by (apply reachable_run, reach_initial).
  split; [exact R|].
  apply (proj2 (scratch_files_belong_to_pending_calls (Some 1200) _ R)).
  vm_compute. reflexivity.
Defined.

(** ** Expiry of transcripts *)

Lemma tick_pending now D st : deletionsPending D st -> deletionsPending D (tick now st).
Proof.
  intros [Ht Hd]. split.
  - intros id [t Hs].
    destruct (Ht id) as [d Hin]; [exists t; eapply tick_lookup_Some, Hs|].
    exists d. apply tick_timers. split; [exact Hin|].
    destruct (Z.lt_ge_cases now d) as [Hlt|Hge]; [exact Hlt|].
    rewrite (tick_lookup_fired now st id d Hin) in Hs by lia. discriminate.
  - intros d id Hin. apply tick_timers in Hin. eapply Hd, Hin.
Qed.

Lemma step_pending SILENCE_MS now e D st :
  now + TRANSCRIPT_TTL <= D ->
  deletionsPending D st -> deletionsPending D (step SILENCE_MS now e st).1.
Proof.
  intros Hnow Inv. apply (tick_pending now) in Inv.
  assert (Frame : forall e', (forall id, ~ writesTo id e' st) ->
            deletionsPending D (step SILENCE_MS now e' st).1).
  { intros e' NW. destruct Inv as [Ht Hd]. split.
    - intros id Hs. destruct (step_frame SILENCE_MS now e' st id (NW id)) as [Et Ed].
      rewrite Et in Hs. destruct (Ht id Hs) as [d Hin]. exists d. apply Ed, Hin.
    - intros d id Hin. destruct (step_frame SILENCE_MS now e' st id (NW id)) as [Et Ed].
      apply Ed in Hin. eapply Hd, Hin. }
  destruct e as [q|q|q|n o|qid qrate]; try (apply Frame; intros id; cbn; tauto).
  destruct (inflight st !! n) as [jb|] eqn:E.
  - destruct o as [| |json]; try (apply Frame; intros id; cbn; tauto).
    rewrite (step_provider_some _ _ _ _ _ _ E). cbn zeta.
    rewrite resume_parsed. cbn [fst snd].
    destruct Inv as [Ht Hd]. split.
    + intros id Hs. cbn [transcripts timers withFiles withTimers withTranscripts withInflight] in *.
      destruct (decide (job_id jb = id)) as [<-|Hne].
      * exists (now + TRANSCRIPT_TTL). apply elem_of_app. right. apply elem_of_cons. auto.
      * rewrite lookup_insert_ne in Hs by exact Hne.
        destruct (Ht id Hs) as [d Hin]. exists d. apply elem_of_app. auto.
    + intros d id. cbn [transcripts timers withFiles withTimers withTranscripts withInflight].
      rewrite elem_of_app, elem_of_cons, elem_of_nil.
      intros [Hin|[[= -> ->]|[]]]; [eapply Hd, Hin|exact Hnow].
  - rewrite (step_provider_none _ _ _ _ _ E). exact Inv.
Qed.

Lemma run_pending SILENCE_MS D : forall evs st,
  Forall (fun e => e.1 + TRANSCRIPT_TTL <= D) evs ->
  deletionsPending D st -> deletionsPending D (run SILENCE_MS evs st).1.
Proof.
  induction evs as [|[now e] rest IH]; intros st Hev Inv; [exact Inv|].
  rewrite run_cons. cbn [fst]. inversion Hev as [|x l H1 H2]; subst.
  apply IH; [exact H2|]. apply step_pending; [exact H1|exact Inv].
Qed.

(** X5.  No transcript outlives its five seconds: whatever requests and
    provider answers the server went through, with or without overwrites,
    once 5000 ms have passed since the last of them no transcript is stored,
    no deletion is pending, and every read answers not ready. *)
Theorem transcripts_expire SILENCE_MS (evs : list (Z * event)) T t :
  Forall (fun e => e.1 <= T) evs ->
  T + TRANSCRIPT_TTL <= t ->
  let st := (run SILENCE_MS evs initial).1 in
  transcripts (tick t st) = ∅
  /\ timers (tick t st) = []
  /\ forall q, (step SILENCE_MS t (GetTranscript q) st).2
               = [Respond (TranscriptBody (JStr "") false)].
Proof.
  intros Hev Ht st.
  assert (Inv : deletionsPending (T + TRANSCRIPT_TTL) st).
  { apply run_pending.
    - eapply Forall_impl; [exact Hev|]. cbn. intros; lia.
    - split.
      + intros id [x Hx]. cbn in Hx. rewrite lookup_empty in Hx. discriminate.
      + intros d id Hin. cbn in Hin. apply elem_of_nil in Hin. contradiction. }
  destruct Inv as [Hs Hd].
  assert (Hempty : transcripts (tick t st) = ∅).
  { apply map_empty. intros id.
    destruct (transcripts (tick t st) !! id) as [v|] eqn:E; [|reflexivity].
    destruct (Hs id) as [d Hin]; [exists v; eapply tick_lookup_Some, E|].
    rewrite (tick_lookup_fired t st id d Hin) in E; [discriminate|].
    specialize (Hd d id Hin). lia. }
  split; [exact Hempty|]. split.
  - destruct (timers (tick t st)) as [|[d id] l] eqn:E; [reflexivity|].
    assert (Hin : (d, id) ∈ timers (tick t st)) by (rewrite E; apply elem_of_cons; auto).
    apply tick_timers in Hin. destruct Hin as [Hin Hlt].
    specialize (Hd d id Hin). lia.
  - intros q. rewrite step_getTranscript. cbn [snd]. rewrite Hempty, lookup_empty. reflexivity.
Qed.

Lemma transcripts_expire_witness :
  Forall (fun e : Z * event => e.1 <= 20)
    [(0, PostStream {| q_id := Some "s1"; q_sample_rate := None; q_body := [xff; x7f] |});
     (10, GetFinalize (Some "s1"));
     (20, ProviderSettles 0 (Parsed (JObj [("results",
            JObj [("channels", JArr [JObj [("alternatives",
              JArr [JObj [("transcript", JStr "hello")]])]])])])))]
  /\ 20 + TRANSCRIPT_TTL <= 5020
  /\ transcripts (tick 5020 (run (Some 1200)
    [(0, PostStream {| q_id := Some "s1"; q_sample_rate := None; q_body := [xff; x7f] |});
     (10, GetFinalize (Some "s1"));
     (20, ProviderSettles 0 (Parsed (JObj [("results",
            JObj [("channels", JArr [JObj [("alternatives",
              JArr [JObj [("transcript", JStr "hello")]])]])])])))] initial).1) = ∅.
Proof.
  assert (H1 : Forall (fun e : Z * event => e.1 <= 20)
    [(0, PostStream {| q_id := Some "s1"; q_sample_rate := None; q_body := [xff; x7f] |});
     (10, GetFinalize (Some "s1"));
     (20, ProviderSettles 0 (Parsed (JObj [("results",
            JObj [("channels", JArr [JObj [("alternatives",
              JArr [JObj [("transcript", JStr "hello")]])]])])])))]).
  { repeat constructor; cbn; lia. }
  assert (H2 : 20 + TRANSCRIPT_TTL <= 5020) by (unfold TRANSCRIPT_TTL; lia).
  split; [exact H1|]. split; [exact H2|].
  exact (proj1 (transcripts_expire (Some 1200) _ 20 5020 H1 H2)).
Defined.

(** ** When silence finalizes a session *)

(** X6.  In a state the server can reach and with a timeout that is not
    negative, a stream request hands its session to finalize exactly when
    the session existed before, had started talking, had left the warm-up
    ([rmsActiveTime] not below 2000), the chunk is classified silent, and
    more than [SILENCE_MS] have passed since [lastHeard].  The session is
    then removed; it holds audio, and what is written and sent is what it
    had kept before: the chunk of the request is not part of it.  When the
    scratch file cannot be written, the call is rejected instead and
    nothing is sent.  Otherwise the request only updates the session and
    answers. *)
Theorem autofinalize_exactly_when SILENCE_MS now q st :
  timeoutNonneg SILENCE_MS ->
  reachable SILENCE_MS st ->
  let id := idOf (q_id q) in
  let r := step SILENCE_MS now (PostStream q) st in
  (LogSilence id ∈ r.2 <->
     exists s, sessions st !! id = Some s
       /\ startedTalking s = true
       /\ (rmsActiveTime s <? WARMUP_MS)%float = false
       /\ isActive (calcRMS (q_body q)) = false
       /\ exceedsSilence SILENCE_MS (now - lastHeard s) = true)
  /\ (forall s, sessions st !! id = Some s -> LogSilence id ∈ r.2 ->
        audio s <> []
        /\ r.2 = LogSilence id ::
                 (if writable st (id, now)
                  then [WriteFile (id, now) (concat (audio s));
                        Fetch (sampleRate s) (concat (audio s))]
                  else [UnhandledRejection])
                 ++ [Respond (StreamOk (calcRMS (q_body q)))]
        /\ sessions r.1 !! id = None
        /\ inflight r.1
           = inflight st ++ (if writable st (id, now) then [startedJob now id s] else []))
  /\ (LogSilence id ∉ r.2 ->
        r.2 = [Respond (StreamOk (calcRMS (q_body q)))]
        /\ sessions r.1 !! id = Some (streamSession now q (tick now st))
        /\ inflight r.1 = inflight st).
Proof.
  intros Hto Hreach id r. subst r.
  pose proof (reachable_unfedQuiet SILENCE_MS st Hreach) as Haud.
  rewrite step_postStream, postStream_closed. cbn [fst snd]. fold id.
  set (s' := streamSession now q (tick now st)).
  assert (Hchar : silenceDetected SILENCE_MS now s' = true <->
     exists s, sessions st !! id = Some s
       /\ startedTalking s = true
       /\ (rmsActiveTime s <? WARMUP_MS)%float = false
       /\ isActive (calcRMS (q_body q)) = false
       /\ exceedsSilence SILENCE_MS (now - lastHeard s) = true).
  { subst s'. unfold streamSession. rewrite tick_sessions. fold id.
    destruct (sessions st !! id) as [s|] eqn:Es.
    - unfold ingest.
      destruct (isActive (calcRMS (q_body q))) eqn:Ea.
      + rewrite silence_just_heard by (auto || reflexivity).
        split; [discriminate|]. intros (s0 & _ & _ & _ & H & _). discriminate.
      + destruct (startedTalking s) eqn:Est; cbn [negb orb].
        * destruct (rmsActiveTime s <? WARMUP_MS)%float eqn:Ew.
          -- rewrite silence_just_heard by (auto || reflexivity).
             split; [discriminate|]. intros (s0 & [= <-] & _ & H & _). congruence.
          -- unfold silenceDetected. rewrite Est. cbn [andb].
             split.
             ++ intros H. exists s. auto.
             ++ intros (s0 & [= <-] & _ & _ & _ & H). exact H.
        * rewrite silence_just_heard by (auto || reflexivity).
          split; [discriminate|]. intros (s0 & [= <-] & H & _). congruence.
    - split.
      + unfold ingest, silenceDetected.
        destruct (isActive _); cbn.
        * rewrite Z.sub_diag, exceedsSilence_zero by exact Hto. discriminate.
        * discriminate.
      + intros (s0 & H & _). discriminate. }
  set (st1 := withSessions (<[id := s']> (sessions (tick now st))) (tick now st)).
  assert (Hlog : LogSilence id ∈
     (if silenceDetected SILENCE_MS now s'
      then LogSilence id :: finalizeFx now id st1
      else []) ++ [Respond (StreamOk (calcRMS (q_body q)))]
     <-> silenceDetected SILENCE_MS now s' = true).
  { destruct (silenceDetected SILENCE_MS now s').
    - split; [reflexivity|]. intros _. apply elem_of_app. left. apply elem_of_cons. auto.
    - split; [|discriminate]. not_among. }
  split; [rewrite Hlog; exact Hchar|]. split.
  - intros s Hs HL. apply Hlog in HL. rewrite HL.
    apply Hchar in HL. destruct HL as (s0 & Hs0 & Est & Ew & Ea & Hex).
    rewrite Hs in Hs0. injection Hs0 as <-.
    assert (Es' : s' = s).
    { subst s'. unfold streamSession. rewrite tick_sessions. fold id. rewrite Hs.
      rewrite ingest_silent by exact Ea. rewrite Est, Ew. reflexivity. }
    assert (Hne : audio s <> []).
    { intros E. rewrite (Haud _ _ Hs E) in Est. discriminate. }
    assert (Hs1 : sessions st1 !! id = Some s) by (rewrite <- Es'; apply lookup_insert_eq).
    split; [exact Hne|].
    change (writable st (id, now)) with (writable st1 (id, now)).
    destruct (writable st1 (id, now)) eqn:W.
    + rewrite (finalize_started now id st1 s Hs1 Hne W),
        (finalizeFx_started now id st1 s Hs1 Hne W).
      cbn [fst snd sessions withSessions withFiles withInflight inflight].
      split; [reflexivity|]. split; [apply lookup_delete_eq|reflexivity].
    + rewrite (finalize_refused now id st1 s Hs1 Hne W),
        (finalizeFx_refused now id st1 s Hs1 Hne W).
      cbn [fst snd sessions withSessions withFiles withInflight inflight].
      split; [reflexivity|]. split; [apply lookup_delete_eq|].
      rewrite app_nil_r. reflexivity.
  - intros HL. destruct (silenceDetected SILENCE_MS now s') eqn:E.
    + exfalso. apply HL, Hlog. reflexivity.
    + cbn [fst snd sessions withSessions inflight app]. split; [reflexivity|].
      split; [apply lookup_insert_eq|reflexivity].
Qed.

Lemma autofinalize_exactly_when_witness :
  timeoutNonneg (Some 1200)
  /\ reachable (Some 1200)
       (step (Some 1200) 0
          (PostStream {| q_id := Some "s1"; q_sample_rate := Some 1%float;
                         q_body := [xff; x7f; xff; x7f] |})
          initial).1
  /\ LogSilence "s1" ∈ (step (Some 1200) 5000
        (PostStream {| q_id := Some "s1"; q_sample_rate := Some 1%float; q_body := [x00; x00] |})
        (step (Some 1200) 0
          (PostStream {| q_id := Some "s1"; q_sample_rate := Some 1%float;
                         q_body := [xff; x7f; xff; x7f] |})
          initial).1).2.
Proof.
  assert (T : timeoutNonneg (Some 1200)) by (cbn; lia).
  assert (R : reachable (Some 1200)
       (step (Some 1200) 0
          (PostStream {| q_id := Some "s1"; q_sample_rate := Some 1%float;
                         q_body := [xff; x7f; xff; x7f] |})
          initial).1) by (apply reach_step, reach_initial).
  split; [exact T|]. split; [exact R|].
  refine (proj2 (proj1 (autofinalize_exactly_when (Some 1200) 5000
    {| q_id := Some "s1"; q_sample_rate := Some 1%float; q_body := [x00; x00] |}
    _ T R)) _).
  exists {| audio := [[xff; x7f; xff; x7f]]; lastHeard := 0; startedTalking := true;
            rmsActiveTime := 2000; sampleRate := 1 |}.
  repeat split; vm_compute; reflexivity.
Defined.

(** ** A timeout that is misconfigured *)

(** X7.  When [SILENCE_MS] does not parse, the timeout is NaN and the
    silence test never holds: no stream request ever finalizes a session;
    it stores the updated session and answers. *)
Theorem unparsable_timeout_never_finalizes now q st :
  (step None now (PostStream q) st).2 = [Respond (StreamOk (calcRMS (q_body q)))]
  /\ sessions (step None now (PostStream q) st).1 !! idOf (q_id q)
     = Some (streamSession now q (tick now st))
  /\ inflight (step None now (PostStream q) st).1 = inflight st.
Proof.
  rewrite step_postStream, postStream_closed. cbn zeta.
  unfold silenceDetected, exceedsSilence. rewrite andb_false_r.
  cbn [fst snd sessions withSessions inflight app].
  split; [reflexivity|]. split; [apply lookup_insert_eq|reflexivity].
Qed.

(** X8.  With a negative [SILENCE_MS] the silence test holds as soon as a
    session has started talking: a stream request with an active chunk
    finalizes its session at once, the chunk included, and removes it.  The
    audio is written and sent when the scratch file can be written;
    otherwise the call is rejected and nothing is sent. *)
Theorem negative_timeout_finalizes_at_once ms now q st :
  ms < 0 -> isActive (calcRMS (q_body q)) = true ->
  let id := idOf (q_id q) in
  let s' := streamSession now q (tick now st) in
  audio s' = audioOf (sessions st !! id) ++ [q_body q]
  /\ (step (Some ms) now (PostStream q) st).2
     = LogSilence id ::
       (if writable st (id, now)
        then [WriteFile (id, now) (concat (audio s'));
              Fetch (sampleRate s') (concat (audio s'))]
        else [UnhandledRejection])
       ++ [Respond (StreamOk (calcRMS (q_body q)))]
  /\ sessions (step (Some ms) now (PostStream q) st).1 !! id = None
  /\ inflight (step (Some ms) now (PostStream q) st).1
     = inflight st ++ (if writable st (id, now) then [startedJob now id s'] else []).
Proof.
  intros Hms Ha id s'.
  assert (Es : s' = {| audio := audioOf (sessions st !! id) ++ [q_body q];
                       lastHeard := now; startedTalking := true;
                       rmsActiveTime := rmsActiveTime s'; sampleRate := sampleRate s' |}).
  { subst s'. unfold streamSession. rewrite tick_sessions. fold id.
    rewrite !ingest_active by exact Ha. cbn [rmsActiveTime sampleRate].
    rewrite audio_default. reflexivity. }
  assert (Eaud : audio s' = audioOf (sessions st !! id) ++ [q_body q]) by (rewrite Es; reflexivity).
  split; [exact Eaud|].
  rewrite step_postStream, postStream_closed. cbn zeta. fold id. fold s'.
  assert (Hd : silenceDetected (Some ms) now s' = true).
  { rewrite Es. unfold silenceDetected, exceedsSilence. cbn [startedTalking lastHeard andb].
    rewrite Z.sub_diag. apply Z.ltb_lt, Hms. }
  rewrite Hd.
  set (st1 := withSessions (<[id := s']> (sessions (tick now st))) (tick now st)).
  assert (Hs1 : sessions st1 !! id = Some s') by apply lookup_insert_eq.
  assert (Hne : audio s' <> []).
  { rewrite Eaud. destruct (audioOf _); discriminate. }
  change (writable st (id, now)) with (writable st1 (id, now)).
  destruct (writable st1 (id, now)) eqn:W.
  - rewrite (finalize_started now id st1 s' Hs1 Hne W),
      (finalizeFx_started now id st1 s' Hs1 Hne W).
    cbn [fst snd sessions withSessions withFiles withInflight inflight app].
    split; [reflexivity|]. split; [apply lookup_delete_eq|reflexivity].
  - rewrite (finalize_refused now id st1 s' Hs1 Hne W),
      (finalizeFx_refused now id st1 s' Hs1 Hne W).
    cbn [fst snd sessions withSessions withFiles withInflight inflight app].
    split; [reflexivity|]. split; [apply lookup_delete_eq|].
    rewrite app_nil_r. reflexivity.
Qed.

Lemma negative_timeout_finalizes_at_once_witness :
  -1 < 0
  /\ isActive (calcRMS [xff; x7f]) = true
  /\ (step (Some (-1)) 0
        (PostStream {| q_id := Some "a/b"; q_sample_rate := None; q_body := [xff; x7f] |})
        (withWritable (fun p => negb (String.eqb p.1 "a/b")) initial)).2
     = [LogSilence "a/b"; UnhandledRejection; Respond (StreamOk (calcRMS [xff; x7f]))].
Proof.
  assert (H1 : -1 < 0) by lia.
  assert (H2 : isActive (calcRMS [xff; x7f]) = true) by (vm_compute; reflexivity).
  split; [exact H1|]. split; [exact H2|].
  exact (proj1 (proj2 (negative_timeout_finalizes_at_once (-1) 0
           {| q_id := Some "a/b"; q_sample_rate := None; q_body := [xff; x7f] |}
           (withWritable (fun p => negb (String.eqb p.1 "a/b")) initial) H1 H2))).
Defined.

(** ** What a session keeps *)

Lemma ingest_keeps now rate chunk s :
  audio (ingest now rate chunk s) = audio s ++ [chunk]
  \/ (audio (ingest now rate chunk s) = audio s
      /\ isActive (calcRMS chunk) = false /\ startedTalking s = true).
Proof.
  unfold ingest. destruct (isActive _); [auto|].
  destruct (startedTalking s); cbn [negb orb]; [|auto].
  destruct (_ <? _)%float; auto.
Qed.

Lemma ingestAll_kept chunks : forall s0,
  exists kept,
    audio (ingestAll chunks s0) = audio s0 ++ kept
    /\ kept `sublist_of` map snd chunks
    /\ List.filter (fun c => isActive (calcRMS c)) (map snd chunks) `sublist_of` kept
    /\ (startedTalking (ingestAll chunks s0) = false -> kept = map snd chunks).
Proof.
  induction chunks as [|[[now rate] c] cs IH]; intros s0.
  - exists []. cbn. rewrite app_nil_r. repeat split; constructor.
  - change (ingestAll (((now, rate), c) :: cs) s0)
      with (ingestAll cs (ingest now rate c s0)).
    destruct (IH (ingest now rate c s0)) as (kept & Ha & Hsub & Hact & Hall).
    cbn [map snd List.filter].
    destruct (ingest_keeps now rate c s0) as [E|(E & Ec & Es)].
    + exists (c :: kept). rewrite Ha, E, <- app_assoc.
      split; [reflexivity|]. split; [constructor; exact Hsub|].
      split.
      * destruct (isActive (calcRMS c)); constructor; exact Hact.
      * intros H. f_equal. apply Hall, H.
    + exists kept. rewrite Ha, E, Ec.
      split; [reflexivity|]. split; [constructor; exact Hsub|].
      split; [exact Hact|].
      intros H. exfalso. rewrite ingestAll_started, ingest_started, Es in H. discriminate.
Qed.

(** X9.  The chunks a session keeps are chunks it received, in the order
    of arrival; every active chunk is among them, and as long as no chunk
    was active every chunk is. *)
Theorem kept_audio_is_ordered_selection now0 rate0 (chunks : list (Z * float * Buffer)) :
  let s := ingestAll chunks (newSession now0 rate0) in
  audio s `sublist_of` map snd chunks
  /\ List.filter (fun c => isActive (calcRMS c)) (map snd chunks) `sublist_of` audio s
  /\ (startedTalking s = false -> audio s = map snd chunks).
Proof.
  cbn zeta. destruct (ingestAll_kept chunks (newSession now0 rate0)) as (kept & Ha & H1 & H2 & H3).
  cbn [audio newSession app] in Ha. rewrite Ha. auto.
Qed.

(** ** Degenerate chunks and rates *)

Lemma samples_short (chunk : Buffer) : (length chunk < 2)%nat -> samples chunk = [].
Proof. destruct chunk as [|a [|b l]]; cbn; intros; try reflexivity; lia. Qed.

(** X10.  A body of fewer than two bytes holds no sample: its loudness is
    NaN, the comparison with 0.02 fails, and the chunk is treated as
    silence (kept while the session warms up, dropped afterwards). *)
Theorem short_chunk_is_silence (chunk : Buffer) :
  (length chunk < 2)%nat ->
  PrimFloat.is_nan (calcRMS chunk) = true
  /\ isActive (calcRMS chunk) = false
  /\ forall now rate s,
       ingest now rate chunk s
       = if negb (startedTalking s) || (rmsActiveTime s <? WARMUP_MS)%float
         then appended now chunk s else s.
Proof.
  intros H. assert (E : calcRMS chunk = calcRMS []).
  { apply calcRMS_samples. rewrite samples_short by exact H. reflexivity. }
  rewrite E. split; [vm_compute; reflexivity|].
  assert (Ha : isActive (calcRMS []) = false) by (vm_compute; reflexivity).
  split; [exact Ha|]. intros now rate s. apply ingest_silent. rewrite E. exact Ha.
Qed.

Lemma short_chunk_is_silence_witness :
  (length [x7f] < 2)%nat /\ isActive (calcRMS [x7f]) = false.
Proof.
  assert (H : (length [x7f] < 2)%nat) by (cbn; lia).
  split; [exact H|]. exact (proj1 (proj2 (short_chunk_is_silence [x7f] H))).
Defined.

Lemma SFcompare_refl f : f <> S754_nan -> SFcompare f f = Some Eq.
Proof.
  destruct f as [s|s| |s m e]; intros H; cbn.
  - reflexivity.
  - destruct s; reflexivity.
  - contradiction.
  - destruct s; rewrite Z.compare_refl; [rewrite Pos.compare_refl|rewrite Pos.compare_refl]; reflexivity.
Qed.

Lemma is_nan_spec x : PrimFloat.is_nan x = true <-> Prim2SF x = S754_nan.
Proof.
  unfold PrimFloat.is_nan. rewrite FloatAxioms.eqb_spec. unfold SFeqb.
  split.
  - intros H. destruct (Prim2SF x) as [s|s| |s m e] eqn:E; [| |reflexivity|];
      rewrite SFcompare_refl in H by discriminate; discriminate.
  - intros ->. reflexivity.
Qed.

Lemma nan_add_l x y : PrimFloat.is_nan x = true -> PrimFloat.is_nan (x + y) = true.
Proof.
  rewrite !is_nan_spec, FloatAxioms.add_spec. intros ->. reflexivity.
Qed.

Lemma nan_add_r x y : PrimFloat.is_nan y = true -> PrimFloat.is_nan (x + y) = true.
Proof.
  rewrite !is_nan_spec, FloatAxioms.add_spec. intros ->.
  destruct (Prim2SF x) as [s|s| |s m e]; reflexivity.
Qed.

Lemma nan_mul_l x y : PrimFloat.is_nan x = true -> PrimFloat.is_nan (x * y) = true.
Proof.
  rewrite !is_nan_spec, FloatAxioms.mul_spec. intros ->. reflexivity.
Qed.

Lemma nan_div_r x y : PrimFloat.is_nan y = true -> PrimFloat.is_nan (x / y) = true.
Proof.
  rewrite !is_nan_spec, FloatAxioms.div_spec. intros ->.
  destruct (Prim2SF x) as [s|s| |s m e]; reflexivity.
Qed.

Lemma nan_ltb x y : PrimFloat.is_nan x = true -> (x <? y)%float = false.
Proof.
  rewrite is_nan_spec, FloatAxioms.ltb_spec. intros ->. reflexivity.
Qed.

Lemma chunkMs_nan chunk rate : PrimFloat.is_nan rate = true -> PrimFloat.is_nan (chunkMs chunk rate) = true.
Proof.
  intros H. unfold chunkMs. apply nan_mul_l, nan_div_r, nan_mul_l, H.
Qed.

Lemma ingest_nan now rate chunk s :
  startedTalking s = true -> PrimFloat.is_nan (rmsActiveTime s) = true ->
  startedTalking (ingest now rate chunk s) = true
  /\ PrimFloat.is_nan (rmsActiveTime (ingest now rate chunk s)) = true.
Proof.
  intros Hs Hn. unfold ingest. destruct (isActive _).
  - cbn. split; [reflexivity|]. apply nan_add_l, Hn.
  - destruct (_ || _); cbn; auto.
Qed.

Lemma ingestAll_nan chunks : forall s,
  startedTalking s = true -> PrimFloat.is_nan (rmsActiveTime s) = true ->
  startedTalking (ingestAll chunks s) = true
  /\ PrimFloat.is_nan (rmsActiveTime (ingestAll chunks s)) = true.
Proof.
  induction chunks as [|[[now rate] c] cs IH]; intros s Hs Hn; [auto|].
  change (ingestAll (((now, rate), c) :: cs) s) with (ingestAll cs (ingest now rate c s)).
  destruct (ingest_nan now rate c s Hs Hn). apply IH; assumption.
Qed.

(** X11.  A [sample_rate] that does not parse gives the rate NaN.  Once an
    active chunk came with such a rate, [rmsActiveTime] is NaN for the rest
    of the session's life, the test [rmsActiveTime < 2000] fails, and every
    later silent chunk is dropped, whatever rate the later requests carry. *)
Theorem unparsable_rate_ends_warmup now rate chunk s (chunks : list (Z * float * Buffer)) :
  PrimFloat.is_nan rate = true ->
  isActive (calcRMS chunk) = true ->
  let s' := ingestAll chunks (ingest now rate chunk s) in
  startedTalking s' = true
  /\ PrimFloat.is_nan (rmsActiveTime s') = true
  /\ (rmsActiveTime s' <? WARMUP_MS)%float = false
  /\ forall now2 rate2 c, isActive (calcRMS c) = false -> ingest now2 rate2 c s' = s'.
Proof.
  intros Hr Ha s'.
  assert (H : startedTalking s' = true /\ PrimFloat.is_nan (rmsActiveTime s') = true).
  { apply ingestAll_nan.
    - rewrite ingest_active by exact Ha. reflexivity.
    - rewrite ingest_active by exact Ha. cbn. apply nan_add_r, chunkMs_nan, Hr. }
  destruct H as [Hs Hn]. split; [exact Hs|]. split; [exact Hn|].
  assert (Hw := nan_ltb _ WARMUP_MS Hn). split; [exact Hw|].
  intros now2 rate2 c Hc. rewrite ingest_silent by exact Hc. rewrite Hs, Hw. reflexivity.
Qed.

Lemma unparsable_rate_ends_warmup_witness :
  PrimFloat.is_nan PrimFloat.nan = true
  /\ isActive (calcRMS [xff; x7f]) = true
  /\ ingest 9 16000 [x00; x00] (ingestAll [] (ingest 0 PrimFloat.nan [xff; x7f] (newSession 0 PrimFloat.nan)))
     = ingestAll [] (ingest 0 PrimFloat.nan [xff; x7f] (newSession 0 PrimFloat.nan)).
Proof.
  assert (H1 : PrimFloat.is_nan PrimFloat.nan = true) by reflexivity.
  assert (H2 : isActive (calcRMS [xff; x7f]) = true) by (vm_compute; reflexivity).
  assert (H3 : isActive (calcRMS [x00; x00]) = false) by (vm_compute; reflexivity).
  split; [exact H1|]. split; [exact H2|].
  exact (proj2 (proj2 (proj2 (unparsable_rate_ends_warmup 0 PrimFloat.nan [xff; x7f]
           (newSession 0 PrimFloat.nan) [] H1 H2))) 9 16000%float [x00; x00] H3).
Defined.

(** * The activity threshold

    The loop of [calcRMS] is exact, and the division and the square root
    round correctly, so that the classification of a chunk can be read off
    its samples. *)

(** ** Rounding between two bounds *)

Lemma fexp_below m e j B :
  0 <= m -> e <= j -> -1074 <= j -> B < 2 ^ 53 -> m <= B * 2 ^ (j - e) ->
  fexp prec emax (Zdigits2 m + e) <= j.
Proof.
  intros Hm He Hj HB Hle. unfold fexp, SpecFloat.emin, prec, emax.
  assert (P : 0 < 2 ^ (j - e)) by (apply Z.pow_pos_nonneg; lia).
  assert (Hd : Zdigits2 m <= 53 + (j - e)).
  { apply Zdigits2_le; [lia|]. split; [exact Hm|]. rewrite Z.pow_add_r by lia. nia. }
  lia.
Qed.

Lemma pow2_split a b : 0 <= a -> 0 <= b -> 2 ^ (a + b) = 2 ^ a * 2 ^ b.
Proof. intros. apply Z.pow_add_r; assumption. Qed.

Lemma round_aux_within mx ex lx j lo hi :
  0 <= mx -> ex <= j -> -1074 <= j <= 971 -> 0 <= lo -> 0 < hi < 2 ^ 53 ->
  lo * 2 ^ (j - ex) <= mx ->
  mx + inexact lx <= hi * 2 ^ (j - ex) ->
  within j (binary_round_aux prec emax false mx ex lx) lo hi.
Proof.
  intros Hm He Hj Hlo Hhi Hge Hle. unfold binary_round_aux.
  destruct (shr_fexp_spec mx ex lx Hm) as (k & Hk & E1 & E1' & M1 & L1 & X1).
  destruct (shr_fexp prec emax mx ex lx) as [mrs' e'] eqn:S1. cbn [fst snd] in *.
  subst e'.
  assert (Il : 0 <= inexact lx) by (destruct lx; cbn; lia).
  assert (P0 : 0 < 2 ^ (j - ex)) by (apply Z.pow_pos_nonneg; lia).
  assert (F1 : fexp prec emax (Zdigits2 mx + ex) <= j).
  { apply (fexp_below mx ex j hi); lia. }
  assert (He1 : ex + k <= j) by lia.
  set (e1 := ex + k) in *.
  set (N := hi * 2 ^ (j - e1)).
  set (L := lo * 2 ^ (j - e1)).
  assert (Pk : 0 < 2 ^ k) by (apply Z.pow_pos_nonneg; lia).
  assert (P1 : 0 < 2 ^ (j - e1)) by (apply Z.pow_pos_nonneg; lia).
  assert (EP : 2 ^ (j - ex) = 2 ^ (j - e1) * 2 ^ k).
  { rewrite <- pow2_split by lia. f_equal. unfold e1. lia. }
  assert (EN : hi * 2 ^ (j - ex) = N * 2 ^ k) by (unfold N; rewrite EP; lia).
  assert (EL : lo * 2 ^ (j - ex) = L * 2 ^ k) by (unfold L; rewrite EP; lia).
  assert (HL : 0 <= L) by (unfold L; nia).
  set (m2 := round_nearest_even (shr_m mrs') (loc_of_shr_record mrs')).
  assert (Hm1 : L <= shr_m mrs').
  { rewrite M1. apply Z.div_le_lower_bound; lia. }
  assert (Hm2 : L <= m2 <= N).
  { pose proof (round_ne_bounds (shr_m mrs') (loc_of_shr_record mrs')) as R. fold m2 in R.
    split; [lia|].
    destruct (Z_lt_le_dec mx (N * 2 ^ k)) as [Hlt|Hge'].
    - pose proof (div_pow_le mx N k Hk Hm Hlt). lia.
    - assert (Emx : mx = N * 2 ^ k) by lia.
      assert (Elx : lx = loc_Exact).
      { destruct lx; [reflexivity|]. cbn in Hle. lia. }
      assert (EL' : loc_of_shr_record mrs' = loc_Exact).
      { apply X1; [exact Elx|]. exists N. exact Emx. }
      unfold m2. rewrite EL', round_ne_exact, M1, Emx, Z.div_mul by lia. lia. }
  destruct Hm2 as [Hm2 Hm2'].
  assert (Hm20 : 0 <= m2) by lia.
  destruct (shr_fexp_spec m2 e1 loc_Exact Hm20) as (k' & Hk' & E2 & E2' & M2 & _ & _).
  destruct (shr_fexp prec emax m2 e1 loc_Exact) as [mrs'' e''] eqn:S2.
  cbn [fst snd] in *. subst e''.
  assert (F2 : fexp prec emax (Zdigits2 m2 + e1) <= j).
  { apply (fexp_below m2 e1 j hi); lia. }
  assert (He2 : e1 + k' <= j) by lia.
  assert (Pk' : 0 < 2 ^ k') by (apply Z.pow_pos_nonneg; lia).
  assert (P2 : 0 < 2 ^ (j - (e1 + k'))) by (apply Z.pow_pos_nonneg; lia).
  assert (EP' : 2 ^ (j - e1) = 2 ^ (j - (e1 + k')) * 2 ^ k').
  { rewrite <- pow2_split by lia. f_equal. lia. }
  assert (Hm3 : lo * 2 ^ (j - (e1 + k')) <= shr_m mrs'' <= hi * 2 ^ (j - (e1 + k'))).
  { rewrite M2. split.
    - apply Z.div_le_lower_bound; [lia|]. unfold L in Hm2. rewrite EP' in Hm2. lia.
    - apply Z.div_le_upper_bound; [lia|]. unfold N in Hm2'. rewrite EP' in Hm2'. lia. }
  destruct (shr_m mrs'') as [|m3|m3] eqn:E3; cbn [within].
  - nia.
  - replace (e1 + k' <=? emax - prec) with true
      by (symmetry; apply Z.leb_le; unfold emax, prec; lia).
    cbn [within]. split; [exact He2|lia].
  - nia.
Qed.

Lemma round_within j lo hi (M : positive) ez :
  ez <= j -> -1074 <= j <= 971 -> 0 <= lo -> 0 < hi < 2 ^ 53 ->
  lo * 2 ^ (j - ez) <= Zpos M <= hi * 2 ^ (j - ez) ->
  within j (binary_round prec emax false M ez) lo hi.
Proof.
  intros He Hj Hlo Hhi HM. unfold binary_round.
  destruct (shl_align_spec M ez (fexp prec emax (Zpos (digits2_pos M) + ez))) as [E1 E2].
  destruct (shl_align M ez _) as [mz ez'] eqn:S. cbn [fst snd] in *.
  set (e' := Z.min ez _) in *.
  assert (e' <= ez) by (unfold e'; lia).
  assert (0 < 2 ^ (ez - e')) by (apply Z.pow_pos_nonneg; lia).
  assert (0 < 2 ^ (j - ez)) by (apply Z.pow_pos_nonneg; lia).
  assert (EP : 2 ^ (j - e') = 2 ^ (j - ez) * 2 ^ (ez - e')).
  { rewrite <- pow2_split by lia. f_equal. lia. }
  apply round_aux_within; try lia; cbn [inexact]; rewrite E1, E2, EP; nia.
Qed.

Lemma within_weaken j f lo hi lo' hi' :
  lo' <= lo -> hi <= hi' -> within j f lo hi -> within j f lo' hi'.
Proof.
  intros H1 H2. destruct f as [s|s| |[] m e]; cbn; try tauto; try lia.
  intros [He Hm]. split; [exact He|].
  assert (0 < 2 ^ (j - e)) by (apply Z.pow_pos_nonneg; lia). nia.
Qed.

(** Addition of two multiples of [2^j] whose sum has at most 53 bits is exact. *)
Lemma add_within j x y A B :
  -1074 <= j <= 971 -> 0 <= A -> 0 <= B -> A + B < 2 ^ 53 ->
  within j x A A -> within j y B B -> within j (SF64add x y) (A + B) (A + B).
Proof.
  intros Hj HA HB HAB Hx Hy.
  destruct x as [sx|sx| |[] mx ex]; cbn in Hx; try contradiction;
  destruct y as [sy|sy| |[] my ey]; cbn in Hy; try contradiction.
  - destruct sx, sy; cbn; lia.
  - assert (A = 0) by lia. subst A. cbn. rewrite Z.add_0_l. exact Hy.
  - assert (B = 0) by lia. subst B. cbn. rewrite Z.add_0_r. exact Hx.
  - destruct Hx as [Hex Hmx]. destruct Hy as [Hey Hmy].
    unfold SF64add, SFadd. cbn [cond_Zopp].
    set (ez := Z.min ex ey).
    destruct (shl_align_spec mx ex ez) as [_ X]. destruct (shl_align_spec my ey ez) as [_ Y].
    replace (Z.min ex ez) with ez in X by (unfold ez; lia).
    replace (Z.min ey ez) with ez in Y by (unfold ez; lia).
    set (a := fst (shl_align mx ex ez)) in *. set (b := fst (shl_align my ey ez)) in *.
    change (Zpos a + Zpos b) with (Zpos (a + b)). cbn [binary_normalize].
    assert (Px : 0 < 2 ^ (j - ex)) by (apply Z.pow_pos_nonneg; lia).
    assert (Py : 0 < 2 ^ (j - ey)) by (apply Z.pow_pos_nonneg; lia).
    assert (0 < A) by nia. assert (0 < B) by nia.
    apply round_within; [unfold ez; lia | exact Hj | lia | lia |].
    rewrite Pos2Z.inj_add, X, Y.
    assert (0 < 2 ^ (ex - ez)) by (apply Z.pow_pos_nonneg; unfold ez; lia).
    assert (0 < 2 ^ (ey - ez)) by (apply Z.pow_pos_nonneg; unfold ez; lia).
    assert (E1 : 2 ^ (j - ez) = 2 ^ (j - ex) * 2 ^ (ex - ez)).
    { rewrite <- pow2_split by (unfold ez; lia). f_equal. lia. }
    assert (E2 : 2 ^ (j - ez) = 2 ^ (j - ey) * 2 ^ (ey - ez)).
    { rewrite <- pow2_split by (unfold ez; lia). f_equal. lia. }
    assert (Zpos mx * 2 ^ (ex - ez) = A * 2 ^ (j - ez)) by (rewrite E1; nia).
    assert (Zpos my * 2 ^ (ey - ez) = B * 2 ^ (j - ez)) by (rewrite E2; nia).
    lia.
Qed.

Lemma scale_le_hi m A h n P R Q T :
  0 < P -> 0 < R -> 0 <= n -> P * R = Q * T ->
  m <= A * P -> A <= h * n -> m * R <= n * Q * (h * T).
Proof.
  intros HP HR Hn E H1 H2.
  assert (S1 : m * R <= A * P * R) by (apply Z.mul_le_mono_nonneg_r; lia).
  assert (S2 : A * (P * R) <= h * n * (P * R)).
  { apply Z.mul_le_mono_nonneg_r; [|exact H2]. apply Z.lt_le_incl, Z.mul_pos_pos; assumption. }
  replace (n * Q * (h * T)) with (h * n * (Q * T)) by ring. rewrite <- E.
  replace (A * P * R) with (A * (P * R)) in S1 by ring. lia.
Qed.

Lemma scale_le_lo m A l n P R Q T :
  0 < P -> 0 < R -> 0 <= n -> P * R = Q * T ->
  A * P <= m -> l * n <= A -> n * Q * (l * T) <= m * R.
Proof.
  intros HP HR Hn E H1 H2.
  assert (S1 : A * P * R <= m * R) by (apply Z.mul_le_mono_nonneg_r; lia).
  assert (S2 : l * n * (P * R) <= A * (P * R)).
  { apply Z.mul_le_mono_nonneg_r; [|exact H2]. apply Z.lt_le_incl, Z.mul_pos_pos; assumption. }
  replace (n * Q * (l * T)) with (l * n * (Q * T)) by ring. rewrite <- E.
  replace (A * P * R) with (A * (P * R)) in S1 by ring. lia.
Qed.

(** Bounds of a quotient and of a square root, from bounds of the operand. *)
Lemma quot_bounds m d q r L K :
  0 < d -> m = d * q + r -> 0 <= r < d ->
  d * L <= m -> m <= d * K ->
  L <= q /\ q + (if Z.eq_dec r 0 then 0 else 1) <= K.
Proof.
  intros Hd E Hr HL HK. split.
  - assert (d * L < d * (q + 1)) by lia.
    assert (L < q + 1) by (apply (Z.mul_lt_mono_pos_l d); assumption). lia.
  - destruct (Z.eq_dec r 0) as [->|Hne].
    + assert (d * q <= d * K) by lia.
      assert (q <= K) by (apply (Z.mul_le_mono_pos_l _ _ d); assumption). lia.
    + assert (d * q < d * K) by lia.
      assert (q < K) by (apply (Z.mul_lt_mono_pos_l d); assumption). lia.
Qed.

Lemma sqrt_bounds m q r L K :
  m = q * q + r -> 0 <= r <= 2 * q -> 0 <= L -> 0 <= K ->
  L * L <= m -> m <= K * K ->
  L <= q /\ q + (if Z.eqb r 0 then 0 else 1) <= K.
Proof.
  intros E Hr HL HK H1 H2.
  assert (Hq : 0 <= q) by lia.
  split.
  - destruct (Z_le_gt_dec L q) as [|G]; [assumption|exfalso].
    assert ((q + 1) * (q + 1) <= L * L) by (apply Z.mul_le_mono_nonneg; lia).
    lia.
  - destruct (Z.eqb_spec r 0) as [->|Hne].
    + destruct (Z_le_gt_dec q K) as [|G]; [lia|exfalso].
      assert ((K + 1) * (K + 1) <= q * q) by (apply Z.mul_le_mono_nonneg; lia).
      lia.
    + destruct (Z_lt_le_dec q K) as [|G]; [lia|exfalso].
      assert (K * K <= q * q) by (apply Z.mul_le_mono_nonneg; lia).
      lia.
Qed.

Lemma digits_gap d1 d2 ex ey j mx my hi :
  ex <= j -> ey <= 0 -> 1 <= d1 -> 1 <= d2 ->
  2 ^ (d1 - 1) <= mx -> 0 < my < 2 ^ d2 -> 0 < hi < 2 ^ 53 ->
  mx * 2 ^ (- ey) <= my * 2 ^ (- ey) * 0 + hi * my * 2 ^ (j - ex) ->
  d1 + ex - (d2 + ey) <= 53 + j.
Proof.
  intros Hex Hey Hd1 Hd2 Hl Hu Hhi X. rewrite Z.mul_0_r, Z.add_0_l in X.
  assert (PQ : 0 < 2 ^ (- ey)) by (apply Z.pow_pos_nonneg; lia).
  assert (PP : 0 < 2 ^ (j - ex)) by (apply Z.pow_pos_nonneg; lia).
  assert (Y : 2 ^ (d1 - 1) * 2 ^ (- ey) <= mx * 2 ^ (- ey))
    by (apply Z.mul_le_mono_nonneg_r; lia).
  assert (Z1 : hi * my < 2 ^ 53 * 2 ^ d2) by (apply Z.mul_lt_mono_nonneg; lia).
  assert (Z2 : hi * my * 2 ^ (j - ex) < 2 ^ 53 * 2 ^ d2 * 2 ^ (j - ex))
    by (apply Z.mul_lt_mono_pos_r; assumption).
  assert (W : 2 ^ (d1 - 1 + - ey) < 2 ^ (53 + d2 + (j - ex))).
  { rewrite !pow2_split by lia. lia. }
  apply Z.pow_lt_mono_r_iff in W; lia.
Qed.

Lemma div_within j x y A A' n lo hi :
  -1074 <= j <= 971 -> 0 <= lo -> 0 < hi < 2 ^ 53 ->
  lo * n <= A -> A' <= hi * n ->
  within j x A A' -> exactly y n -> within j (SF64div x y) lo hi.
Proof.
  intros Hj Hlo Hhi HA HA' Hx Hy.
  destruct y as [| | |[] my ey]; cbn in Hy; try contradiction.
  destruct Hy as [Hey Hmy].
  assert (Pey : 0 < 2 ^ (- ey)) by (apply Z.pow_pos_nonneg; lia).
  assert (Hn : 1 <= n).
  { destruct (Z_le_gt_dec 1 n) as [|G]; [assumption|exfalso].
    assert (n * 2 ^ (- ey) <= 0 * 2 ^ (- ey)) by (apply Z.mul_le_mono_nonneg_r; lia). lia. }
  destruct x as [sx|sx| |[] mx ex]; cbn in Hx; try contradiction.
  { cbn. assert (0 <= lo * n) by (apply Z.mul_nonneg_nonneg; lia).
    assert (lo * n <= 0) by lia.
    destruct (Z_le_gt_dec lo 0) as [|G]; [assumption|exfalso].
    assert (0 < lo * n) by (apply Z.mul_pos_pos; lia). lia. }
  destruct Hx as [Hex [Hmx Hmx']].
  unfold SF64div, SFdiv, SFdiv_core_binary. cbn [xorb].
  pose proof (digits2_bounds mx) as [D1l D1u].
  pose proof (digits2_bounds my) as [D2l D2u].
  cbn [Zdigits2].
  set (d1 := Zpos (digits2_pos mx)) in *. set (d2 := Zpos (digits2_pos my)) in *.
  assert (Hd1 : 1 <= d1) by (unfold d1; lia).
  assert (Hd2 : 1 <= d2) by (unfold d2; lia).
  assert (Pex : 0 < 2 ^ (j - ex)) by (apply Z.pow_pos_nonneg; lia).
  assert (Hdig : d1 + ex - (d2 + ey) <= 53 + j).
  { apply (digits_gap d1 d2 ex ey j (Zpos mx) (Zpos my) hi); try lia.
    rewrite Z.mul_0_r, Z.add_0_l, Hmy.
    pose proof (scale_le_hi (Zpos mx) A' hi n (2 ^ (j - ex)) (2 ^ (- ey)) (2 ^ (- ey))
                  (2 ^ (j - ex)) Pex Pey ltac:(lia) ltac:(ring) Hmx' HA') as X.
    replace (hi * (n * 2 ^ (- ey)) * 2 ^ (j - ex)) with (n * 2 ^ (- ey) * (hi * 2 ^ (j - ex))) by ring.
    exact X. }
  set (e' := Z.min (fexp prec emax (d1 + ex - (d2 + ey))) (ex - ey)).
  assert (He' : e' <= j).
  { unfold e', fexp, SpecFloat.emin, prec, emax. lia. }
  assert (He'' : e' <= ex - ey) by (unfold e'; lia).
  set (s := ex - ey - e').
  assert (Hs : 0 <= s) by (unfold s; lia).
  set (m' := match s with Zpos _ => Z.shiftl (Zpos mx) s | Z0 => Zpos mx | Zneg _ => 0 end).
  assert (Em' : m' = Zpos mx * 2 ^ s).
  { unfold m'. destruct s as [|p|p] eqn:Es; [cbn; lia| |lia].
    apply Z.shiftl_mul_pow2. lia. }
  assert (Ps : 0 < 2 ^ s) by (apply Z.pow_pos_nonneg; lia).
  assert (Pe' : 0 < 2 ^ (j - e')) by (apply Z.pow_pos_nonneg; lia).
  assert (E : 2 ^ (j - ex) * 2 ^ s = 2 ^ (- ey) * 2 ^ (j - e')).
  { rewrite <- !pow2_split by lia. f_equal. unfold s. lia. }
  assert (Hm' : m' <= Zpos my * (hi * 2 ^ (j - e'))).
  { rewrite Em', Hmy. apply (scale_le_hi _ A' _ _ (2 ^ (j - ex))); try assumption; lia. }
  assert (Hm'' : Zpos my * (lo * 2 ^ (j - e')) <= m').
  { rewrite Em', Hmy. apply (scale_le_lo _ A _ _ (2 ^ (j - ex))); try assumption; lia. }
  pose proof (Z_div_mod m' (Zpos my) ltac:(lia)) as DM.
  destruct (Z.div_eucl m' (Zpos my)) as [q r]. destruct DM as [DM1 DM2].
  destruct (quot_bounds m' (Zpos my) q r _ _ ltac:(lia) DM1 DM2 Hm'' Hm') as [Q1 Q2].
  assert (0 <= lo * 2 ^ (j - e')) by (apply Z.mul_nonneg_nonneg; lia).
  apply round_aux_within; [lia| exact He' | exact Hj | exact Hlo | exact Hhi | exact Q1 |].
  destruct (Z.eq_dec r 0) as [->|Hr].
  - rewrite new_location_zero. cbn [inexact]. lia.
  - assert (inexact (new_location (Zpos my) r) <= 1)
      by (destruct (new_location _ _); cbn; lia).
    lia.
Qed.

Lemma sqrt_within j x lo hi :
  -537 <= j <= 971 -> 0 <= lo -> 0 < hi < 2 ^ 53 ->
  within (2 * j) x (lo * lo) (hi * hi) -> within j (SF64sqrt x) lo hi.
Proof.
  intros Hj Hlo Hhi Hx.
  destruct x as [sx|sx| |[] mx ex]; cbn in Hx; try contradiction.
  { cbn. destruct (Z_le_gt_dec lo 0) as [|G]; [assumption|exfalso].
    assert (0 < lo * lo) by (apply Z.mul_pos_pos; lia). lia. }
  destruct Hx as [Hex [Hmx Hmx']].
  unfold SF64sqrt, SFsqrt, SFsqrt_core_binary. cbn [Zdigits2].
  set (d := Zpos (digits2_pos mx)).
  set (e' := Z.min (fexp prec emax (Z.div2 (d + ex + 1))) (Z.div2 ex)).
  assert (Hdiv : 2 * Z.div2 ex <= ex).
  { rewrite Z.div2_div. pose proof (Z.mul_div_le ex 2 ltac:(lia)). lia. }
  assert (He' : e' <= j).
  { unfold e'. assert (Z.div2 ex <= j); [|lia]. rewrite Z.div2_div.
    apply Z.div_le_upper_bound; lia. }
  assert (He2 : 2 * e' <= ex) by (unfold e'; lia).
  set (s := ex - 2 * e').
  assert (Hs : 0 <= s) by (unfold s; lia).
  set (m' := match s with Zpos _ => Z.shiftl (Zpos mx) s | Z0 => Zpos mx | Zneg _ => 0 end).
  assert (Em' : m' = Zpos mx * 2 ^ s).
  { unfold m'. destruct s as [|p|p] eqn:Es; [cbn; lia| |lia].
    apply Z.shiftl_mul_pow2. lia. }
  assert (Ps : 0 < 2 ^ s) by (apply Z.pow_pos_nonneg; lia).
  assert (Pe' : 0 < 2 ^ (j - e')) by (apply Z.pow_pos_nonneg; lia).
  assert (Pex : 0 < 2 ^ (2 * j - ex)) by (apply Z.pow_pos_nonneg; lia).
  assert (E : 2 ^ (2 * j - ex) * 2 ^ s = 2 ^ (j - e') * 2 ^ (j - e')).
  { rewrite <- !pow2_split by lia. f_equal. unfold s. lia. }
  set (K := hi * 2 ^ (j - e')). set (L := lo * 2 ^ (j - e')).
  assert (Hm' : m' <= K * K).
  { rewrite Em'. unfold K.
    assert (Zpos mx * 2 ^ s <= hi * hi * 2 ^ (2 * j - ex) * 2 ^ s)
      by (apply Z.mul_le_mono_nonneg_r; lia).
    replace (hi * 2 ^ (j - e') * (hi * 2 ^ (j - e')))
      with (hi * hi * (2 ^ (j - e') * 2 ^ (j - e'))) by ring.
    rewrite <- E. lia. }
  assert (Hm'' : L * L <= m').
  { rewrite Em'. unfold L.
    assert (lo * lo * 2 ^ (2 * j - ex) * 2 ^ s <= Zpos mx * 2 ^ s)
      by (apply Z.mul_le_mono_nonneg_r; lia).
    replace (lo * 2 ^ (j - e') * (lo * 2 ^ (j - e')))
      with (lo * lo * (2 ^ (j - e') * 2 ^ (j - e'))) by ring.
    rewrite <- E. lia. }
  assert (HK : 0 <= K) by (unfold K; apply Z.mul_nonneg_nonneg; lia).
  assert (HL : 0 <= L) by (unfold L; apply Z.mul_nonneg_nonneg; lia).
  assert (H0 : 0 <= m') by lia.
  pose proof (Z.sqrtrem_spec m' H0) as SR.
  destruct (Z.sqrtrem m') as [q r]. destruct SR as [SR1 SR2].
  destruct (sqrt_bounds m' q r L K SR1 SR2 HL HK Hm'' Hm') as [Q1 Q2].
  apply round_aux_within; [lia| exact He' | lia | exact Hlo | exact Hhi | exact Q1 |].
  fold K. destruct (Z.eqb r 0); cbn [inexact]; lia.
Qed.

(** ** The sum of squares is exact *)

Lemma square_exact_table : allFrom squareExact (Z.to_nat 65536) (-32768) = true.
Proof. vm_compute. reflexivity. Qed.

Lemma square_within x :
  -32768 <= x <= 32767 -> within (-30) (Prim2SF (square x)) (x * x) (x * x).
Proof.
  intros Hx.
  assert (T : squareExact x = true).
  { apply (allFrom_spec _ _ _ x square_exact_table). lia. }
  unfold squareExact in T.
  destruct (Prim2SF (square x)) as [s|s| |[] m e]; try discriminate T; cbn [within].
  - apply Z.eqb_eq in T. subst x. lia.
  - apply andb_true_iff in T. destruct T as [T1 T2].
    apply Z.leb_le in T1. apply Z.eqb_eq in T2.
    split; [exact T1|]. replace (-30 - e) with (-30 - e) in T2 by lia. lia.
Qed.

Lemma sumSq_nonneg xs : 0 <= sumSq xs.
Proof. induction xs as [|x xs IH]; cbn; [lia|]. fold (sumSq xs). nia. Qed.

Lemma sumSquares_within xs : forall acc A,
  Forall (fun x => -32768 <= x <= 32767) xs ->
  0 <= A -> A + sumSq xs < 2 ^ 53 ->
  within (-30) (Prim2SF acc) A A ->
  within (-30) (Prim2SF (fold_left addSq xs acc)) (A + sumSq xs) (A + sumSq xs).
Proof.
  induction xs as [|x xs IH]; intros acc A Hr HA Hlen Hacc.
  - cbn. rewrite Z.add_0_r. exact Hacc.
  - apply Forall_cons in Hr. destruct Hr as [Hx Hr].
    cbn [fold_left sumSq fold_right] in *. fold (sumSq xs) in *.
    pose proof (sumSq_nonneg xs) as Hs.
    replace (A + (x * x + sumSq xs)) with (A + x * x + sumSq xs) by lia.
    apply IH; [exact Hr | nia | lia |].
    change (addSq acc x) with (acc + square x)%float.
    rewrite FloatAxioms.add_spec. apply add_within; try lia; try nia; [exact Hacc|].
    apply square_within, Hx.
Qed.

Lemma sumSq_bound xs :
  Forall (fun x => -32768 <= x <= 32767) xs ->
  sumSq xs <= Z.of_nat (length xs) * 1073741824.
Proof.
  induction 1 as [|x xs Hx _ IH]; [cbn; lia|].
  cbn [sumSq fold_right length]. fold (sumSq xs). rewrite Nat2Z.inj_succ. nia.
Qed.

(** ** Comparison with the threshold 0.02 *)

Lemma pow2_le a b : a <= b -> 2 ^ a <= 2 ^ b.
Proof. intros. apply Z.pow_le_mono_r; lia. Qed.

Lemma canonical_digits m e :
  valid_binary (S754_finite false m e) = true ->
  Zpos (digits2_pos m) <= 53 /\ (-1074 < e -> Zpos (digits2_pos m) = 53).
Proof.
  cbn. intros V. apply andb_true_iff in V. destruct V as [C _].
  unfold canonical_mantissa in C. apply Z.eqb_eq in C.
  unfold fexp, SpecFloat.emin, prec, emax in C. lia.
Qed.

(** A valid number of at least 656 units of [2^-15] is above a number of
    exponent -58 whose mantissa is below [656 * 2^43]. *)
Lemma above_threshold (M : positive) f :
  Zpos M < 656 * 2 ^ 43 ->
  valid_binary f = true -> within (-15) f 656 32768 ->
  SFltb (S754_finite false M (-58)) f = true.
Proof.
  intros HM V H.
  destruct f as [s|s| |[] m e]; cbn [within] in H; try contradiction; try lia.
  destruct H as [He [Hl Hu]].
  destruct (canonical_digits m e V) as [Hd _].
  pose proof (digits2_bounds m) as [_ Du].
  assert (D53 : Zpos m < 2 ^ 53).
  { pose proof (pow2_le _ _ Hd). lia. }
  assert (P : 0 < 2 ^ (-15 - e)) by (apply Z.pow_pos_nonneg; lia).
  assert (Hge : -58 <= e).
  { destruct (Z_le_gt_dec (-58) e) as [|G]; [assumption|exfalso].
    pose proof (pow2_le 44 (-15 - e) ltac:(lia)) as Q.
    assert (656 * 2 ^ 44 <= 656 * 2 ^ (-15 - e)) by (apply Z.mul_le_mono_nonneg_l; lia).
    change (2 ^ 53) with (512 * 2 ^ 44) in D53.
    assert (0 < 2 ^ 44) by (apply Z.pow_pos_nonneg; lia). lia. }
  unfold SFltb, SFcompare.
  destruct (Z.compare_spec (-58) e) as [E|L|G]; [|reflexivity|lia].
  subst e. change (-15 - -58) with 43 in Hl.
  rewrite Pos.compare_cont_spec. cbn [Pos.switch_Eq].
  assert (Hlt : Zpos M < Zpos m) by lia.
  change ((M ?= m)%positive = Lt) in Hlt. rewrite Hlt. reflexivity.
Qed.

(** A valid number of at most 655 units of [2^-15] is not above a number of
    exponent -58 whose mantissa exceeds [655 * 2^43]. *)
Lemma below_threshold (M : positive) f :
  655 * 2 ^ 43 < Zpos M ->
  valid_binary f = true -> within (-15) f 0 655 ->
  SFltb (S754_finite false M (-58)) f = false.
Proof.
  intros HM V H.
  destruct f as [s|s| |[] m e]; cbn [within] in H; try contradiction; [reflexivity|].
  destruct H as [He [Hl Hu]].
  destruct (canonical_digits m e V) as [_ Hd].
  pose proof (digits2_bounds m) as [Dl _].
  assert (Hle : e <= -58).
  { destruct (Z_le_gt_dec e (-58)) as [|G]; [assumption|exfalso].
    rewrite Hd in Dl by lia. change (2 ^ (53 - 1)) with (1024 * 2 ^ 42) in Dl.
    pose proof (pow2_le (-15 - e) 42 ltac:(lia)) as Q.
    assert (655 * 2 ^ (-15 - e) <= 655 * 2 ^ 42) by (apply Z.mul_le_mono_nonneg_l; lia).
    assert (0 < 2 ^ 42) by (apply Z.pow_pos_nonneg; lia). lia. }
  unfold SFltb, SFcompare.
  destruct (Z.compare_spec (-58) e) as [E|L|G]; [|lia|reflexivity].
  subst e. change (-15 - -58) with 43 in Hu.
  rewrite Pos.compare_cont_spec. cbn [Pos.switch_Eq].
  assert (Hgt : Zpos m < Zpos M) by lia.
  change (m < M)%positive in Hgt.
  apply Pos.compare_gt_iff in Hgt. rewrite Hgt. reflexivity.
Qed.

(** ** The loudness between two amplitudes *)

Lemma calcRMS_within (buffer : Buffer) lo hi :
  samples buffer <> [] ->
  Z.of_nat (length (samples buffer)) < 2 ^ 23 ->
  0 <= lo -> 0 < hi <= 32768 ->
  lo * lo * Z.of_nat (length (samples buffer)) <= sumSq (samples buffer) ->
  sumSq (samples buffer) <= hi * hi * Z.of_nat (length (samples buffer)) ->
  within (-15) (Prim2SF (calcRMS buffer)) lo hi.
Proof.
  intros Hne Hlen Hlo Hhi HL HH. unfold calcRMS.
  set (xs := samples buffer) in *.
  set (n := Z.of_nat (length xs)) in *.
  assert (Hn : 0 < n) by (unfold n; destruct xs; [congruence|cbn; lia]).
  pose proof (sumSq_bound xs (samples_range buffer)) as Hb. fold n in Hb.
  pose proof (sumSq_nonneg xs) as H0.
  assert (H53 : sumSq xs < 2 ^ 53).
  { change (2 ^ 53) with (2 ^ 23 * 1073741824). nia. }
  assert (S : within (-30) (Prim2SF (sumSquares xs)) (sumSq xs) (sumSq xs)).
  { unfold sumSquares.
    apply (sumSquares_within xs 0%float 0); [apply samples_range | lia | lia |].
    cbn. lia. }
  assert (Hhh : 0 < hi * hi < 2 ^ 53).
  { split; [nia|]. change (2 ^ 53) with (8388608 * (32768 * 32768)). nia. }
  assert (D : within (-30) (Prim2SF (sumSquares xs / Z2F n)) (lo * lo) (hi * hi)).
  { rewrite FloatAxioms.div_spec.
    apply (div_within (-30) _ _ (sumSq xs) (sumSq xs) n); try lia; [exact S|].
    apply Z2F_exactly. split; [lia|].
    assert (2 ^ 23 < 2 ^ 53) by (apply Z.pow_lt_mono_r; lia). lia. }
  rewrite FloatAxioms.sqrt_spec. apply sqrt_within; try lia. exact D.
Qed.

(** ** Chunks with an odd number of bytes *)

Lemma samples_lookup : forall i (buffer : Buffer) lo hi,
  buffer !! (2 * i)%nat = Some lo -> buffer !! (2 * i + 1)%nat = Some hi ->
  samples buffer !! i = Some (int16 lo hi).
Proof.
  induction i as [|i IH]; intros buffer lo hi.
  - destruct buffer as [|a [|b rest]]; cbn; try discriminate.
    intros [= ->] [= ->]. reflexivity.
  - replace (2 * S i)%nat with (S (S (2 * i))) by lia.
    replace (S (S (2 * i)) + 1)%nat with (S (S (2 * i + 1))) by lia.
    destruct buffer as [|a [|b rest]]; cbn [lookup list_lookup samples]; try discriminate.
    apply IH.
Qed.

Lemma int16_congruent lo hi :
  (int16 lo hi - (byte_val lo + 256 * byte_val hi)) mod 65536 = 0.
Proof.
  unfold int16. destruct (_ <? _).
  - rewrite Z.sub_diag. reflexivity.
  - replace (byte_val lo + 256 * byte_val hi - 65536 - (byte_val lo + 256 * byte_val hi))
      with (-1 * 65536) by lia.
    apply Z.mod_mul. lia.
Qed.

(** C8.  The samples of a chunk with an odd number of bytes are the
    16-bit little-endian values of its complete byte pairs, in order, and
    nothing else: the last byte is not read, and the view is that of the
    chunk without it.  The loudness is computed over these samples: it lies
    between any two amplitudes (in units of 1/32768) that bound their root
    mean square; a single byte holds no sample and gives NaN.  The stream
    handler does not throw on such a chunk and answers once, with the [ok]
    response that carries this loudness. *)
Theorem odd_chunk_truncated (chunk : Buffer) :
  Nat.odd (length chunk) = true ->
  length (samples chunk) = Nat.div2 (length chunk)
  /\ (forall i lo hi,
        chunk !! (2 * i)%nat = Some lo -> chunk !! (2 * i + 1)%nat = Some hi ->
        samples chunk !! i = Some (int16 lo hi)
        /\ -32768 <= int16 lo hi <= 32767
        /\ (int16 lo hi - (byte_val lo + 256 * byte_val hi)) mod 65536 = 0)
  /\ samples chunk = samples (removelast chunk)
  /\ calcRMS chunk = calcRMS (removelast chunk)
  /\ (forall lo hi,
        (2 < length chunk)%nat -> Z.of_nat (length chunk) < 2 ^ 24 ->
        0 <= lo -> 0 < hi <= 32768 ->
        lo * lo * Z.of_nat (Nat.div2 (length chunk)) <= sumSq (samples (removelast chunk)) ->
        sumSq (samples (removelast chunk)) <= hi * hi * Z.of_nat (Nat.div2 (length chunk)) ->
        within (-15) (Prim2SF (calcRMS chunk)) lo hi)
  /\ (length chunk = 1%nat -> PrimFloat.is_nan (calcRMS chunk) = true)
  /\ forall SILENCE_MS now id rate st,
       let q := {| q_id := id; q_sample_rate := rate; q_body := chunk |} in
       (postStream SILENCE_MS now q st).1.1 = Ok tt
       /\ responses (step SILENCE_MS now (PostStream q) st).2
          = [StreamOk (calcRMS (removelast chunk))]
       /\ last (step SILENCE_MS now (PostStream q) st).2
          = Some (Respond (StreamOk (calcRMS (removelast chunk)))).
Proof.
  intros Hodd.
  assert (Hs : samples chunk = samples (removelast chunk)).
  { apply Nat.odd_spec in Hodd. destruct Hodd as [n Hn].
    apply (samples_odd n). lia. }
  assert (Hc : calcRMS chunk = calcRMS (removelast chunk)) by apply calcRMS_samples, Hs.
  split; [apply samples_length|]. split.
  { intros i lo hi H1 H2. split; [apply samples_lookup; assumption|].
    split; [apply int16_range|apply int16_congruent]. }
  split; [exact Hs|]. split; [exact Hc|]. split.
  { intros lo hi Hlen Hbig Hlo Hhi HL HH.
    assert (Hd : length (samples chunk) = Nat.div2 (length chunk)) by apply samples_length.
    assert (Hpos : (0 < Nat.div2 (length chunk))%nat).
    { destruct chunk as [|a [|b [|c rest]]]; cbn in Hlen |- *; lia. }
    assert (Hhalf : (2 * Nat.div2 (length chunk) <= length chunk)%nat).
    { pose proof (Nat.div2_odd (length chunk)) as D. lia. }
    rewrite <- Hs in HL, HH. rewrite <- Hd in HL, HH.
    apply calcRMS_within; try assumption.
    - intros E. rewrite E in Hd. cbn in Hd. lia.
    - rewrite Hd. change (2 ^ 24) with (2 * 2 ^ 23) in Hbig. lia. }
  split.
  { intros H1. rewrite (calcRMS_samples chunk []); [vm_compute; reflexivity|].
    apply samples_short. lia. }
  intros SILENCE_MS now id rate st q. split; [apply postStream_total|].
  rewrite step_postStream, postStream_closed. cbn [snd]. cbn [q_body q].
  rewrite Hc. split; [|apply last_snoc].
  rewrite responses_app. cbn [responses omap app].
  match goal with |- ?l ++ _ = _ => assert (E : l = []) end; [|rewrite E; reflexivity].
  destruct (silenceDetected _ _ _); [|reflexivity].
  apply finalizeFx_no_response.
Qed.

Lemma odd_chunk_truncated_witness :
  Nat.odd (length [x10; x27; xff]) = true
  /\ calcRMS [x10; x27; xff] = calcRMS [x10; x27].
Proof.
  split; [reflexivity|].
  exact (proj1 (proj2 (proj2 (proj2 (odd_chunk_truncated [x10; x27; xff] eq_refl))))).
Defined.

Lemma ACTIVE_RMS_bits : Prim2SF ACTIVE_RMS = S754_finite false 5764607523034235 (-58).
Proof. vm_compute. reflexivity. Qed.

Lemma sumSq_amplitude_le a xs :
  Forall (fun x => - a <= x <= a) xs -> sumSq xs <= a * a * Z.of_nat (length xs).
Proof.
  induction 1 as [|x xs Hx _ IH]; [cbn; lia|].
  cbn [sumSq fold_right length]. fold (sumSq xs). rewrite Nat2Z.inj_succ. nia.
Qed.

Lemma sumSq_amplitude_ge a xs :
  0 <= a -> Forall (fun x => x <= - a \/ a <= x) xs -> a * a * Z.of_nat (length xs) <= sumSq xs.
Proof.
  intros Ha. induction 1 as [|x xs Hx _ IH]; [cbn; lia|].
  cbn [sumSq fold_right length]. fold (sumSq xs). rewrite Nat2Z.inj_succ. nia.
Qed.

Lemma sumSquares_units (buffer : Buffer) :
  Z.of_nat (length (samples buffer)) < 2 ^ 23 ->
  within (-30) (Prim2SF (sumSquares (samples buffer)))
    (sumSq (samples buffer)) (sumSq (samples buffer)).
Proof.
  intros Hlen. set (xs := samples buffer) in *.
  pose proof (sumSq_bound xs (samples_range buffer)) as Hb.
  pose proof (sumSq_nonneg xs) as H0.
  assert (H53 : sumSq xs < 2 ^ 53).
  { change (2 ^ 53) with (2 ^ 23 * 1073741824). nia. }
  unfold sumSquares.
  apply (sumSquares_within xs 0%float 0); [apply samples_range | lia | lia |].
  cbn. lia.
Qed.

(** X12.  The loop of [calcRMS] adds the squares without any rounding
    error: for a body of fewer than 2^23 samples (16 MiB, above the limit
    of the route), [sumSq] after the loop is exactly the integer sum of the
    squared samples, in units of [2^-30]. *)
Theorem sumSquares_is_exact (buffer : Buffer) :
  Z.of_nat (length (samples buffer)) < 2 ^ 23 ->
  within (-30) (Prim2SF (sumSquares (samples buffer)))
    (sumSq (samples buffer)) (sumSq (samples buffer)).
Proof.
  intros Hlen.
  pose proof (sumSq_bound _ (samples_range buffer)) as Hb.
  pose proof (sumSq_nonneg (samples buffer)) as H0.
  assert (H53 : sumSq (samples buffer) < 2 ^ 53).
  { change (2 ^ 53) with (2 ^ 23 * 1073741824). nia. }
  unfold sumSquares.
  apply (sumSquares_within _ 0%float 0); [apply samples_range | lia | lia |].
  cbn. lia.
Qed.

Lemma sumSquares_is_exact_witness :
  Z.of_nat (length (samples [xff; x7f; x00; x80])) < 2 ^ 23
  /\ within (-30) (Prim2SF (sumSquares (samples [xff; x7f; x00; x80])))
       (sumSq (samples [xff; x7f; x00; x80])) (sumSq (samples [xff; x7f; x00; x80])).
Proof.
  assert (H : Z.of_nat (length (samples [xff; x7f; x00; x80])) < 2 ^ 23)
    by (vm_compute; reflexivity).
  split; [exact H|]. exact (sumSquares_is_exact [xff; x7f; x00; x80] H).
Defined.

(** X13.  A quiet chunk is never taken for speech: when the mean of the
    squared samples is at most 655^2, and so when every sample lies in
    [-655, 655], the loudness computed in double precision is not above
    0.02 and the chunk is classified silent (0.02 * 32768 = 655.36). *)
Theorem quiet_chunk_is_silent (chunk : Buffer) :
  samples chunk <> [] ->
  Z.of_nat (length (samples chunk)) < 2 ^ 23 ->
  (sumSq (samples chunk) <= 655 * 655 * Z.of_nat (length (samples chunk)) ->
     isActive (calcRMS chunk) = false)
  /\ (Forall (fun x => -655 <= x <= 655) (samples chunk) ->
     isActive (calcRMS chunk) = false).
Proof.
  intros Hne Hlen.
  assert (Q : sumSq (samples chunk) <= 655 * 655 * Z.of_nat (length (samples chunk)) ->
              isActive (calcRMS chunk) = false).
  { intros H. unfold isActive. rewrite FloatAxioms.ltb_spec, ACTIVE_RMS_bits.
    apply below_threshold; [reflexivity | apply Prim2SF_valid |].
    apply calcRMS_within; try assumption; try lia.
    pose proof (sumSq_nonneg (samples chunk)). lia. }
  split; [exact Q|]. intros H. apply Q. apply (sumSq_amplitude_le 655), H.
Qed.

Lemma quiet_chunk_is_silent_witness :
  samples [x8f; x02; x71; xfd] <> []
  /\ Z.of_nat (length (samples [x8f; x02; x71; xfd])) < 2 ^ 23
  /\ isActive (calcRMS [x8f; x02; x71; xfd]) = false.
Proof.
  assert (H1 : samples [x8f; x02; x71; xfd] <> []) by (cbn; discriminate).
  assert (H2 : Z.of_nat (length (samples [x8f; x02; x71; xfd])) < 2 ^ 23)
    by (vm_compute; reflexivity).
  split; [exact H1|]. split; [exact H2|].
  apply (proj2 (quiet_chunk_is_silent [x8f; x02; x71; xfd] H1 H2)).
  repeat constructor; vm_compute; discriminate.
Defined.

(** X14.  A loud chunk is always taken for speech: when the mean of the
    squared samples is at least 656^2, and so when every sample has
    magnitude 656 or more, the loudness computed in double precision is
    above 0.02 and the chunk is classified active. *)
Theorem loud_chunk_is_active (chunk : Buffer) :
  samples chunk <> [] ->
  Z.of_nat (length (samples chunk)) < 2 ^ 23 ->
  (656 * 656 * Z.of_nat (length (samples chunk)) <= sumSq (samples chunk) ->
     isActive (calcRMS chunk) = true)
  /\ (Forall (fun x => x <= -656 \/ 656 <= x) (samples chunk) ->
     isActive (calcRMS chunk) = true).
Proof.
  intros Hne Hlen.
  assert (Q : 656 * 656 * Z.of_nat (length (samples chunk)) <= sumSq (samples chunk) ->
              isActive (calcRMS chunk) = true).
  { intros H. unfold isActive. rewrite FloatAxioms.ltb_spec, ACTIVE_RMS_bits.
    apply above_threshold; [reflexivity | apply Prim2SF_valid |].
    apply calcRMS_within; try assumption; try lia.
    pose proof (sumSq_bound _ (samples_range chunk)). lia. }
  split; [exact Q|]. intros H. apply Q. apply (sumSq_amplitude_ge 656); [lia|exact H].
Qed.

Lemma loud_chunk_is_active_witness :
  samples [x90; x02; x70; xfd] <> []
  /\ Z.of_nat (length (samples [x90; x02; x70; xfd])) < 2 ^ 23
  /\ isActive (calcRMS [x90; x02; x70; xfd]) = true.
Proof.
  assert (H1 : samples [x90; x02; x70; xfd] <> []) by (cbn; discriminate).
  assert (H2 : Z.of_nat (length (samples [x90; x02; x70; xfd])) < 2 ^ 23)
    by (vm_compute; reflexivity).
  split; [exact H1|]. split; [exact H2|].
  apply (proj2 (loud_chunk_is_active [x90; x02; x70; xfd] H1 H2)).
  cbn [samples]. constructor; [right|constructor; [left|constructor]];
    vm_compute; discriminate.
Defined.

(** ** The loudness is determined by the energy *)

Lemma digits_shift (m : positive) k :
  0 <= k -> Zdigits2 (Zpos m * 2 ^ k) = Zpos (digits2_pos m) + k.
Proof.
  intros Hk. pose proof (digits2_bounds m) as [Dl Du].
  assert (P : 0 < 2 ^ k) by (apply Z.pow_pos_nonneg; lia).
  apply Zdigits2_eq; [lia|]. split.
  - replace (Zpos (digits2_pos m) + k - 1) with (Zpos (digits2_pos m) - 1 + k) by lia.
    rewrite pow2_split by lia. apply Z.mul_le_mono_nonneg_r; lia.
  - rewrite pow2_split by lia. apply Z.mul_lt_mono_pos_r; lia.
Qed.

Lemma canonical_exponent m e :
  valid_binary (S754_finite false m e) = true ->
  fexp prec emax (Zdigits2 (Zpos m) + e) = e.
Proof.
  cbn. intros V. apply andb_true_iff in V. destruct V as [C _].
  unfold canonical_mantissa in C. apply Z.eqb_eq in C. exact C.
Qed.

Lemma within_unique_le j N m1 e1 m2 e2 :
  e1 <= e2 ->
  valid_binary (S754_finite false m1 e1) = true ->
  valid_binary (S754_finite false m2 e2) = true ->
  within j (S754_finite false m1 e1) N N ->
  within j (S754_finite false m2 e2) N N ->
  S754_finite false m1 e1 = S754_finite false m2 e2.
Proof.
  intros Hle V1 V2 [H1 M1] [H2 M2].
  assert (E1 : Zpos m1 = N * 2 ^ (j - e1)) by lia.
  assert (E2 : Zpos m2 = N * 2 ^ (j - e2)) by lia.
  assert (E : Zpos m1 = Zpos m2 * 2 ^ (e2 - e1)).
  { rewrite E1, E2, <- Z.mul_assoc, <- pow2_split by lia. f_equal. f_equal. lia. }
  pose proof (canonical_exponent m1 e1 V1) as C1.
  pose proof (canonical_exponent m2 e2 V2) as C2.
  rewrite E, digits_shift in C1 by lia. cbn [Zdigits2] in C2.
  replace (Zpos (digits2_pos m2) + (e2 - e1) + e1) with (Zpos (digits2_pos m2) + e2) in C1 by lia.
  assert (e1 = e2) by congruence. subst e2.
  rewrite Z.sub_diag in E. cbn in E. f_equal. lia.
Qed.

Lemma within_unique j N f1 f2 :
  0 < N ->
  valid_binary f1 = true -> valid_binary f2 = true ->
  within j f1 N N -> within j f2 N N -> f1 = f2.
Proof.
  intros HN V1 V2 H1 H2.
  destruct f1 as [s1|s1| |[] m1 e1]; cbn [within] in H1; try contradiction; try lia.
  destruct f2 as [s2|s2| |[] m2 e2]; cbn [within] in H2; try contradiction; try lia.
  destruct (Z_le_gt_dec e1 e2).
  - apply (within_unique_le j N); assumption || lia.
  - symmetry. apply (within_unique_le j N); assumption || lia.
Qed.

Lemma sumSq_zero xs : sumSq xs = 0 -> Forall (eq 0) xs.
Proof.
  induction xs as [|x xs IH]; [constructor|].
  cbn [sumSq fold_right]. fold (sumSq xs). pose proof (sumSq_nonneg xs) as Hs. intros H.
  assert (Hx : x * x = 0) by nia. assert (Hr : sumSq xs = 0) by nia.
  constructor; [nia|auto].
Qed.

Lemma sumSquares_determined (b1 b2 : Buffer) :
  Z.of_nat (length (samples b1)) < 2 ^ 23 ->
  Z.of_nat (length (samples b2)) < 2 ^ 23 ->
  sumSq (samples b1) = sumSq (samples b2) ->
  sumSquares (samples b1) = sumSquares (samples b2).
Proof.
  intros L1 L2 E.
  destruct (Z.eq_dec (sumSq (samples b1)) 0) as [Z0|NZ].
  - rewrite !sumSquares_zero; [reflexivity| |]; apply sumSq_zero; congruence.
  - apply Prim2SF_inj.
    pose proof (sumSq_nonneg (samples b1)).
    apply (within_unique (-30) (sumSq (samples b1))); try apply Prim2SF_valid; [lia| |].
    + apply sumSquares_units, L1.
    + rewrite E. apply sumSquares_units, L2.
Qed.

(** X15.  The loudness depends on the samples only through their number
    and the sum of their squares: neither the order of the samples nor
    their signs matter. *)
Theorem loudness_depends_on_energy (b1 b2 : Buffer) :
  Z.of_nat (length (samples b1)) < 2 ^ 23 ->
  length (samples b1) = length (samples b2) ->
  sumSq (samples b1) = sumSq (samples b2) ->
  calcRMS b1 = calcRMS b2.
Proof.
  intros L1 Hl E. unfold calcRMS. rewrite <- Hl.
  rewrite (sumSquares_determined b1 b2); [reflexivity|exact L1| |exact E].
  rewrite <- Hl. exact L1.
Qed.

Lemma loudness_depends_on_energy_witness :
  Z.of_nat (length (samples [x01; x00; x02; x00])) < 2 ^ 23
  /\ length (samples [x01; x00; x02; x00]) = length (samples [xfe; xff; xff; xff])
  /\ sumSq (samples [x01; x00; x02; x00]) = sumSq (samples [xfe; xff; xff; xff])
  /\ calcRMS [x01; x00; x02; x00] = calcRMS [xfe; xff; xff; xff].
Proof.
  assert (H1 : Z.of_nat (length (samples [x01; x00; x02; x00])) < 2 ^ 23)
    by (vm_compute; reflexivity).
  assert (H2 : length (samples [x01; x00; x02; x00]) = length (samples [xfe; xff; xff; xff]))
    by reflexivity.
  assert (H3 : sumSq (samples [x01; x00; x02; x00]) = sumSq (samples [xfe; xff; xff; xff]))
    by (vm_compute; reflexivity).
  split; [exact H1|]. split; [exact H2|]. split; [exact H3|].
  exact (loudness_depends_on_energy _ _ H1 H2 H3).
Defined.

Lemma amplitude_table : allFrom amplitudeExact (Z.to_nat 32768) 1 = true.
Proof. vm_compute. reflexivity. Qed.

(** X16.  A signal of constant magnitude [a] has loudness [a / 32768],
    exactly. *)
Theorem constant_amplitude_loudness (buffer : Buffer) (a : Z) :
  samples buffer <> [] ->
  Z.of_nat (length (samples buffer)) < 2 ^ 23 ->
  0 < a <= 32768 ->
  Forall (fun x => x = a \/ x = - a) (samples buffer) ->
  calcRMS buffer = (Z2F a / 32768)%float.
Proof.
  intros Hne Hlen Ha Hall.
  apply Prim2SF_inj.
  apply (within_unique (-15) a); try apply Prim2SF_valid; [lia| |].
  - apply calcRMS_within; try assumption; try lia.
    + apply (sumSq_amplitude_ge a); [lia|].
      eapply Forall_impl; [exact Hall|]. cbn. lia.
    + apply (sumSq_amplitude_le a).
      eapply Forall_impl; [exact Hall|]. cbn. lia.
  - assert (T : amplitudeExact a = true).
    { apply (allFrom_spec _ _ _ a amplitude_table). lia. }
    unfold amplitudeExact in T.
    destruct (Prim2SF (Z2F a / 32768)) as [s|s| |[] m e]; try discriminate T.
    apply andb_true_iff in T. destruct T as [T1 T2].
    apply Z.leb_le in T1. apply Z.eqb_eq in T2. cbn [within]. lia.
Qed.

Lemma constant_amplitude_loudness_witness :
  samples [xe8; x03; x18; xfc] <> []
  /\ Z.of_nat (length (samples [xe8; x03; x18; xfc])) < 2 ^ 23
  /\ 0 < 1000 <= 32768
  /\ calcRMS [xe8; x03; x18; xfc] = (Z2F 1000 / 32768)%float.
Proof.
  assert (H1 : samples [xe8; x03; x18; xfc] <> []) by (cbn; discriminate).
  assert (H2 : Z.of_nat (length (samples [xe8; x03; x18; xfc])) < 2 ^ 23)
    by (vm_compute; reflexivity).
  assert (H3 : 0 < 1000 <= 32768) by lia.
  split; [exact H1|]. split; [exact H2|]. split; [exact H3|].
  apply (constant_amplitude_loudness _ 1000 H1 H2 H3).
  cbn [samples]. constructor; [left|constructor; [right|constructor]];
    vm_compute; reflexivity.
Defined.

(** * Properties of the relays *)

(** ** Uploads *)

Lemma received_spec chunks : forall acc,
  fold_left onData chunks acc
  = (acc.1 ++ chunks, (acc.2 + length (concat chunks))%nat).
Proof.
  induction chunks as [|c cs IH]; intros [bufs n].
  - cbn. rewrite app_nil_r, Nat.add_0_r. reflexivity.
  - cbn [fold_left]. rewrite IH. unfold onData. cbn [fst snd concat].
    rewrite <- app_assoc, length_app. f_equal. lia.
Qed.

Lemma bufferConcat_exact (bufs : list Buffer) :
  bufferConcat bufs (length (concat bufs)) = concat bufs.
Proof.
  unfold bufferConcat. rewrite Nat.sub_diag. cbn [replicate].
  rewrite app_nil_r. apply firstn_all.
Qed.

Lemma onEnd_closed (guarded : bool) (header query : option string)
    (chunks : list Buffer) (ready : readyState) (sendThrows : bool) :
  let body := concat chunks in
  let clientId := clientIdOf header query in
  onEnd guarded header query chunks ready sendThrows
  = match body with
    | [] => [LogEmptyBody; Reply EmptyBody]
    | _ :: _ =>
        LogStream (length body) clientId ::
        if isOpen ready then
          if sendThrows then
            if guarded then [LogSendException; Reply SendFailed] else [Uncaught]
          else [Send body; Reply (Forwarded (length body) clientId)]
        else [LogNotConnected; Reply NotConnected]
    end.
Proof.
  cbn zeta. unfold onEnd, received. rewrite received_spec. cbn [fst snd app].
  rewrite Nat.add_0_l, bufferConcat_exact.
  destruct (concat chunks) as [|b bs]; reflexivity.
Qed.

(** X17.  An upload reaches the upstream unchanged: when the body is not
    empty, the socket is open and [ws.send] does not throw, what is sent is
    the concatenation of the chunks of the request in the order of arrival,
    and the answer reports its length; an empty body is answered 400, a
    socket that is not open 503, and nothing is sent.  A throwing
    [ws.send] is answered 500 where the call is guarded ([server.js]) and
    leaves the handler where it is not. *)
Theorem upload_forwarded_unchanged (guarded : bool) (header query : option string)
    (chunks : list Buffer) (ready : readyState) (sendThrows : bool) :
  let body := concat chunks in
  let clientId := clientIdOf header query in
  onEnd guarded header query chunks ready sendThrows
  = match body with
    | [] => [LogEmptyBody; Reply EmptyBody]
    | _ :: _ =>
        LogStream (length body) clientId ::
        if isOpen ready then
          if sendThrows then
            if guarded then [LogSendException; Reply SendFailed] else [Uncaught]
          else [Send body; Reply (Forwarded (length body) clientId)]
        else [LogNotConnected; Reply NotConnected]
    end.
Proof.
  cbn zeta. unfold onEnd, received. rewrite received_spec. cbn [fst snd app].
  rewrite Nat.add_0_l, bufferConcat_exact.
  destruct (concat chunks) as [|b bs]; reflexivity.
Qed.

(** ** Polling [server.js] *)

Lemma polledOf_app fx1 fx2 : polledOf (fx1 ++ fx2) = polledOf fx1 ++ polledOf fx2.
Proof. unfold polledOf. rewrite omap_app, concat_app. reflexivity. Qed.

Lemma onEnd_polled guarded header query chunks ready sendThrows :
  polledOf (onEnd guarded header query chunks ready sendThrows) = [].
Proof.
  rewrite onEnd_closed. cbn zeta.
  destruct (concat chunks); [reflexivity|].
  destruct (isOpen ready), sendThrows, guarded; reflexivity.
Qed.

Lemma relay_step_polled e st :
  polledOf (Relay.step e st).2 ++ (Relay.step e st).1 `sublist_of` st ++ textsOf [e]
  /\ (isInterval e = false ->
      polledOf (Relay.step e st).2 ++ (Relay.step e st).1 = st ++ textsOf [e]).
Proof.
  destruct e as [e|]; [destruct e as [|[txt|] [|]|code| | |h q c r t|c| |r]|];
    cbn [Relay.step Relay.handle Relay.cleanup fst snd textsOf omap isInterval];
    rewrite ?onEnd_polled; cbn; rewrite ?app_nil_r;
    try (split; [reflexivity|intros _; reflexivity]).
  split; [|discriminate].
  destruct st; cbn; apply sublist_nil_l.
Qed.

Lemma textsOf_cons e evs : textsOf (e :: evs) = textsOf [e] ++ textsOf evs.
Proof. change (e :: evs) with ([e] ++ evs). unfold textsOf. apply omap_app. Qed.

Lemma relay_run_polled evs : forall st,
  polledOf (Relay.run evs st).2 ++ (Relay.run evs st).1 `sublist_of` st ++ textsOf evs
  /\ (forallb (fun e => negb (isInterval e)) evs = true ->
      polledOf (Relay.run evs st).2 ++ (Relay.run evs st).1 = st ++ textsOf evs).
Proof.
  induction evs as [|e rest IH]; intros st.
  - cbn. rewrite app_nil_r. split; [reflexivity|auto].
  - cbn [Relay.run]. destruct (relay_step_polled e st) as [S1 S2].
    destruct (Relay.step e st) as [st1 fx1]. cbn [fst snd] in *.
    destruct (IH st1) as [I1 I2].
    destruct (Relay.run rest st1) as [st2 fx2]. cbn [fst snd] in *.
    rewrite polledOf_app, textsOf_cons, <- app_assoc. split.
    + transitivity (polledOf fx1 ++ st1 ++ textsOf rest).
      * apply sublist_app; [reflexivity|exact I1].
      * rewrite !app_assoc. apply sublist_app; [exact S1|reflexivity].
    + cbn [forallb]. intros H. apply andb_true_iff in H. destruct H as [H1 H2].
      rewrite (I2 H2). rewrite !app_assoc. f_equal. apply S2.
      destruct (isInterval e); [discriminate|reflexivity].
Qed.

(** X18.  [server.js] hands each upstream text to at most one poll, in the
    order of arrival: the texts polled so far, followed by the texts still
    stored, are a subsequence of the texts received, and all of them when
    the cleanup timer did not run in between.  A poll returns what is
    stored and leaves nothing for the next one. *)
Theorem poll_hands_out_each_text_once (evs : list Relay.event) :
  let r := Relay.run evs Relay.initial in
  polledOf r.2 ++ r.1 `sublist_of` textsOf evs
  /\ (forallb (fun e => negb (isInterval e)) evs = true -> polledOf r.2 ++ r.1 = textsOf evs)
  /\ (Relay.step (Relay.Io Poll) r.1).2 = [Reply (Polled r.1)]
  /\ (Relay.step (Relay.Io Poll) (Relay.step (Relay.Io Poll) r.1).1).2 = [Reply (Polled [])].
Proof.
  cbn zeta. destruct (relay_run_polled evs Relay.initial) as [H1 H2].
  repeat split; assumption.
Qed.

Lemma poll_hands_out_each_text_once_witness :
  polledOf (Relay.run [Relay.Io (WsMessage (Some "a") false); Relay.Io Poll;
                       Relay.Io (WsMessage (Some "b") false)] Relay.initial).2
  ++ (Relay.run [Relay.Io (WsMessage (Some "a") false); Relay.Io Poll;
                 Relay.Io (WsMessage (Some "b") false)] Relay.initial).1
  = ["a"; "b"].
Proof.
  exact (proj1 (proj2 (poll_hands_out_each_text_once
           [Relay.Io (WsMessage (Some "a") false); Relay.Io Poll;
            Relay.Io (WsMessage (Some "b") false)])) eq_refl).
Defined.

(** ** The latest text and its timer *)

Lemma latest_quiet_handle now e st :
  quiet e = true -> (LatestRelay.handle now e st).1 = st.
Proof.
  intros Q.
  destruct e as [|[txt|] [|]|code| | |h q c r t|c| |r]; try discriminate Q; reflexivity.
Qed.

Lemma latest_step_quiet T txt now e st :
  quiet e = true ->
  (holding T txt st -> now < T + 1000 -> holding T txt (LatestRelay.step now e st).1)
  /\ (holding T txt st \/ expired st ->
      holding T txt (LatestRelay.step now e st).1 \/ expired (LatestRelay.step now e st).1).
Proof.
  intros Q. unfold LatestRelay.step.
  assert (Hk : holding T txt st -> now < T + 1000 -> LatestRelay.tick now st = (st, [])).
  { intros -> Hlt. unfold LatestRelay.tick. cbn.
    destruct (Z.leb_spec (T + 1000) now); [lia|reflexivity]. }
  split.
  - intros H Hlt. rewrite (Hk H Hlt).
    pose proof (latest_quiet_handle now e st Q) as E.
    destruct (LatestRelay.handle now e st) as [st2 fx2]. cbn in *. subst st2. exact H.
  - intros H.
    assert (Ht : holding T txt (LatestRelay.tick now st).1 \/ expired (LatestRelay.tick now st).1).
    { destruct H as [->|[H1 H2]].
      - unfold LatestRelay.tick. cbn [LatestRelay.clearTimer].
        destruct (T + 1000 <=? now); [|left; reflexivity].
        right. destruct (LatestRelay.held _) eqn:Eh; split; try reflexivity.
        unfold LatestRelay.held in *. cbn in *. exact Eh.
      - right. unfold LatestRelay.tick. rewrite H2. split; assumption. }
    destruct (LatestRelay.tick now st) as [st1 fx1]. cbn [fst] in Ht.
    pose proof (latest_quiet_handle now e st1 Q) as E.
    destruct (LatestRelay.handle now e st1) as [st2 fx2]. cbn in *. subst st2. exact Ht.
Qed.

Lemma latest_run_quiet T txt : forall evs st,
  Forall (fun e => quiet e.2 = true) evs ->
  (holding T txt st -> Forall (fun e => e.1 < T + 1000) evs ->
     holding T txt (LatestRelay.run evs st).1)
  /\ (holding T txt st \/ expired st ->
      holding T txt (LatestRelay.run evs st).1 \/ expired (LatestRelay.run evs st).1).
Proof.
  induction evs as [|[now e] rest IH]; intros st Q; [cbn; auto|].
  inversion Q as [|x l Q1 Q2]; subst. cbn [snd] in Q1.
  cbn [LatestRelay.run].
  destruct (latest_step_quiet T txt now e st Q1) as [S1 S2].
  destruct (LatestRelay.step now e st) as [st1 fx1]. cbn [fst] in *.
  destruct (IH st1 Q2) as [I1 I2].
  destruct (LatestRelay.run rest st1) as [st2 fx2]. cbn [fst] in *.
  split.
  - intros H F. inversion F as [|x l F1 F2]; subst. cbn [fst] in F1. auto.
  - auto.
Qed.

(** X19.  The variant keeps the latest text for one second.  After a text
    that arrives at [T], and as long as no other text arrives and nobody
    polls, a poll before [T + 1000] returns that text (nothing when the
    text is empty) and the poll after it returns nothing; a poll at or
    after [T + 1000] returns nothing.  What was held or scheduled before
    [T] plays no role: the timer is reset by every text. *)
Theorem latest_text_lives_one_second st T txt (evs : list (Z * relay_event)) t :
  Forall (fun e => quiet e.2 = true) evs ->
  let st1 := (LatestRelay.step T (WsMessage (Some txt) false) st).1 in
  let st2 := (LatestRelay.run evs st1).1 in
  (Forall (fun e => e.1 < T + 1000) evs -> t < T + 1000 ->
     (LatestRelay.step t Poll st2).2
     = [Reply (Polled (if String.eqb txt "" then [] else [txt]))]
     /\ forall t', repliesOf (LatestRelay.step t' Poll (LatestRelay.step t Poll st2).1).2
                   = [Polled []])
  /\ (T + 1000 <= t -> repliesOf (LatestRelay.step t Poll st2).2 = [Polled []]).
Proof.
  intros Q st1 st2.
  assert (H1 : holding T txt st1).
  { unfold st1, LatestRelay.step. destruct (LatestRelay.tick T st) as [s0 f0]. reflexivity. }
  destruct (latest_run_quiet T txt evs st1 Q) as [R1 R2]. fold st2 in R1, R2.
  pose proof H1 as H1'.
  clearbody st2. clear H1. clearbody st1.
  split.
  - intros F Hlt. specialize (R1 H1' F). unfold holding in R1. subst st2.
    unfold LatestRelay.step, LatestRelay.tick. cbn [LatestRelay.clearTimer].
    destruct (Z.leb_spec (T + 1000) t) as [|_]; [lia|].
    unfold LatestRelay.handle, LatestRelay.held. cbn [LatestRelay.lastWsResponse orNull].
    destruct (String.eqb txt "") eqn:E; cbn [fst snd app].
    + split; [reflexivity|]. intros t'.
      cbn [LatestRelay.clearTimer LatestRelay.lastWsResponse orNull].
      rewrite ?E. destruct (T + 1000 <=? t'); cbn; rewrite ?E; reflexivity.
    + split; [reflexivity|]. intros t'.
      cbn [LatestRelay.clearTimer LatestRelay.lastWsResponse orNull].
      destruct (T + 1000 <=? t'); reflexivity.
  - intros Hge. destruct (R2 (or_introl H1')) as [R|[E1 E2]].
    + unfold holding in R. subst st2. unfold LatestRelay.step, LatestRelay.tick. cbn [LatestRelay.clearTimer].
      destruct (Z.leb_spec (T + 1000) t) as [_|]; [|lia].
      unfold LatestRelay.held. cbn [LatestRelay.lastWsResponse orNull].
      destruct (String.eqb txt "") eqn:E; cbn; rewrite ?E; reflexivity.
    + unfold LatestRelay.step, LatestRelay.tick. rewrite E2.
      cbn [LatestRelay.handle]. rewrite E1. reflexivity.
Qed.

Lemma latest_text_lives_one_second_witness :
  Forall (fun e : Z * relay_event => quiet e.2 = true) [(10, Health OPEN)]
  /\ (LatestRelay.step 500 Poll
        (LatestRelay.run [(10, Health OPEN)]
           (LatestRelay.step 0 (WsMessage (Some "hi") false) LatestRelay.initial).1).1).2
     = [Reply (Polled ["hi"])].
Proof.
  assert (Q : Forall (fun e : Z * relay_event => quiet e.2 = true) [(10, Health OPEN)])
    by (repeat constructor).
  split; [exact Q|].
  refine (proj1 (proj1 (latest_text_lives_one_second LatestRelay.initial 0 "hi"
            [(10, Health OPEN)] 500 Q) _ _)).
  - repeat constructor.
  - reflexivity.
Defined.
